(** * SatMapModifier: tiling, classification and stitching

  A shallow embedding of the three scripts of [SatMapModifier/source/scripts]
  ([image_slicer.py], [auto_airbrush.py], [_stitch_brushed.py]) together
  with the properties their specification states about them.

  Conventions.
  - Python integers are [Z]; [range] is a list of [Z].
  - Python [str] is [string], restricted to ASCII.
  - A Python [dict] is an insertion-ordered association list ([PyDict]):
    [stitch] iterates [mapping.items()] and reads the first value, so the
    order of insertion is observable.
  - The file system is a finite map from paths to file contents; a file
    either decodes to an image or is corrupt.
  - [math.ceil(a / b)] and [int(math.sqrt(n))] go through floating
    point; both are exact for operands below 2^52 and are modelled by the
    exact integer ceiling and integer square root.
  - Of OpenCV, the parts the properties depend on are modelled (value and
    saturation of the HSV conversion, morphology with the 3 x 3 kernel);
    hue, inpainting, blur and the floating point blend are parameters.
  - Directories are not modelled: [os.makedirs] has no effect here. *)

From Stdlib Require Import ZArith List String Ascii Bool Lia Permutation.
From Stdlib Require Import DecimalString DecimalNat.
From stdpp Require Import gmap strings.
Import ListNotations.
Open Scope Z_scope.

(* ===================================================================== *)
(** * Python builtins *)
(* ===================================================================== *)

Module Py.

(** Exceptions that can escape one of the modelled functions. *)
Inductive exn : Type :=
| ZeroDivisionError
| StopIteration
| ValueError
| OSError (path : string).

(** [IOError] is an alias of [OSError]. *)
Definition is_IOError (e : exn) : bool :=
  match e with
  | OSError _ => true
  | _ => false
  end.

Definition exn_text (e : exn) : string :=
  match e with
  | ZeroDivisionError => "division by zero"
  | StopIteration => EmptyString
  | ValueError => "Width and height must be >= 0"
  | OSError path => "cannot open image file " +:+ path
  end.

Inductive result (A : Type) : Type :=
| Ok (a : A)
| Raise (e : exn).
Arguments Ok {A} a.
Arguments Raise {A} e.

Definition bind {A B} (r : result A) (k : A -> result B) : result B :=
  match r with
  | Ok a => k a
  | Raise e => Raise e
  end.

(** [range(a, b)] *)
Definition range (a b : Z) : list Z :=
  map (fun i => a + Z.of_nat i) (seq 0 (Z.to_nat (b - a))).

(** [math.ceil(a / b)] for [b <> 0]. *)
Definition ceil_div (a b : Z) : Z := - ((- a) / b).

(** [math.ceil(math.sqrt(n))] *)
Definition ceil_sqrt (n : Z) : Z :=
  if Z.sqrt n * Z.sqrt n =? n then Z.sqrt n else Z.sqrt n + 1.

(** [min(xs)] and [max(xs)] of a non-empty collection of integers. *)
Definition min_of (xs : list Z) : Z :=
  match xs with
  | [] => 0
  | x :: r => fold_left Z.min r x
  end.

Definition max_of (xs : list Z) : Z :=
  match xs with
  | [] => 0
  | x :: r => fold_left Z.max r x
  end.

(** [str(n)] for a natural number, as an f-string renders it. *)
Definition str (n : nat) : string :=
  NilEmpty.string_of_uint (Nat.to_uint n).

(** [str(z)] for any integer. *)
Definition str_int (z : Z) : string :=
  match z with
  | Zneg p => String "-"%char (str (Pos.to_nat p))
  | _ => str (Z.to_nat z)
  end.

(** [s.lower()] and [s.endswith(suffix)] on ASCII strings. *)
Definition lower_char (c : ascii) : ascii :=
  let n := nat_of_ascii c in
  if ((65 <=? n) && (n <=? 90))%nat then ascii_of_nat (n + 32) else c.

Fixpoint lower (s : string) : string :=
  match s with
  | EmptyString => EmptyString
  | String c r => String (lower_char c) (lower r)
  end.

Fixpoint endswith (s suffix : string) : bool :=
  String.eqb s suffix ||
  match s with
  | EmptyString => false
  | String _ r => endswith r suffix
  end.

Definition is_digit (c : ascii) : bool :=
  ((48 <=? nat_of_ascii c) && (nat_of_ascii c <=? 57))%nat.

Definition digit_val (c : ascii) : Z := Z.of_nat (nat_of_ascii c) - 48.

Fixpoint int_digits (acc : Z) (s : string) : Z :=
  match s with
  | EmptyString => acc
  | String c r => int_digits (10 * acc + digit_val c) r
  end.

(** [int(s)] on a string of the shape [-?[0-9]+]. *)
Definition int (s : string) : Z :=
  match s with
  | String "-"%char r => - int_digits 0 r
  | _ => int_digits 0 s
  end.

End Py.

(** ** Insertion-ordered dictionaries *)

Module PyDict.
Section dict.
Context {K V : Type} `{EqDecision K}.

Definition dict : Type := list (K * V).

Definition empty : dict := [].

(** [d[k] = v]: an existing key keeps its position, a new key goes last. *)
Fixpoint setitem (d : dict) (k : K) (v : V) : dict :=
  match d with
  | [] => [(k, v)]
  | (k', v') :: d' =>
      if decide (k' = k) then (k, v) :: d' else (k', v') :: setitem d' k v
  end.

Fixpoint get (d : dict) (k : K) : option V :=
  match d with
  | [] => None
  | (k', v') :: d' => if decide (k' = k) then Some v' else get d' k
  end.

Definition items (d : dict) : list (K * V) := d.
Definition keys (d : dict) : list K := map fst d.
Definition values (d : dict) : list V := map snd d.
End dict.
Arguments dict K V : clear implicits.
End PyDict.

(* ===================================================================== *)
(** * [os.path] and [re] *)
(* ===================================================================== *)

Module OsPath.

(** Split around the last occurrence of [sep]. *)
Fixpoint rsplit (sep : ascii) (s : string) : option (string * string) :=
  match s with
  | EmptyString => None
  | String c r =>
      match rsplit sep r with
      | Some (b, a) => Some (String c b, a)
      | None => if Ascii.eqb c sep then Some (EmptyString, r) else None
      end
  end.

Fixpoint contains (sep : ascii) (s : string) : bool :=
  match s with
  | EmptyString => false
  | String c r => Ascii.eqb c sep || contains sep r
  end.

Fixpoint all_dots (s : string) : bool :=
  match s with
  | EmptyString => true
  | String c r => Ascii.eqb c "."%char && all_dots r
  end.

(** [os.path.basename(p)] (POSIX): what follows the last slash. *)
Definition basename (p : string) : string :=
  match rsplit "/"%char p with
  | Some (_, a) => a
  | None => p
  end.

(** [os.path.splitext(p)] (POSIX): the extension starts at the last dot,
    provided that dot lies in the last path component and is preceded
    there by a character other than a dot. *)
Definition splitext (p : string) : string * string :=
  match rsplit "."%char p with
  | None => (p, EmptyString)
  | Some (root, ext) =>
      if contains "/"%char ext then (p, EmptyString)
      else if all_dots (basename root) then (p, EmptyString)
      else (root, String "."%char ext)
  end.

Fixpoint all_slashes (s : string) : bool :=
  match s with
  | EmptyString => true
  | String c r => Ascii.eqb c "/"%char && all_slashes r
  end.

(** [s.rstrip('/')] *)
Fixpoint rstrip_slashes (s : string) : string :=
  match s with
  | EmptyString => EmptyString
  | String c r => if all_slashes s then EmptyString else String c (rstrip_slashes r)
  end.

(** [os.path.dirname(p)] (POSIX): what precedes the last slash, without
    trailing slashes unless it consists of slashes only. *)
Definition dirname (p : string) : string :=
  match rsplit "/"%char p with
  | None => EmptyString
  | Some (b, _) =>
      let head := b +:+ String "/"%char EmptyString in
      if all_slashes head then head else rstrip_slashes head
  end.

Fixpoint ends_with_slash (s : string) : bool :=
  match s with
  | EmptyString => false
  | String c EmptyString => Ascii.eqb c "/"%char
  | String _ r => ends_with_slash r
  end.

(** [os.path.join(a, b)] (POSIX, two arguments). *)
Definition join (a b : string) : string :=
  match b with
  | String "/"%char _ => b
  | _ =>
      match a with
      | EmptyString => b
      | _ => if ends_with_slash a then a +:+ b
             else a +:+ String "/"%char b
      end
  end.

End OsPath.

Module Re.

(** [re.findall(r"-?\d+", s)] as a left-to-right scanner.  The state is
    the match under construction: none, a minus sign that may start one,
    or a number that the next digit extends. *)
Inductive scan : Type :=
| NoTok
| Minus
| InNum (tok : string).

Definition snoc (s : string) (c : ascii) : string :=
  s +:+ String c EmptyString.

Definition feed_digit (st : scan) (c : ascii) : scan :=
  match st with
  | NoTok => InNum (String c EmptyString)
  | Minus => InNum (String "-"%char (String c EmptyString))
  | InNum t => InNum (snoc t c)
  end.

Definition flush (st : scan) (k : list string) : list string :=
  match st with
  | InNum t => t :: k
  | _ => k
  end.

Fixpoint findall_go (st : scan) (s : string) : list string :=
  match s with
  | EmptyString => flush st []
  | String c r =>
      if Py.is_digit c then findall_go (feed_digit st c) r
      else flush st
             (findall_go (if Ascii.eqb c "-"%char then Minus else NoTok) r)
  end.

Definition findall_int (s : string) : list string := findall_go NoTok s.

End Re.

(* ===================================================================== *)
(** * Pillow images and the file system *)
(* ===================================================================== *)

Module Pil.

(** The image modes the scripts meet: 8-bit grey, RGB, RGB with alpha. *)
Inductive mode : Type := L | RGB | RGBA.

(** A pixel or colour: one grey level, three channels, or four with
    alpha. *)
Inductive pixel : Type :=
| Px1 (v : Z)
| Px3 (r g b : Z)
| Px4 (r g b a : Z).

Global Instance mode_eq_dec : EqDecision mode.
Proof. solve_decision. Defined.
Global Instance pixel_eq_dec : EqDecision pixel.
Proof. solve_decision. Defined.

Definition transparent : pixel := Px4 0 0 0 0.

Definition px_mode (p : pixel) : mode :=
  match p with
  | Px1 _ => L
  | Px3 _ _ _ => RGB
  | Px4 _ _ _ _ => RGBA
  end.

(** Grey level of a colour (ITU-R 601-2 luma, as Pillow computes it). *)
Definition luma (r g b : Z) : Z :=
  Z.shiftr (r * 19595 + g * 38470 + b * 7471 + 32768) 16.

(** Per-pixel effect of [Image.convert]: RGB gains an opaque alpha, RGBA
    loses its alpha, grey is replicated over the colour channels. *)
Definition convert_px (m : mode) (p : pixel) : pixel :=
  match m, p with
  | L, Px3 r g b => Px1 (luma r g b)
  | L, Px4 r g b _ => Px1 (luma r g b)
  | RGB, Px1 v => Px3 v v v
  | RGB, Px4 r g b _ => Px3 r g b
  | RGBA, Px1 v => Px4 v v v 255
  | RGBA, Px3 r g b => Px4 r g b 255
  | _, _ => p
  end.

Definition zero_px (m : mode) : pixel :=
  match m with
  | L => Px1 0
  | RGB => Px3 0 0 0
  | RGBA => Px4 0 0 0 0
  end.

(** An image: mode, size and the rows of pixels, top row first. *)
Record image : Type := Image {
  im_mode : mode;
  im_width : Z;
  im_height : Z;
  im_data : list (list pixel)
}.

Definition size (im : image) : Z * Z := (im_width im, im_height im).

(** Rows of a [w] x [h] raster given pixel by pixel. *)
Definition tabulate (w h : Z) (f : Z -> Z -> pixel) : list (list pixel) :=
  map (fun y => map (fun x => f x y) (Py.range 0 w)) (Py.range 0 h).

Definition in_bounds (im : image) (x y : Z) : bool :=
  (0 <=? x) && (x <? im_width im) && (0 <=? y) && (y <? im_height im).

(** The pixel stored at [(x, y)]; zero outside the raster, which is what
    [crop] reads there. *)
Definition px_at (im : image) (x y : Z) : pixel :=
  if in_bounds im x y
  then nth (Z.to_nat x) (nth (Z.to_nat y) (im_data im) []) (zero_px (im_mode im))
  else zero_px (im_mode im).

(** A decoded image is a full rectangle of pixels of its mode. *)
Definition well_formed (im : image) : bool :=
  (0 <=? im_width im) && (0 <=? im_height im)
  && (Z.of_nat (length (im_data im)) =? im_height im)
  && forallb (fun row =>
                (Z.of_nat (length row) =? im_width im)
                && forallb (fun p => bool_decide (px_mode p = im_mode im)) row)
             (im_data im).

(** [Image.new(mode, (w, h), color)] *)
Definition new (m : mode) (sz : Z * Z) (color : pixel) : image :=
  let '(w, h) := sz in
  Image m w h (tabulate w h (fun _ _ => convert_px m color)).

(** [im.crop((left, top, right, bottom))], the box being [(x0, y0, x1, y1)]. *)
Definition crop (im : image) (box : Z * Z * Z * Z) : image :=
  let '(x0, y0, x1, y1) := box in
  let w := x1 - x0 in
  let h := y1 - y0 in
  Image (im_mode im) w h
        (tabulate w h (fun x y => px_at im (x + x0) (y + y0))).

(** [im.convert(mode)]: the same raster, every pixel converted. *)
Definition convert (im : image) (m : mode) : image :=
  Image m (im_width im) (im_height im)
        (tabulate (im_width im) (im_height im)
           (fun x y => convert_px m (px_at im x y))).

(** [dst.paste(src, (px, py))] without a mask: the box of [src] placed at
    [(px, py)] replaces what [dst] held there, after conversion to the
    mode of [dst]; what falls outside [dst] is dropped. *)
Definition paste (dst src : image) (at_ : Z * Z) : image :=
  let '(px, py) := at_ in
  Image (im_mode dst) (im_width dst) (im_height dst)
        (tabulate (im_width dst) (im_height dst)
           (fun x y =>
              if in_bounds src (x - px) (y - py)
              then convert_px (im_mode dst) (px_at src (x - px) (y - py))
              else px_at dst x y)).

End Pil.

(** ** Files, output and the world the scripts act on *)

(** A file either decodes to an image or is rejected by [Image.open] and
    [cv2.imread] (missing, or not an image). *)
Inductive file : Type :=
| Decodable (im : Pil.image)
| Corrupt.

(** What a script does to the outside: lines printed, files written. *)
Inductive event : Type :=
| Stdout (line : string)
| Saved (path : string) (im : Pil.image).

Record world : Type := World {
  fs : gmap string file;
  trace : list event
}.

Definition print (w : world) (line : string) : world :=
  World (fs w) (trace w ++ [Stdout line]).

(** [im.save(path)] in a lossless format. *)
Definition save (w : world) (path : string) (im : Pil.image) : world :=
  World (<[path := Decodable im]> (fs w)) (trace w ++ [Saved path im]).

(** [Image.open(path)]: fails on a missing or undecodable file. *)
Definition open (w : world) (path : string) : Py.result Pil.image :=
  match fs w !! path with
  | Some (Decodable im) => Py.Ok im
  | _ => Py.Raise (Py.OSError path)
  end.

(** The files written so far, oldest first. *)
Fixpoint saved (t : list event) : list (string * Pil.image) :=
  match t with
  | [] => []
  | Saved p im :: t' => (p, im) :: saved t'
  | Stdout _ :: t' => saved t'
  end.

(** The lines printed so far, oldest first. *)
Fixpoint printed (t : list event) : list string :=
  match t with
  | [] => []
  | Stdout l :: t' => l :: printed t'
  | Saved _ _ :: t' => printed t'
  end.

(* ===================================================================== *)
(** * [image_slicer.py] *)
(* ===================================================================== *)

Module ImageSlicer.
Import Py Pil.

(** [f"{row}_{col}.png"] *)
Definition chunk_filename (row col : Z) : string :=
  str_int row +:+ "_" +:+ str_int col +:+ ".png".

(** One pass through the body of the two nested loops; the state is the
    world and [chunk_count]. *)
Definition slice_chunk (img : image) (output_dir : string)
    (chunk_size width height rows cols : Z) (row col : Z)
    (st : world * Z) : world * Z :=
  let '(w, chunk_count) := st in
  let left_ := col * chunk_size in
  let top := row * chunk_size in
  let right_ := Z.min (left_ + chunk_size) width in
  let bottom := Z.min (top + chunk_size) height in
  let chunk := crop img (left_, top, right_, bottom) in
  let chunk :=
    if decide (size chunk <> (chunk_size, chunk_size))
    then paste (new RGBA (chunk_size, chunk_size) (Px4 0 0 0 0)) chunk (0, 0)
    else chunk in
  let filename := chunk_filename row col in
  let output_path := OsPath.join output_dir filename in
  let w := save w output_path chunk in
  let chunk_count := chunk_count + 1 in
  let w :=
    if chunk_count mod 10 =? 0
    then print w ("Processed " +:+ str_int chunk_count +:+ "/"
                  +:+ str_int (rows * cols) +:+ " chunks...")
    else w in
  (w, chunk_count).

Definition slice_image (w : world) (input_path output_dir : string)
    (chunk_size : Z) : result world :=
  let w := print w ("Opening image: " +:+ input_path) in
  match open w input_path with
  | Raise e =>
      (* except Exception as e: print(...); return *)
      Ok (print w ("Error opening image: " +:+ exn_text e))
  | Ok img =>
      let '(width, height) := size img in
      let w := print w ("Image dimensions: " +:+ str_int width +:+ " x "
                        +:+ str_int height +:+ " pixels") in
      if chunk_size =? 0 then Raise ZeroDivisionError else
      let cols := ceil_div width chunk_size in
      let rows := ceil_div height chunk_size in
      let w := print w ("Will create " +:+ str_int rows +:+ " rows and "
                        +:+ str_int cols +:+ " columns of chunks") in
      let w := print w ("Total chunks: " +:+ str_int (rows * cols)) in
      let '(w, chunk_count) :=
        fold_left
          (fun st row =>
             fold_left
               (fun st col =>
                  slice_chunk img output_dir chunk_size width height
                              rows cols row col st)
               (range 0 cols) st)
          (range 0 rows) (w, 0) in
      Ok (print w (String "010"%char "Completed! Created "
                   +:+ str_int chunk_count
                   +:+ " image chunks in " +:+ output_dir))
  end.

End ImageSlicer.

(* ===================================================================== *)
(** * [_stitch_brushed.py] *)
(* ===================================================================== *)

Module StitchBrushed.
Import Py Pil.

(** What both locators return:
    [(mapping, min_x, min_y, max_x, max_y)]. *)
Definition layout : Type := PyDict.dict (Z * Z) string * Z * Z * Z * Z.

Definition parse_coords_from_name (name : string) : option (Z * Z) :=
  let base := fst (OsPath.splitext (OsPath.basename name)) in
  let nums := Re.findall_int base in
  if (2 <=? length nums)%nat then
    let row := int (nth (length nums - 2) nums EmptyString) in
    let col := int (nth (length nums - 1) nums EmptyString) in
    Some (row, col)
  else None.

(** The [for f in files] loop of [arrange_by_coords]; [None] is the early
    [return None].  Only the minimum and maximum of the sets [xs] and
    [ys] are read, so they are kept as lists. *)
Fixpoint arrange_loop (files : list string)
    (st : PyDict.dict (Z * Z) string * list Z * list Z)
  : option (PyDict.dict (Z * Z) string * list Z * list Z) :=
  match files with
  | [] => Some st
  | f :: files' =>
      match parse_coords_from_name f with
      | None => None
      | Some (row, col) =>
          let '(mapping, xs, ys) := st in
          arrange_loop files'
            (PyDict.setitem mapping (col, row) f, col :: xs, row :: ys)
      end
  end.

Definition arrange_by_coords (files : list string) : option layout :=
  match arrange_loop files (PyDict.empty, [], []) with
  | None => None
  | Some (mapping, xs, ys) =>
      match mapping with
      | [] => None
      | _ =>
          let '(min_x, max_x) := (min_of xs, max_of xs) in
          let '(min_y, max_y) := (min_of ys, max_of ys) in
          Some (mapping, min_x, min_y, max_x, max_y)
      end
  end.

(** The divisor search of [fallback_grid]. *)
Definition find_best (n : Z) : option (Z * Z) :=
  fold_left
    (fun best rows => if n mod rows =? 0 then Some (rows, n / rows) else best)
    (range 1 (Z.sqrt n + 2)) None.

(** The inner loop of the row-major fill, with its [break]. *)
Fixpoint fill_row (files : list string) (n r : Z) (cs : list Z)
    (st : PyDict.dict (Z * Z) string * Z) : PyDict.dict (Z * Z) string * Z :=
  match cs with
  | [] => st
  | c :: cs' =>
      let '(mapping, idx) := st in
      if n <=? idx then st
      else fill_row files n r cs'
             (PyDict.setitem mapping (c, r)
                (nth (Z.to_nat idx) files EmptyString), idx + 1)
  end.

Definition fallback_grid (files : list string) : result layout :=
  let n := Z.of_nat (length files) in
  let best := find_best n in
  bind
    match best with
    | None =>
        let cols := ceil_sqrt n in
        if cols =? 0 then Raise ZeroDivisionError
        else Ok (ceil_div n cols, cols)
    | Some (rows, cols) => Ok (rows, cols)
    end
    (fun '(rows, cols) =>
       let '(mapping, idx) :=
         fold_left (fun st r => fill_row files n r (range 0 cols) st)
                   (range 0 rows) (PyDict.empty, 0) in
       let '(min_x, min_y) := (0, 0) in
       let '(max_x, max_y) := (cols - 1, rows - 1) in
       Ok (mapping, min_x, min_y, max_x, max_y)).

(** The defaults of the keyword parameters of [stitch]:
    [fill_color=(0, 0, 0, 0)] and [tile_size=None]. *)
Definition default_fill_color : pixel := Px4 0 0 0 0.
Definition default_tile_size : option Z := None.

(** One pass through the body of the paste loop of [stitch]. *)
Definition paste_tile (mode : Pil.mode) (min_x min_y tile_w tile_h : Z)
    (st : world * image) (item : (Z * Z) * string) : world * image :=
  let '(w, stitched) := st in
  let '((x, y), path) := item in
  match open w path with
  | Ok tile =>
      let tile := convert tile mode in
      let px := (x - min_x) * tile_w in
      let py := (y - min_y) * tile_h in
      (w, paste stitched tile (px, py))
  | Raise _ =>
      (print w ("Warning: failed to open/paste " +:+ path), stitched)
  end.

(** [stitch] up to the end of the paste loop: the composited canvas. *)
Definition compose (w : world) (mapping : PyDict.dict (Z * Z) string)
    (min_x min_y max_x max_y : Z) (fill_color : pixel)
    (tile_size : option Z) : result (world * image) :=
  bind
    match tile_size with
    | Some t => Ok (t, t)
    | None =>
        match PyDict.values mapping with
        | [] => Raise StopIteration
        | first_tile_path :: _ =>
            bind (open w first_tile_path) (fun im => Ok (size im))
        end
    end
    (fun '(tile_w, tile_h) =>
       let cols := max_x - min_x + 1 in
       let rows := max_y - min_y + 1 in
       let total_w := cols * tile_w in
       let total_h := rows * tile_h in
       let mode := match fill_color with Px4 _ _ _ _ => RGBA | _ => RGB end in
       if (total_w <? 0) || (total_h <? 0) then Raise ValueError else
       let stitched := new mode (total_w, total_h) fill_color in
       Ok (fold_left (paste_tile mode min_x min_y tile_w tile_h)
                     (PyDict.items mapping) (w, stitched))).

Definition stitch (w : world) (mapping : PyDict.dict (Z * Z) string)
    (min_x min_y max_x max_y : Z) (out_path : string)
    (fill_color : pixel) (tile_size : option Z) : result world :=
  bind (compose w mapping min_x min_y max_x max_y fill_color tile_size)
    (fun '(w, stitched) =>
       let stitched :=
         if endswith (lower out_path) ".bmp"
            && negb (bool_decide (im_mode stitched = RGB))
         then convert stitched RGB
         else stitched in
       let w := save w out_path stitched in
       Ok (print w ("Saved stitched image to: " +:+ out_path))).

(** The filter inside [find_images]: the file name without its extension
    ends with [_brushed]. *)
Definition is_brushed (path : string) : bool :=
  let base := fst (OsPath.splitext (OsPath.basename path)) in
  endswith base "_brushed".

(** The choice [main] makes between the two locators. *)
Definition locate (files : list string) : result layout :=
  match arrange_by_coords files with
  | None => fallback_grid files
  | Some arranged => Ok arranged
  end.

End StitchBrushed.


(* ===================================================================== *)
(** * OpenCV and numpy *)
(* ===================================================================== *)

Module Cv2.

(** A numpy array of shape [(rows, cols)] as the list of its rows. *)
Definition array (A : Type) : Type := list (list A).

(** Elementwise operations. *)
Definition amap {A B : Type} (f : A -> B) (a : array A) : array B :=
  map (map f) a.

Definition amap2 {A B C : Type} (f : A -> B -> C)
    (a : array A) (b : array B) : array C :=
  zip_with (zip_with f) a b.

(** A pixel of an 8-bit colour image: blue, green, red. *)
Definition bgr : Type := Z * Z * Z.

Definition blue (p : bgr) : Z := fst (fst p).
Definition green (p : bgr) : Z := snd (fst p).
Definition red (p : bgr) : Z := snd p.

(** [cv2.split] of a three-channel array. *)
Definition split {A B C : Type} (a : array (A * B * C))
  : array A * array B * array C :=
  (amap (fun p => fst (fst p)) a, amap (fun p => snd (fst p)) a, amap snd a).

(** [cv2.absdiff] on 8-bit channels. *)
Definition absdiff (a b : array Z) : array Z :=
  amap2 (fun x y => Z.abs (x - y)) a b.


(** ** [cv2.cvtColor(img, cv2.COLOR_BGR2HSV)] on 8-bit images

    Value is the largest channel; saturation is [255 * (V - min) / V]
    computed, as OpenCV does for 8-bit input, with a table of rounded
    reciprocals in 12-bit fixed point. *)
Definition round_half_even (a b : Z) : Z :=
  let q := a / b in
  let r := a mod b in
  if 2 * r <? b then q
  else if b <? 2 * r then q + 1
  else if Z.even q then q else q + 1.

Definition sdiv_table (i : Z) : Z :=
  if i =? 0 then 0 else round_half_even (255 * 4096) i.

Definition value_of (p : bgr) : Z :=
  Z.max (Z.max (blue p) (green p)) (red p).

Definition saturation_of (p : bgr) : Z :=
  let v := value_of p in
  let vmin := Z.min (Z.min (blue p) (green p)) (red p) in
  Z.shiftr ((v - vmin) * sdiv_table v + 2048) 12.

(** What is taken from OpenCV and numpy without a model: the hue channel,
    Telea inpainting, the Gaussian blur, and the floating point blend
    [alpha * green + (1 - alpha) * value] cut to 8 bits. *)
Class Extern : Type := {
  hue_of : bgr -> Z;
  inpaint : array bgr -> array Z -> Z -> array bgr;
  GaussianBlur : array bgr -> Z * Z -> Z -> array bgr;
  blend_uint8 : Z -> Z -> Z
}.

Definition cvtColor_BGR2HSV `{Extern} (img : array bgr) : array (Z * Z * Z) :=
  amap (fun p => (hue_of p, saturation_of p, value_of p)) img.

(** ** Morphology with the 3 x 3 elliptic kernel

    [getStructuringElement(MORPH_ELLIPSE, (3, 3))] is the cross; the
    default border leaves positions outside the array out of the maximum
    and the minimum. *)
Definition kernel : Type := list (Z * Z).

Definition ellipse_3x3 : kernel := [(0, 0); (-1, 0); (1, 0); (0, -1); (0, 1)].

Definition at_ (a : array Z) (y x : Z) : option Z :=
  if (0 <=? y) && (0 <=? x)
  then match a !! Z.to_nat y with
       | Some row => row !! Z.to_nat x
       | None => None
       end
  else None.

Definition neighbours (k : kernel) (a : array Z) (y x : Z) : list Z :=
  omap (fun d => at_ a (y + fst d) (x + snd d)) k.

Definition dilate1 (k : kernel) (a : array Z) : array Z :=
  imap (fun y row =>
          imap (fun x _ =>
                  fold_right Z.max 0
                    (neighbours k a (Z.of_nat y) (Z.of_nat x))) row) a.

Definition erode1 (k : kernel) (a : array Z) : array Z :=
  imap (fun y row =>
          imap (fun x _ =>
                  fold_right Z.min 255
                    (neighbours k a (Z.of_nat y) (Z.of_nat x))) row) a.

(** [cv2.dilate(src, kernel, iterations=n)] *)
Definition dilate (a : array Z) (k : kernel) (iterations : nat) : array Z :=
  Nat.iter iterations (dilate1 k) a.

Definition erode (a : array Z) (k : kernel) (iterations : nat) : array Z :=
  Nat.iter iterations (erode1 k) a.

Inductive morph_op : Type := MORPH_CLOSE | MORPH_OPEN.

(** [cv2.morphologyEx(src, op, kernel, iterations=n)] *)
Definition morphologyEx (a : array Z) (op : morph_op) (k : kernel)
    (iterations : nat) : array Z :=
  match op with
  | MORPH_CLOSE => erode (dilate a k iterations) k iterations
  | MORPH_OPEN => dilate (erode a k iterations) k iterations
  end.

(** ** Reading and writing files *)








End Cv2.

(* ===================================================================== *)
(** * [auto_airbrush.py] *)
(* ===================================================================== *)

Module AutoAirbrush.
Import Cv2.

Definition SAT_THRESHOLD : Z := 40.
Definition VAL_THRESHOLD : Z := 120.
Definition RGB_DIFF_THRESHOLD : Z := 20.
Definition MORPH_KERNEL : Z := 3.
Definition DILATE_ITER : nat := 2.

Section with_opencv.
Context `{Extern}.

Definition is_grayish_mask_bgr (img_bgr : array bgr) : array Z :=
  let hsv := cvtColor_BGR2HSV img_bgr in
  let '(h, s, v) := split hsv in
  (* Condition 1: low saturation and fairly bright *)
  let cond1 :=
    amap2 andb (amap (fun x => x <=? SAT_THRESHOLD) s)
               (amap (fun x => VAL_THRESHOLD <=? x) v) in
  (* Condition 2: channels close to each other *)
  let '(b, g, r) := split img_bgr in
  let bg_diff := absdiff b g in
  let br_diff := absdiff b r in
  let gr_diff := absdiff g r in
  let cond2 :=
    amap2 andb
      (amap2 andb (amap (fun x => x <=? RGB_DIFF_THRESHOLD) bg_diff)
                  (amap (fun x => x <=? RGB_DIFF_THRESHOLD) br_diff))
      (amap (fun x => x <=? RGB_DIFF_THRESHOLD) gr_diff) in
  (* mask = (cond1 & cond2).astype(np.uint8) * 255 *)
  amap (fun x => x * 255)
       (amap (fun c : bool => if c then 1 else 0) (amap2 andb cond1 cond2)).

(** [MORPH_KERNEL] is 3, so the kernel is the 3 x 3 ellipse. *)
Definition refine_mask (mask : array Z) : array Z :=
  let kernel := ellipse_3x3 in
  let closed := morphologyEx mask MORPH_CLOSE kernel 1 in
  let opened := morphologyEx closed MORPH_OPEN kernel 1 in
  let dilated := dilate opened kernel DILATE_ITER in
  dilated.

(** [int(np.mean(values))] *)
Definition int_mean (values : list Z) : Z :=
  fold_right Z.add 0 values / Z.of_nat (length values).

(** [channel[combined]]: the entries selected by a boolean array. *)
Definition select (channel : array Z) (combined : array bool) : list Z :=
  omap (fun xb : Z * bool => if snd xb then Some (fst xb) else None)
       (zip (concat channel) (concat combined)).

Definition compute_mean_green (img_bgr : array bgr)
    (green_mask : option (array Z)) : bgr :=
  let hsv := cvtColor_BGR2HSV img_bgr in
  let '(h, s, v) := split hsv in
  let green_h_min := 35 / 2 in
  let green_h_max := 85 / 2 in
  let green_h_mask :=
    amap2 andb
      (amap2 andb
         (amap2 andb (amap (fun x => green_h_min <=? x) h)
                     (amap (fun x => x <=? green_h_max) h))
         (amap (fun x => 80 <=? x) s))
      (amap (fun x => 60 <=? x) v) in
  let combined :=
    match green_mask with
    | Some gm => amap2 andb green_h_mask (amap (fun x => 0 <? x) gm)
    | None => green_h_mask
    end in
  let '(b, g, r) := split img_bgr in
  if existsb (fun c : bool => c) (concat combined) then
    (int_mean (select b combined), int_mean (select g combined),
     int_mean (select r combined))
  else
    (int_mean (concat b), int_mean (concat g), int_mean (concat r)).


End with_opencv.
End AutoAirbrush.

(* ===================================================================== *)
(** * The locator rules in the words of the specification *)
(* ===================================================================== *)

(** These definitions follow the specification text, not the code; the
    theorems below compare them with [StitchBrushed]. *)

Module LocatorSpec.

Definition starts_with_digit (s : string) : bool :=
  match s with
  | String c _ => Py.is_digit c
  | EmptyString => false
  end.

(** "Every run of digits": the maximal runs, left to right. *)
Fixpoint digit_runs (s : string) : list string :=
  match s with
  | EmptyString => []
  | String c r =>
      if Py.is_digit c then
        if starts_with_digit r then
          match digit_runs r with
          | t :: k => String c t :: k
          | [] => [String c EmptyString]
          end
        else String c EmptyString :: digit_runs r
      else digit_runs r
  end.

(** The same runs, each with a flag telling whether a minus sign stands
    immediately before it. *)
Fixpoint signed_runs (s : string) : list (bool * string) :=
  match s with
  | EmptyString => []
  | String c r =>
      if Py.is_digit c then
        if starts_with_digit r then
          match signed_runs r with
          | (_, t) :: k => (false, String c t) :: k
          | [] => [(false, String c EmptyString)]
          end
        else (false, String c EmptyString) :: signed_runs r
      else if Ascii.eqb c "-"%char && starts_with_digit r then
        match signed_runs r with
        | (_, t) :: k => (true, t) :: k
        | [] => []
        end
      else signed_runs r
  end.

(** The number a run of digits denotes. *)
Definition run_value (t : string) : Z := Py.int_digits 0 t.

Definition signed_value (r : bool * string) : Z :=
  if fst r then - run_value (snd r) else run_value (snd r).

(** "The last two", in their order of appearance. *)
Definition last_two {A : Type} (l : list A) : option (A * A) :=
  match rev l with
  | y :: x :: _ => Some (x, y)
  | _ => None
  end.

(** "Base name": the file name without directory and extension. *)
Definition base_name (name : string) : string :=
  fst (OsPath.splitext (OsPath.basename name)).

(** The primary strategy as the specification states it. *)
Definition claimed_coords (name : string) : option (Z * Z) :=
  match last_two (digit_runs (base_name name)) with
  | Some (r, c) => Some (run_value r, run_value c)
  | None => None
  end.

(** The primary strategy with signs taken into account. *)
Definition signed_coords (name : string) : option (Z * Z) :=
  match last_two (signed_runs (base_name name)) with
  | Some (r, c) => Some (signed_value r, signed_value c)
  | None => None
  end.




End LocatorSpec.

(* ===================================================================== *)
(** * The classifier rule in the words of the specification *)
(* ===================================================================== *)

Module ClassifierSpec.

(** A pixel is flagged when it is light and desaturated in HSV and its
    three channels lie within the channel delta of each other (default
    thresholds 40, 120 and 20). *)
Definition flagged (p : Cv2.bgr) : Prop :=
  (Cv2.saturation_of p <= 40 /\ 120 <= Cv2.value_of p)
  /\ (Z.abs (Cv2.blue p - Cv2.green p) <= 20
      /\ Z.abs (Cv2.blue p - Cv2.red p) <= 20
      /\ Z.abs (Cv2.green p - Cv2.red p) <= 20).

(** A tile of one colour. *)
Definition uniform {A : Type} (rows cols : nat) (p : A) : Cv2.array A :=
  repeat (repeat p cols) rows.

Definition mid_gray : Cv2.bgr := (150, 150, 150).
Definition pure_green : Cv2.bgr := (0, 255, 0).

End ClassifierSpec.

(* ===================================================================== *)
(** * Auxiliary definitions used by the proofs *)
(* ===================================================================== *)

Section aux_defs.
Import Py Re LocatorSpec StitchBrushed.

(** Texts of the scanner against the signed runs: what [findall_go]
    returns from state [st] on [s], given the runs of [s]. *)
Definition render (r : bool * string) : string :=
  if fst r then String "-"%char (snd r) else snd r.

Definition resume (st : scan) (s : string) (runs : list (bool * string))
  : list string :=
  match st with
  | NoTok => map render runs
  | Minus =>
      if starts_with_digit s then
        match runs with
        | (_, t) :: k => String "-"%char t :: map render k
        | [] => []
        end
      else map render runs
  | InNum tok =>
      if starts_with_digit s then
        match runs with
        | (_, t) :: k => (tok +:+ t) :: map render k
        | [] => [tok]
        end
      else tok :: map render runs
  end.

(** The position a file name denotes, as the key [(x, y) = (col, row)]. *)
Definition key_of (f : string) : Z * Z :=
  match parse_coords_from_name f with
  | Some (row, col) => (col, row)
  | None => (0, 0)
  end.

Definition set_file (m : PyDict.dict (Z * Z) string) (f : string) :=
  PyDict.setitem m (key_of f) f.

(** The row-major listing of a [rows] x [cols] grid over [files], starting
    at row [r0]. *)
Definition grid_row (files : list string) (cols r : Z)
  : list ((Z * Z) * string) :=
  map (fun c => ((c, r), nth (Z.to_nat (r * cols + c)) files EmptyString))
      (range 0 cols).

Definition grid_cells (files : list string) (cols r0 rows : Z)
  : list ((Z * Z) * string) :=
  flat_map (grid_row files cols) (range r0 rows).

(** One step of the divisor search. *)
Definition best_step (n : Z) (best : option (Z * Z)) (rows : Z)
  : option (Z * Z) :=
  if n mod rows =? 0 then Some (rows, n / rows) else best.

Definition is_min (x : Z) (l : list Z) : Prop :=
  In x l /\ forall y, In y l -> x <= y.

Definition is_max (x : Z) (l : list Z) : Prop :=
  In x l /\ forall y, In y l -> y <= x.

Fixpoint digits_only (s : string) : bool :=
  match s with
  | EmptyString => true
  | String c r => is_digit c && digits_only r
  end.

(** The path a tile is written to. *)
Definition tile_path (output_dir : string) (row col : Z) : string :=
  OsPath.join output_dir (ImageSlicer.chunk_filename row col).

(** The tile [slice_chunk] computes for grid position [(row, col)]. *)
Definition chunk_of (img : Pil.image) (chunk_size row col : Z) : Pil.image :=
  let chunk :=
    Pil.crop img (col * chunk_size, row * chunk_size,
                  Z.min (col * chunk_size + chunk_size) (Pil.im_width img),
                  Z.min (row * chunk_size + chunk_size) (Pil.im_height img)) in
  if decide (Pil.size chunk <> (chunk_size, chunk_size))
  then Pil.paste (Pil.new Pil.RGBA (chunk_size, chunk_size) (Pil.Px4 0 0 0 0))
                 chunk (0, 0)
  else chunk.

(** Grid positions in the order the nested loops visit them. *)
Definition cells (rows cols : Z) : list (Z * Z) :=
  flat_map (fun r => map (fun c => (r, c)) (range 0 cols)) (range 0 rows).

Definition tile_entry (img : Pil.image) (output_dir : string)
    (chunk_size : Z) (rc : Z * Z) : string * Pil.image :=
  (tile_path output_dir (fst rc) (snd rc),
   chunk_of img chunk_size (fst rc) (snd rc)).

Definition write_file (m : gmap string file) (e : string * Pil.image)
  : gmap string file :=
  <[fst e := Decodable (snd e)]> m.

(** A 3 x 2 opaque source image and a world holding it, for the worked
    examples. *)
Definition demo_source : Pil.image :=
  Pil.Image Pil.RGB 3 2
    [[Pil.Px3 10 20 30; Pil.Px3 40 50 60; Pil.Px3 70 80 90];
     [Pil.Px3 11 21 31; Pil.Px3 41 51 61; Pil.Px3 71 81 91]].

Definition demo_world : world :=
  World {["in.bmp" := Decodable demo_source]} [].


(** The mode [stitch] gives its canvas. *)
Definition canvas_mode (fill_color : Pil.pixel) : Pil.mode :=
  match fill_color with
  | Pil.Px4 _ _ _ _ => Pil.RGBA
  | _ => Pil.RGB
  end.

(** The paste loop of [stitch] without the world: what one item and what
    all items do to the canvas, and the warnings printed on the way. *)
Definition paste_one (mode : Pil.mode) (min_x min_y tile_w tile_h : Z)
    (m : gmap string file) (canvas : Pil.image) (item : (Z * Z) * string)
  : Pil.image :=
  match m !! snd item with
  | Some (Decodable tile) =>
      Pil.paste canvas (Pil.convert tile mode)
        ((fst (fst item) - min_x) * tile_w, (snd (fst item) - min_y) * tile_h)
  | _ => canvas
  end.

Definition paste_all (mode : Pil.mode) (min_x min_y tile_w tile_h : Z)
    (m : gmap string file) (items : list ((Z * Z) * string))
    (canvas : Pil.image) : Pil.image :=
  fold_left (paste_one mode min_x min_y tile_w tile_h m) items canvas.

Definition warnings (m : gmap string file) (items : list ((Z * Z) * string))
  : list event :=
  flat_map (fun item =>
              match m !! snd item with
              | Some (Decodable _) => []
              | _ => [Stdout ("Warning: failed to open/paste " +:+ snd item)]
              end) items.

(** Every decodable tile of the layout has the per-tile size. *)
Definition uniform_tiles (m : gmap string file)
    (items : list ((Z * Z) * string)) (tile_w tile_h : Z) : Prop :=
  forall k path tile,
    In (k, path) items -> m !! path = Some (Decodable tile) ->
    Pil.size tile = (tile_w, tile_h).

(** Two opaque red 4 x 4 tiles side by side, and a layout whose first tile
    is corrupt. *)
Definition red_tile : Pil.image :=
  Pil.new Pil.RGBA (4, 4) (Pil.Px4 255 0 0 255).

Definition red_world : world :=
  World {["t_0_0.png" := Decodable red_tile;
          "t_0_1.png" := Decodable red_tile]} [].

Definition red_layout : PyDict.dict (Z * Z) string :=
  [((0, 0), "t_0_0.png"); ((1, 0), "t_0_1.png")].

Definition broken_world : world :=
  World {["t_0_0.png" := Corrupt;
          "t_0_1.png" := Decodable red_tile]} [].

(** The paths of all tiles of a [rows] x [cols] slicing. *)
Definition tile_paths (output_dir : string) (rows cols : Z) : list string :=
  map (fun rc => tile_path output_dir (fst rc) (snd rc)) (cells rows cols).

(** The mapping [arrange_by_coords] builds when no two files share a
    position. *)
Definition keyed (files : list string) : PyDict.dict (Z * Z) string :=
  map (fun f => (key_of f, f)) files.

(** The world after slicing [demo_source] into 2 x 2 tiles. *)
Definition demo_sliced : world :=
  match ImageSlicer.slice_image demo_world "in.bmp" "out" 2 with
  | Ok w1 => w1
  | Raise _ => demo_world
  end.

(** The value [is_grayish_mask_bgr] gives one pixel. *)
Definition classify (p : Cv2.bgr) : Z :=
  if (Cv2.saturation_of p <=? 40) && (120 <=? Cv2.value_of p)
     && ((Z.abs (Cv2.blue p - Cv2.green p) <=? 20)
         && (Z.abs (Cv2.blue p - Cv2.red p) <=? 20)
         && (Z.abs (Cv2.green p - Cv2.red p) <=? 20))
  then 255 else 0.

(** The files [process_image_file] writes for an input path. *)
Definition airbrush_dir (input_path : string) (output_dir : option string)
  : string :=
  match output_dir with
  | None => OsPath.dirname input_path
  | Some d => d
  end.

Definition brushed_path (input_path : string) (output_dir : option string)
  : string :=
  OsPath.join (airbrush_dir input_path output_dir)
    (fst (OsPath.splitext (OsPath.basename input_path)) +:+ "_brushed.png").

Definition mask_path (input_path : string) (output_dir : option string)
  : string :=
  OsPath.join (airbrush_dir input_path output_dir)
    (fst (OsPath.splitext (OsPath.basename input_path)) +:+ "_mask.png").

Definition inpainted_path (input_path : string) (output_dir : option string)
  : string :=
  OsPath.join (airbrush_dir input_path output_dir)
    (fst (OsPath.splitext (OsPath.basename input_path)) +:+ "_inpainted.png").

(** A stand-in for the parts of OpenCV left without a model, for the
    worked examples. *)
Definition plain_opencv : Cv2.Extern :=
  {| Cv2.hue_of := fun _ => 0;
     Cv2.inpaint := fun img _ _ => img;
     Cv2.GaussianBlur := fun img _ _ => img;
     Cv2.blend_uint8 := fun g p => (55 * g + 45 * p) / 100 |}.

End aux_defs.

(* ===================================================================== *)
(** * Auxiliary definitions for the further properties *)
(* ===================================================================== *)

Section aux_extra_defs.
Import Py Re LocatorSpec StitchBrushed.

(** The last character of a string. *)
Fixpoint last_char (s : string) : option ascii :=
  match s with
  | EmptyString => None
  | String c EmptyString => Some c
  | String _ r => last_char r
  end.


(** The progress line [slice_image] prints after its [k]-th tile. *)
Definition progress_line (total k : Z) : string :=
  "Processed " +:+ str_int k +:+ "/" +:+ str_int total +:+ " chunks...".

(** The progress lines printed while the tile count goes from [from] to
    [from + n]: one for every multiple of ten reached. *)
Definition progress_lines (total from n : Z) : list string :=
  map (progress_line total)
      (List.filter (fun k => k mod 10 =? 0) (range (from + 1) (from + n + 1))).

(** A mask all of whose entries are 0 or 255. *)
Definition binary (m : Cv2.array Z) : Prop :=
  Forall (Forall (fun v => v = 0 \/ v = 255)) m.

End aux_extra_defs.
(* ===================================================================== *)
(** * Facts about the Python builtins *)
(* ===================================================================== *)

Section range_facts.
Import Py.

Lemma range_length a b : length (range a b) = Z.to_nat (b - a).
Proof. unfold range. now rewrite length_map, length_seq. Qed.

Lemma In_range x a b : In x (range a b) <-> a <= x < b.
Proof.
  unfold range. rewrite in_map_iff. split.
  - intros (i & <- & Hi). apply in_seq in Hi. lia.
  - intros H. exists (Z.to_nat (x - a)). split; [lia|].
    apply in_seq. lia.
Qed.

Lemma range_lookup a b (i : nat) :
  (i < Z.to_nat (b - a))%nat -> range a b !! i = Some (a + Z.of_nat i).
Proof.
  intros H. unfold range.
  change (map ?f ?l) with (f <$> l).
  rewrite list_lookup_fmap, lookup_seq_lt by assumption. reflexivity.
Qed.

Lemma range_nil a b : b <= a -> range a b = [].
Proof.
  intros H. unfold range. replace (Z.to_nat (b - a)) with 0%nat by lia.
  reflexivity.
Qed.

Lemma range_snoc a b : a <= b -> range a (b + 1) = range a b ++ [b].
Proof.
  intros H. unfold range.
  replace (Z.to_nat (b + 1 - a)) with (S (Z.to_nat (b - a))) by lia.
  rewrite seq_S, map_app. simpl. do 2 f_equal. lia.
Qed.

Lemma range_cons a b : a < b -> range a b = a :: range (a + 1) b.
Proof.
  intros H. unfold range.
  replace (Z.to_nat (b - a)) with (S (Z.to_nat (b - (a + 1)))) by lia.
  simpl. f_equal; [lia|].
  rewrite <- seq_shift, map_map. apply map_ext. intros; lia.
Qed.

Lemma NoDup_range a b : NoDup (range a b).
Proof.
  unfold range. apply NoDup_fmap_2; [|apply NoDup_seq].
  intros i j Hij. lia.
Qed.

Lemma min_of_spec (xs : list Z) :
  xs <> [] ->
  In (min_of xs) xs /\ (forall x, In x xs -> min_of xs <= x).
Proof.
  destruct xs as [|x r]; [congruence|]. intros _. simpl.
  revert x. induction r as [|y r IH]; intros x; simpl.
  - split; [auto|]. intros z [<-|[]]. lia.
  - destruct (IH (Z.min x y)) as [Hin Hle]. split.
    + destruct Hin as [Hin|Hin]; [|auto].
      rewrite <- Hin. destruct (Z.min_spec x y) as [[_ ->]|[_ ->]]; auto.
    + intros z [<-|[<-|Hz]].
      * pose proof (Hle _ (or_introl eq_refl)). lia.
      * pose proof (Hle _ (or_introl eq_refl)). lia.
      * apply Hle. now right.
Qed.

Lemma max_of_spec (xs : list Z) :
  xs <> [] ->
  In (max_of xs) xs /\ (forall x, In x xs -> x <= max_of xs).
Proof.
  destruct xs as [|x r]; [congruence|]. intros _. simpl.
  revert x. induction r as [|y r IH]; intros x; simpl.
  - split; [auto|]. intros z [<-|[]]. lia.
  - destruct (IH (Z.max x y)) as [Hin Hle]. split.
    + destruct Hin as [Hin|Hin]; [|auto].
      rewrite <- Hin. destruct (Z.max_spec x y) as [[_ ->]|[_ ->]]; auto.
    + intros z [<-|[<-|Hz]].
      * pose proof (Hle _ (or_introl eq_refl)). lia.
      * pose proof (Hle _ (or_introl eq_refl)). lia.
      * apply Hle. now right.
Qed.

End range_facts.

(** ** Dictionaries *)

Section dict_facts.
Context {K V : Type} `{EqDecision K}.
Implicit Types (d : PyDict.dict K V) (k : K) (v : V).

Lemma get_setitem_eq d k v : PyDict.get (PyDict.setitem d k v) k = Some v.
Proof.
  induction d as [|[k' v'] d IH]; simpl.
  - now rewrite decide_True.
  - destruct (decide (k' = k)); simpl.
    + now rewrite decide_True.
    + now rewrite decide_False.
Qed.

Lemma get_setitem_ne d k k' v :
  k <> k' -> PyDict.get (PyDict.setitem d k v) k' = PyDict.get d k'.
Proof.
  intros Hne. induction d as [|[k0 v0] d IH]; simpl.
  - now rewrite decide_False.
  - destruct (decide (k0 = k)) as [->|]; simpl.
    + now rewrite !decide_False.
    + destruct (decide (k0 = k')); auto.
Qed.

Lemma keys_setitem_old d k v :
  In k (PyDict.keys d) -> PyDict.keys (PyDict.setitem d k v) = PyDict.keys d.
Proof.
  induction d as [|[k0 v0] d IH]; simpl; [tauto|].
  intros Hin. destruct (decide (k0 = k)) as [->|Hne]; simpl; [reflexivity|].
  f_equal. apply IH. destruct Hin; congruence.
Qed.

Lemma setitem_new d k v :
  ~ In k (PyDict.keys d) -> PyDict.setitem d k v = d ++ [(k, v)].
Proof.
  induction d as [|[k0 v0] d IH]; simpl; [reflexivity|].
  intros Hin. rewrite decide_False by tauto. f_equal. apply IH. tauto.
Qed.

Lemma In_keys_setitem d k v k' :
  In k' (PyDict.keys (PyDict.setitem d k v)) <-> k' = k \/ In k' (PyDict.keys d).
Proof.
  induction d as [|[k0 v0] d IH]; simpl.
  - intuition.
  - destruct (decide (k0 = k)) as [->|Hne]; simpl; [intuition|].
    rewrite IH. intuition.
Qed.

Lemma NoDup_keys_setitem d k v :
  NoDup (PyDict.keys d) -> NoDup (PyDict.keys (PyDict.setitem d k v)).
Proof.
  intros Hnd. destruct (in_dec (fun a b => decide (a = b)) k (PyDict.keys d)) as [Hin|Hin].
  - now rewrite keys_setitem_old.
  - rewrite setitem_new by assumption. unfold PyDict.keys.
    rewrite map_app. simpl. apply NoDup_app. split; [assumption|].
    split; [|apply NoDup_singleton].
    intros x Hx Hx'. apply list_elem_of_In in Hx, Hx'.
    destruct Hx' as [<-|[]]. contradiction.
Qed.

Lemma get_Some_In d k v :
  NoDup (PyDict.keys d) -> (PyDict.get d k = Some v <-> In (k, v) (PyDict.items d)).
Proof.
  unfold PyDict.items.
  induction d as [|[k0 v0] d IH]; simpl; intros Hnd.
  - split; [discriminate|tauto].
  - inversion Hnd as [|? ? Hnotin Hnd']; subst.
    destruct (decide (k0 = k)) as [->|Hne].
    + split.
      * intros [= ->]. now left.
      * intros [[= ->]|Hin]; [reflexivity|].
        exfalso. apply Hnotin. apply list_elem_of_In, in_map_iff.
        now exists (k, v).
    + rewrite IH by assumption. split; [tauto|].
      intros [[= -> ->]|Hin]; [congruence|assumption].
Qed.

Lemma get_None_keys d k : PyDict.get d k = None <-> ~ In k (PyDict.keys d).
Proof.
  induction d as [|[k0 v0] d IH]; simpl; [tauto|].
  destruct (decide (k0 = k)) as [->|Hne].
  - split; [discriminate|tauto].
  - rewrite IH. tauto.
Qed.

End dict_facts.

(* ===================================================================== *)
(** * TileLocator: the primary strategy *)
(* ===================================================================== *)

Section scanner_facts.
Import Py Re LocatorSpec.


Lemma append_cons a (t u : string) : String a t +:+ u = String a (t +:+ u).
Proof. reflexivity. Qed.

Lemma append_nil_l (u : string) : EmptyString +:+ u = u.
Proof. reflexivity. Qed.

Lemma append_assoc (s t u : string) : (s +:+ t) +:+ u = s +:+ (t +:+ u).
Proof.
  induction s as [|a s IH]; [reflexivity|].
  now rewrite !append_cons, IH.
Qed.

Lemma append_snoc (t : string) c u : snoc t c +:+ u = t +:+ String c u.
Proof. unfold snoc. now rewrite append_assoc. Qed.

Lemma minus_not_digit : is_digit "-"%char = false.
Proof. reflexivity. Qed.

Lemma signed_runs_head_digit s :
  starts_with_digit s = true ->
  exists t k, signed_runs s = (false, t) :: k.
Proof.
  destruct s as [|c r]; simpl; [discriminate|]. intros ->.
  destruct (starts_with_digit r).
  - destruct (signed_runs r) as [|[b t] k]; eauto.
  - eauto.
Qed.

Lemma findall_go_resume s : forall st,
  findall_go st s = resume st s (signed_runs s).
Proof.
  induction s as [|c r IH]; intros st.
  - destruct st; reflexivity.
  - simpl findall_go. simpl signed_runs.
    destruct (is_digit c) eqn:Hc.
    + rewrite IH.
      assert (Hm : Ascii.eqb c "-"%char = false).
      { destruct (Ascii.eqb_spec c "-"%char) as [->|]; [discriminate|reflexivity]. }
      destruct (starts_with_digit r) eqn:Hr.
      * destruct (signed_runs_head_digit r Hr) as (t & k & ->).
        destruct st; simpl; rewrite ?Hc, ?Hr; simpl; try reflexivity.
        now rewrite append_snoc.
      * destruct st; simpl; rewrite ?Hc, ?Hr; simpl; reflexivity.
    + rewrite IH.
      destruct (Ascii.eqb c "-"%char) eqn:Hm; simpl.
      * destruct (starts_with_digit r) eqn:Hr.
        -- destruct (signed_runs_head_digit r Hr) as (t & k & ->).
           destruct st; simpl; rewrite ?Hc; reflexivity.
        -- destruct st; simpl; rewrite ?Hc; reflexivity.
      * destruct st; simpl; rewrite ?Hc; reflexivity.
Qed.

(** The scanner returns the signed runs, as text. *)
Lemma findall_int_signed_runs s :
  findall_int s = map render (signed_runs s).
Proof. apply findall_go_resume. Qed.

(** Dropping the signs gives back the digit runs. *)
Lemma signed_runs_digit_runs s : map snd (signed_runs s) = digit_runs s.
Proof.
  induction s as [|c r IH]; simpl; [reflexivity|].
  destruct (is_digit c) eqn:Hc.
  - destruct (starts_with_digit r) eqn:Hr.
    + rewrite <- IH. destruct (signed_runs_head_digit r Hr) as (t & k & ->).
      reflexivity.
    + simpl. now rewrite IH.
  - destruct (Ascii.eqb c "-"%char && starts_with_digit r) eqn:Hm; [|assumption].
    apply andb_prop in Hm as [_ Hr]. rewrite <- IH.
    destruct (signed_runs_head_digit r Hr) as (t & k & ->). reflexivity.
Qed.

(** Every run starts with a digit. *)
Lemma signed_runs_start s r :
  In r (signed_runs s) -> starts_with_digit (snd r) = true.
Proof.
  revert r. induction s as [|c s IH]; simpl; [tauto|]. intros r.
  destruct (is_digit c) eqn:Hc.
  - destruct (starts_with_digit s) eqn:Hs.
    + destruct (signed_runs s) as [|[b t] k]; simpl.
      * intros [<-|[]]. exact Hc.
      * intros [<-|Hin]; [exact Hc|]. apply IH. now right.
    + intros [<-|Hin]; [exact Hc|]. now apply IH.
  - destruct (Ascii.eqb c "-"%char && starts_with_digit s); [|apply IH].
    destruct (signed_runs s) as [|[b t] k]; simpl; [tauto|].
    intros [<-|Hin]; [apply (IH (b, t)); now left|]. apply IH. now right.
Qed.

Lemma int_render r :
  starts_with_digit (snd r) = true -> int (render r) = signed_value r.
Proof.
  destruct r as [[|] t]; unfold render, signed_value, run_value; simpl.
  - reflexivity.
  - destruct t as [|c t]; [discriminate|]. simpl. intros Hc.
    destruct (Ascii.eqb_spec c "-"%char) as [->|Hne]; [discriminate|].
    unfold int.
    destruct c as [[|] [|] [|] [|] [|] [|] [|] [|]]; try reflexivity.
    congruence.
Qed.

End scanner_facts.

Section primary_facts.
Import Py LocatorSpec StitchBrushed.

Lemma last_two_nth {A : Type} (l : list A) (d : A) :
  last_two l =
  if (2 <=? length l)%nat
  then Some (nth (length l - 2) l d, nth (length l - 1) l d)
  else None.
Proof.
  unfold last_two.
  destruct l as [|y l] using rev_ind; [reflexivity|].
  rewrite rev_app_distr. simpl rev. simpl app.
  destruct l as [|x l _] using rev_ind; [reflexivity|].
  rewrite rev_app_distr. simpl rev. simpl app.
  rewrite !length_app. simpl length.
  replace (2 <=? length l + 1 + 1)%nat with true
    by (symmetry; apply Nat.leb_le; lia).
  rewrite <- !app_assoc. simpl app.
  replace (length l + 1 + 1 - 2)%nat with (length l + 0)%nat by lia.
  replace (length l + 1 + 1 - 1)%nat with (length l + 1)%nat by lia.
  rewrite !app_nth2_plus. reflexivity.
Qed.

(** The code computes the signed reading of the rule. *)
Lemma parse_coords_signed name :
  parse_coords_from_name name = signed_coords name.
Proof.
  unfold parse_coords_from_name, signed_coords. fold (base_name name).
  rewrite findall_int_signed_runs.
  rewrite (last_two_nth _ (false, EmptyString)).
  rewrite length_map.
  destruct (2 <=? length (signed_runs (base_name name)))%nat eqn:Hlen;
    [|reflexivity].
  apply Nat.leb_le in Hlen.
  change EmptyString with (render (false, EmptyString)).
  rewrite !map_nth.
  rewrite !int_render; [reflexivity| |].
  - eapply signed_runs_start, nth_In. lia.
  - eapply signed_runs_start, nth_In. lia.
Qed.

Lemma parse_coords_None_iff name :
  parse_coords_from_name name = None <->
  (length (digit_runs (base_name name)) < 2)%nat.
Proof.
  rewrite parse_coords_signed. unfold signed_coords.
  rewrite (last_two_nth _ (false, EmptyString)).
  rewrite <- signed_runs_digit_runs, length_map.
  destruct (2 <=? length (signed_runs (base_name name)))%nat eqn:Hlen.
  - apply Nat.leb_le in Hlen. split; [discriminate|lia].
  - apply Nat.leb_gt in Hlen. split; [lia|reflexivity].
Qed.


Lemma arrange_loop_None files : forall st,
  (exists f, In f files /\ parse_coords_from_name f = None) ->
  arrange_loop files st = None.
Proof.
  induction files as [|f files IH]; intros st (g & Hin & Hg); [destruct Hin|].
  simpl. destruct (parse_coords_from_name f) as [[row col]|] eqn:Hf;
    [|reflexivity].
  destruct st as [[m xs] ys]. apply IH. exists g. split; [|assumption].
  destruct Hin as [->|]; [congruence|assumption].
Qed.

Lemma arrange_loop_Some files : forall m xs ys,
  (forall f, In f files -> parse_coords_from_name f <> None) ->
  arrange_loop files (m, xs, ys) =
  Some (fold_left set_file files m,
        rev (map (fun f => fst (key_of f)) files) ++ xs,
        rev (map (fun f => snd (key_of f)) files) ++ ys).
Proof.
  induction files as [|f files IH]; intros m xs ys Hall; [reflexivity|].
  simpl. pose proof (Hall f (or_introl eq_refl)) as Hf.
  destruct (parse_coords_from_name f) as [[row col]|] eqn:E; [|congruence].
  rewrite IH by (intros; apply Hall; now right).
  assert (Hk : key_of f = (col, row)) by (unfold key_of; now rewrite E).
  change (set_file m f) with (PyDict.setitem m (key_of f) f).
  rewrite Hk. simpl. rewrite <- !app_assoc. reflexivity.
Qed.

Lemma fold_set_file_keys files : forall m k,
  In k (PyDict.keys (fold_left set_file files m)) <->
  In k (PyDict.keys m) \/ In k (map key_of files).
Proof.
  induction files as [|f files IH]; intros m k; simpl; [tauto|].
  rewrite IH. change (set_file m f) with (PyDict.setitem m (key_of f) f).
  rewrite In_keys_setitem. intuition.
Qed.

Lemma fold_set_file_NoDup files : forall m,
  NoDup (PyDict.keys m) -> NoDup (PyDict.keys (fold_left set_file files m)).
Proof.
  induction files as [|f files IH]; intros m Hm; simpl; [assumption|].
  apply IH, NoDup_keys_setitem, Hm.
Qed.

(** With pairwise distinct positions nothing is overwritten: the mapping
    lists the files in their order. *)
Lemma fold_set_file_fresh files : forall m,
  NoDup (PyDict.keys m ++ map key_of files) ->
  fold_left set_file files m = m ++ map (fun f => (key_of f, f)) files.
Proof.
  induction files as [|f files IH]; intros m Hnd; simpl.
  - now rewrite app_nil_r.
  - assert (Hfresh : ~ In (key_of f) (PyDict.keys m)).
    { intros Hin. apply NoDup_app in Hnd as (_ & Hdisj & _).
      apply (Hdisj (key_of f)); apply list_elem_of_In; [assumption|now left]. }
    change (set_file m f) with (PyDict.setitem m (key_of f) f).
    rewrite setitem_new by assumption.
    rewrite IH.
    + now rewrite <- app_assoc.
    + unfold PyDict.keys in *. rewrite map_app. simpl.
      rewrite <- app_assoc. exact Hnd.
Qed.

(** Every file of a successfully arranged set sits in the mapping at its
    own position, unless a later file with the same position replaced it. *)
Lemma fold_set_file_get files : forall m f,
  In f files ->
  exists g, PyDict.get (fold_left set_file files m) (key_of f) = Some g
            /\ key_of g = key_of f /\ In g files.
Proof.
  induction files as [|f0 files IH] using rev_ind; intros m f Hin;
    [destruct Hin|].
  rewrite fold_left_app. simpl. unfold set_file at 1.
  apply in_app_or in Hin.
  destruct (decide (key_of f0 = key_of f)) as [Heq|Hne].
  - exists f0. rewrite <- Heq, get_setitem_eq. split; [reflexivity|].
    split; [reflexivity|]. apply in_or_app. right. now left.
  - destruct Hin as [Hin|[->|[]]]; [|congruence].
    destruct (IH m f Hin) as (g & Hg & Hk & Hgin).
    exists g. rewrite get_setitem_ne by assumption.
    split; [assumption|]. split; [assumption|]. apply in_or_app. now left.
Qed.

End primary_facts.

(* ===================================================================== *)
(** * TileLocator: the fallback grid *)
(* ===================================================================== *)

Section fallback_facts.
Import Py LocatorSpec StitchBrushed.

(** The search over [1 .. k+1] ends on the largest divisor in that range. *)
Lemma search_upto n (k : nat) :
  exists d,
    fold_left (best_step n) (range 1 (Z.of_nat k + 2)) None = Some (d, n / d)
    /\ 1 <= d <= Z.of_nat k + 1 /\ n mod d = 0
    /\ forall r, 1 <= r <= Z.of_nat k + 1 -> n mod r = 0 -> r <= d.
Proof.
  induction k as [|k (d & Hfold & Hd & Hdiv & Hmax)].
  - exists 1. change (range 1 (Z.of_nat 0 + 2)) with [1].
    simpl fold_left. unfold best_step. rewrite Z.mod_1_r.
    change (0 =? 0) with true. cbv iota.
    repeat split; try lia.
  - replace (Z.of_nat (S k) + 2) with ((Z.of_nat k + 2) + 1) by lia.
    rewrite range_snoc by lia. rewrite fold_left_app, Hfold.
    simpl fold_left. unfold best_step at 1.
    destruct (n mod (Z.of_nat k + 2) =? 0) eqn:Hm.
    + apply Z.eqb_eq in Hm. exists (Z.of_nat k + 2).
      repeat split; lia.
    + apply Z.eqb_neq in Hm. exists d.
      repeat split; try lia; try assumption.
      intros r Hr Hrdiv.
      destruct (Z.eq_dec r (Z.of_nat k + 2)) as [->|Hne]; [contradiction|].
      apply Hmax; [lia|assumption].
Qed.

Lemma find_best_spec n :
  exists d,
    find_best n = Some (d, n / d)
    /\ 1 <= d <= Z.sqrt n + 1 /\ n mod d = 0
    /\ forall r, 1 <= r <= Z.sqrt n + 1 -> n mod r = 0 -> r <= d.
Proof.
  pose proof (Z.sqrt_nonneg n) as Hs.
  destruct (search_upto n (Z.to_nat (Z.sqrt n))) as (d & Hfold & H).
  rewrite Z2Nat.id in * by assumption.
  exists d. split; [exact Hfold|exact H].
Qed.

(** The inner loop never reaches its [break] while files remain. *)
Lemma fill_row_full files n cols r (k : nat) : forall c0 m idx,
  Z.of_nat k = cols - c0 -> 0 <= c0 -> 0 <= idx -> idx + (cols - c0) <= n ->
  (forall c, c0 <= c < cols -> ~ In (c, r) (PyDict.keys m)) ->
  fill_row files n r (range c0 cols) (m, idx) =
  (m ++ map (fun c => ((c, r), nth (Z.to_nat (idx + (c - c0))) files EmptyString))
            (range c0 cols),
   idx + (cols - c0)).
Proof.
  induction k as [|k IH]; intros c0 m idx Hk Hc0 Hidx Hn Hfresh.
  - rewrite range_nil by lia. simpl. rewrite app_nil_r. f_equal. lia.
  - rewrite range_cons by lia. simpl.
    replace (n <=? idx) with false by (symmetry; apply Z.leb_gt; lia).
    rewrite setitem_new by (apply Hfresh; lia).
    rewrite IH; try lia.
    + rewrite <- app_assoc. simpl. f_equal; [|lia].
      f_equal. f_equal; [do 2 f_equal; lia|].
      apply map_ext. intros c. do 3 f_equal. lia.
    + intros c Hc Hin. unfold PyDict.keys in Hin.
      rewrite map_app in Hin. apply in_app_or in Hin.
      destruct Hin as [Hin|[Heq|[]]].
      * apply (Hfresh c); [lia|assumption].
      * simpl in Heq. injection Heq as Heq. lia.
Qed.

Lemma In_grid_cells_keys files cols r0 rows c r :
  In (c, r) (PyDict.keys (grid_cells files cols r0 rows)) ->
  0 <= c < cols /\ r0 <= r < rows.
Proof.
  unfold PyDict.keys, grid_cells. rewrite in_map_iff.
  intros ([k f] & Hk & Hin). simpl in Hk. subst k.
  apply in_flat_map in Hin as (r' & Hr' & Hin).
  unfold grid_row in Hin. apply in_map_iff in Hin as (c' & Heq & Hc').
  injection Heq as -> -> _. apply In_range in Hr', Hc'. lia.
Qed.

(** The outer loop appends one full row per pass. *)
Lemma fill_rows_full files n cols (k : nat) : forall rows,
  Z.of_nat k = rows -> 0 <= cols -> rows * cols <= n ->
  fold_left (fun st r => fill_row files n r (range 0 cols) st)
            (range 0 rows) (PyDict.empty, 0)
  = (grid_cells files cols 0 rows, rows * cols).
Proof.
  induction k as [|k IH]; intros rows Hk Hcols Hn.
  - subst rows. reflexivity.
  - replace rows with ((rows - 1) + 1) at 1 by lia.
    rewrite range_snoc by lia. rewrite fold_left_app.
    rewrite (IH (rows - 1)) by nia. simpl.
    rewrite (fill_row_full files n cols (rows - 1) (Z.to_nat cols)); try lia; try nia.
    + f_equal; [|lia]. unfold grid_cells.
      replace rows with ((rows - 1) + 1) at 2 by lia.
      rewrite range_snoc by lia. rewrite flat_map_app. simpl.
      rewrite app_nil_r. f_equal. unfold grid_row.
      apply map_ext. intros c. do 3 f_equal. lia.
    + intros c Hc Hin. apply In_grid_cells_keys in Hin. lia.
Qed.

Lemma fill_row_NoDup files n r cs : forall m idx,
  NoDup (PyDict.keys m) ->
  NoDup (PyDict.keys (fst (fill_row files n r cs (m, idx)))).
Proof.
  induction cs as [|c cs IH]; intros m idx Hm; simpl; [assumption|].
  destruct (n <=? idx); [assumption|].
  apply IH, NoDup_keys_setitem, Hm.
Qed.

Lemma fill_rows_NoDup files n cols rs : forall st,
  NoDup (PyDict.keys (fst st)) ->
  NoDup (PyDict.keys (fst
    (fold_left (fun st r => fill_row files n r (range 0 cols) st) rs st))).
Proof.
  induction rs as [|r rs IH]; intros [m idx] Hm; simpl; [assumption|].
  apply IH. now apply fill_row_NoDup.
Qed.

Lemma NoDup_grid_cells files cols rows :
  0 <= cols -> 0 <= rows ->
  NoDup (PyDict.keys (grid_cells files cols 0 rows)).
Proof.
  intros Hc Hr.
  pose proof (fill_rows_NoDup files (rows * cols) cols (range 0 rows)
                (PyDict.empty, 0)) as H.
  rewrite (fill_rows_full files (rows * cols) cols (Z.to_nat rows)) in H
    by lia.
  apply H. simpl. constructor.
Qed.

Lemma length_grid_cells files cols (k : nat) : forall rows,
  Z.of_nat k = rows -> 0 <= cols ->
  Z.of_nat (length (grid_cells files cols 0 rows)) = rows * cols.
Proof.
  unfold grid_cells.
  induction k as [|k IH]; intros rows Hk Hcols.
  - subst rows. reflexivity.
  - replace rows with ((rows - 1) + 1) at 1 by lia.
    rewrite range_snoc by lia. rewrite flat_map_app, length_app.
    rewrite Nat2Z.inj_add, (IH (rows - 1)) by lia.
    simpl. rewrite app_nil_r. unfold grid_row.
    rewrite length_map, range_length. lia.
Qed.

Lemma In_grid_cells files cols rows c r :
  0 <= c < cols -> 0 <= r < rows ->
  In ((c, r), nth (Z.to_nat (r * cols + c)) files EmptyString)
     (grid_cells files cols 0 rows).
Proof.
  intros Hc Hr. unfold grid_cells. apply in_flat_map.
  exists r. split; [apply In_range; lia|].
  unfold grid_row. apply in_map_iff. exists c.
  split; [reflexivity|apply In_range; lia].
Qed.

Lemma get_grid_cells files cols rows c r :
  0 <= c < cols -> 0 <= r < rows ->
  PyDict.get (grid_cells files cols 0 rows) (c, r)
  = Some (nth (Z.to_nat (r * cols + c)) files EmptyString).
Proof.
  intros Hc Hr. apply get_Some_In.
  - apply NoDup_grid_cells; lia.
  - now apply In_grid_cells.
Qed.

(** [fallback_grid] never takes its default branch. *)
Lemma fallback_grid_eq files :
  let n := Z.of_nat (length files) in
  exists rows cols,
    find_best n = Some (rows, cols)
    /\ fallback_grid files
       = Ok (grid_cells files cols 0 rows, 0, 0, cols - 1, rows - 1)
    /\ 1 <= rows <= Z.sqrt n + 1 /\ rows * cols = n
    /\ (forall r, 1 <= r <= Z.sqrt n + 1 -> n mod r = 0 -> r <= rows).
Proof.
  intros n. destruct (find_best_spec n) as (d & Hbest & Hd & Hdiv & Hmax).
  exists d, (n / d).
  assert (Hmul : d * (n / d) = n).
  { pose proof (Z.div_mod n d ltac:(lia)). lia. }
  assert (Hcols : 0 <= n / d) by (apply Z.div_pos; lia).
  split; [assumption|]. split; [|repeat split; try lia; assumption].
  unfold fallback_grid. fold n. rewrite Hbest. cbn [bind].
  fold (best_step n).
  rewrite (fill_rows_full files n (n / d) (Z.to_nat d)) by lia.
  reflexivity.
Qed.

End fallback_facts.

Section most_square_facts.
Import Py LocatorSpec StitchBrushed.



End most_square_facts.

(* ===================================================================== *)
(** * TileLocator: the claims *)
(* ===================================================================== *)

Section locator_claims.
Import Py LocatorSpec StitchBrushed.


(** C10.  For a non-empty list of [n] files the divisor search of
    [fallback_grid] always finds a row count (1 divides [n]), so the
    ceiling-square default is never taken; the mapping returned gives the
    [n] files pairwise distinct positions that fill a [rows] x [cols] grid
    with [rows * cols = n], [min_x = min_y = 0], [max_x = cols - 1] and
    [max_y = rows - 1], and no position of the grid stays empty. *)
Theorem fallback_grid_fills_grid (files : list string) :
  files <> [] ->
  find_best (Z.of_nat (length files)) <> None /\
  exists rows cols mapping,
    fallback_grid files = Ok (mapping, 0, 0, cols - 1, rows - 1)
    /\ 1 <= rows /\ 1 <= cols /\ rows * cols = Z.of_nat (length files)
    /\ length mapping = length files
    /\ NoDup (PyDict.keys mapping)
    /\ (forall i, 0 <= i < Z.of_nat (length files) ->
          PyDict.get mapping (i mod cols, i / cols)
          = Some (nth (Z.to_nat i) files EmptyString))
    /\ (forall i j, 0 <= i < Z.of_nat (length files) ->
          0 <= j < Z.of_nat (length files) ->
          (i mod cols, i / cols) = (j mod cols, j / cols) -> i = j)
    /\ (forall c r, 0 <= c < cols -> 0 <= r < rows ->
          exists f, PyDict.get mapping (c, r) = Some f /\ In f files)
    /\ (forall c r, In (c, r) (PyDict.keys mapping) ->
          0 <= c < cols /\ 0 <= r < rows).
Proof.
  intros Hne.
  assert (Hn : 1 <= Z.of_nat (length files)).
  { destruct files; [congruence|simpl length; lia]. }
  destruct (fallback_grid_eq files)
    as (rows & cols & Hbest & Heq & Hrows & Hmul & _).
  split; [congruence|].
  assert (Hcols : 1 <= cols) by nia.
  exists rows, cols, (grid_cells files cols 0 rows).
  split; [exact Heq|]. split; [lia|]. split; [lia|]. split; [exact Hmul|].
  split.
  { pose proof (length_grid_cells files cols (Z.to_nat rows) rows
                  ltac:(lia) ltac:(lia)). lia. }
  split; [apply NoDup_grid_cells; lia|].
  split.
  { intros i Hi.
    pose proof (Z.div_mod i cols ltac:(lia)) as Hdm.
    pose proof (Z.mod_pos_bound i cols ltac:(lia)) as Hmod.
    assert (0 <= i / cols) by (apply Z.div_pos; lia).
    assert (i / cols < rows) by (apply Z.div_lt_upper_bound; lia).
    rewrite get_grid_cells by lia.
    do 3 f_equal. lia. }
  split.
  { intros i j Hi Hj [= Hm Hd].
    rewrite (Z.div_mod i cols), (Z.div_mod j cols) by lia. congruence. }
  split.
  { intros c r Hc Hr. eexists. split; [apply get_grid_cells; lia|].
    apply nth_In. nia. }
  intros c r Hin. apply In_grid_cells_keys in Hin. lia.
Qed.

Lemma fallback_grid_fills_grid_witness :
  find_best 3 <> None /\
  exists rows cols mapping,
    fallback_grid ["a.png"; "b.png"; "c.png"]
    = Ok (mapping, 0, 0, cols - 1, rows - 1)
    /\ rows * cols = 3.
Proof.
  destruct (fallback_grid_fills_grid ["a.png"; "b.png"; "c.png"]
              ltac:(discriminate))
    as (Hbest & rows & cols & mapping & Heq & _ & _ & Hmul & _).
  split; [exact Hbest|]. exists rows, cols, mapping. split; assumption.
Defined.





(** C6 as stated fails: a minus sign in front of a run of digits is read
    as the sign of the number. *)
Lemma locator_unsigned_runs_counterexample :
  parse_coords_from_name "tile-1-2_brushed.png" = Some (-1, -2)
  /\ claimed_coords "tile-1-2_brushed.png" = Some (1, 2)
  /\ parse_coords_from_name "tile-1-2_brushed.png"
     <> claimed_coords "tile-1-2_brushed.png".
Proof. repeat split. discriminate. Qed.

(** C6, amended.  Primary strategy: from the base name of each file every
    run of digits is extracted, together with a minus sign standing
    immediately before it, and read as a signed integer; when a file
    yields at least two runs the last two are (row, col) in that order;
    if any file of the set yields fewer than two runs of digits the
    strategy fails for the whole set; otherwise every file is found in the
    mapping at its position (or a later file with the same position is)
    and the extents are the least and greatest column and row.  The names
    [tile_0_0_brushed.png], [tile_0_1_brushed.png], [tile_1_0_brushed.png],
    [tile_1_1_brushed.png] map to (0,0), (0,1), (1,0), (1,1) with bounding
    box min_x = 0, min_y = 0, max_x = 1, max_y = 1. *)
Theorem locator_primary_strategy (files : list string) :
  (forall name,
     parse_coords_from_name name = signed_coords name
     /\ map snd (signed_runs (base_name name)) = digit_runs (base_name name))
  /\ ((exists f, In f files /\ (length (digit_runs (base_name f)) < 2)%nat) ->
      arrange_by_coords files = None)
  /\ (files <> [] ->
      (forall f, In f files -> (2 <= length (digit_runs (base_name f)))%nat) ->
      exists mapping min_x min_y max_x max_y,
        arrange_by_coords files = Some (mapping, min_x, min_y, max_x, max_y)
        /\ is_min min_x (map (fun f => fst (key_of f)) files)
        /\ is_min min_y (map (fun f => snd (key_of f)) files)
        /\ is_max max_x (map (fun f => fst (key_of f)) files)
        /\ is_max max_y (map (fun f => snd (key_of f)) files)
        /\ forall f row col, In f files -> signed_coords f = Some (row, col) ->
             exists g, PyDict.get mapping (col, row) = Some g
                       /\ signed_coords g = Some (row, col) /\ In g files)
  /\ map parse_coords_from_name
       ["tile_0_0_brushed.png"; "tile_0_1_brushed.png";
        "tile_1_0_brushed.png"; "tile_1_1_brushed.png"]
     = [Some (0, 0); Some (0, 1); Some (1, 0); Some (1, 1)]
  /\ arrange_by_coords
       ["tile_0_0_brushed.png"; "tile_0_1_brushed.png";
        "tile_1_0_brushed.png"; "tile_1_1_brushed.png"]
     = Some ([((0, 0), "tile_0_0_brushed.png"); ((1, 0), "tile_0_1_brushed.png");
              ((0, 1), "tile_1_0_brushed.png"); ((1, 1), "tile_1_1_brushed.png")],
             0, 0, 1, 1).
Proof.
  split.
  { intros name. split; [apply parse_coords_signed|apply signed_runs_digit_runs]. }
  split.
  { intros (f & Hin & Hlen). unfold arrange_by_coords.
    rewrite arrange_loop_None; [reflexivity|].
    exists f. split; [assumption|]. now apply parse_coords_None_iff. }
  split; [|split; reflexivity].
  intros Hne Hall.
  assert (Hparse : forall f, In f files -> parse_coords_from_name f <> None).
  { intros f Hin Hnone. apply parse_coords_None_iff in Hnone.
    specialize (Hall f Hin). lia. }
  unfold arrange_by_coords. rewrite arrange_loop_Some by assumption.
  rewrite !app_nil_r.
  destruct (fold_left set_file files PyDict.empty) as [|e m] eqn:Hm.
  { exfalso. destruct files as [|f files]; [congruence|].
    destruct (fold_set_file_get (f :: files) PyDict.empty f (or_introl eq_refl))
      as (g & Hg & _). rewrite Hm in Hg. discriminate. }
  rewrite <- Hm. clear e m Hm.
  assert (Hxs : rev (map (fun f => fst (key_of f)) files) <> []).
  { destruct files; [congruence|]. simpl. intros H.
    apply app_eq_nil in H as [_ H]. discriminate. }
  assert (Hys : rev (map (fun f => snd (key_of f)) files) <> []).
  { destruct files; [congruence|]. simpl. intros H.
    apply app_eq_nil in H as [_ H]. discriminate. }
  destruct (min_of_spec _ Hxs) as [Hminx Hminx'].
  destruct (max_of_spec _ Hxs) as [Hmaxx Hmaxx'].
  destruct (min_of_spec _ Hys) as [Hminy Hminy'].
  destruct (max_of_spec _ Hys) as [Hmaxy Hmaxy'].
  do 5 eexists. split; [reflexivity|].
  unfold is_min, is_max.
  repeat split;
    try (apply in_rev; assumption);
    try (intros y Hy; apply in_rev in Hy; auto).
  intros f row col Hin Hf.
  destruct (fold_set_file_get files PyDict.empty f Hin) as (g & Hg & Hk & Hgin).
  assert (Hkf : key_of f = (col, row)).
  { unfold key_of. now rewrite parse_coords_signed, Hf. }
  exists g. rewrite <- Hkf. split; [assumption|]. split; [|assumption].
  rewrite <- parse_coords_signed.
  specialize (Hparse g Hgin). rewrite Hkf in Hk. unfold key_of in Hk.
  destruct (parse_coords_from_name g) as [[r c]|]; [|congruence].
  congruence.
Qed.

Lemma locator_primary_strategy_witness :
  arrange_by_coords ["a.png"; "tile_0_1.png"] = None.
Proof.
  apply (locator_primary_strategy ["a.png"; "tile_0_1.png"]).
  exists "a.png". split; [now left|]. vm_compute. lia.
Defined.

End locator_claims.

(* ===================================================================== *)
(** * Facts about images *)
(* ===================================================================== *)

Section image_facts.
Import Py Pil.

Lemma in_bounds_true im x y :
  in_bounds im x y = true <->
  0 <= x < im_width im /\ 0 <= y < im_height im.
Proof. unfold in_bounds. rewrite !andb_true_iff. lia. Qed.

Lemma in_bounds_false im x y :
  in_bounds im x y = false <->
  ~ (0 <= x < im_width im /\ 0 <= y < im_height im).
Proof.
  rewrite <- in_bounds_true. destruct (in_bounds im x y); split; congruence.
Qed.

Lemma px_at_tabulate m w h f x y :
  0 <= x < w -> 0 <= y < h ->
  px_at (Image m w h (tabulate w h f)) x y = f x y.
Proof.
  intros Hx Hy. unfold px_at.
  replace (in_bounds _ x y) with true
    by (symmetry; apply in_bounds_true; simpl; lia).
  simpl. unfold tabulate. rewrite !nth_lookup.
  change (map ?g ?l) with (g <$> l).
  rewrite list_lookup_fmap, (range_lookup 0 h) by lia. simpl.
  change (map ?g ?l) with (g <$> l).
  rewrite list_lookup_fmap, (range_lookup 0 w) by lia. simpl.
  f_equal; lia.
Qed.

Lemma px_at_outside im x y :
  in_bounds im x y = false -> px_at im x y = zero_px (im_mode im).
Proof. intros H. unfold px_at. now rewrite H. Qed.

Lemma px_at_new m w h color x y :
  0 <= x < w -> 0 <= y < h ->
  px_at (new m (w, h) color) x y = convert_px m color.
Proof. intros Hx Hy. unfold new. now rewrite px_at_tabulate. Qed.

Lemma px_at_crop im x0 y0 x1 y1 x y :
  0 <= x < x1 - x0 -> 0 <= y < y1 - y0 ->
  px_at (crop im (x0, y0, x1, y1)) x y = px_at im (x + x0) (y + y0).
Proof. intros Hx Hy. unfold crop. now rewrite px_at_tabulate. Qed.

Lemma px_at_convert im m x y :
  in_bounds im x y = true ->
  px_at (convert im m) x y = convert_px m (px_at im x y).
Proof.
  intros H. apply in_bounds_true in H as [Hx Hy].
  unfold convert. now rewrite px_at_tabulate.
Qed.

Lemma px_at_paste dst src px py x y :
  in_bounds dst x y = true ->
  px_at (paste dst src (px, py)) x y =
  if in_bounds src (x - px) (y - py)
  then convert_px (im_mode dst) (px_at src (x - px) (y - py))
  else px_at dst x y.
Proof.
  intros H. apply in_bounds_true in H as [Hx Hy].
  unfold paste. now rewrite px_at_tabulate.
Qed.

Lemma size_paste dst src at_ : size (paste dst src at_) = size dst.
Proof. destruct at_. reflexivity. Qed.

Lemma mode_paste dst src at_ : im_mode (paste dst src at_) = im_mode dst.
Proof. destruct at_. reflexivity. Qed.


Lemma in_bounds_size im im' x y :
  size im = size im' -> in_bounds im x y = in_bounds im' x y.
Proof. unfold size, in_bounds. intros [= -> ->]. reflexivity. Qed.

Lemma convert_px_idem m p : convert_px m (convert_px m p) = convert_px m p.
Proof. destruct m, p; reflexivity. Qed.

Lemma canvas_mode_tuple fill_color :
  px_mode fill_color = RGB \/ px_mode fill_color = RGBA ->
  canvas_mode fill_color = px_mode fill_color.
Proof. destruct fill_color; simpl; intros [H|H]; congruence. Qed.

Lemma convert_px_same p : convert_px (px_mode p) p = p.
Proof. destruct p; reflexivity. Qed.

Lemma px_mode_convert m p : px_mode (convert_px m p) = m.
Proof. destruct m, p; reflexivity. Qed.

End image_facts.

(* ===================================================================== *)
(** * Tile names: written by the slicer, read back by the locator *)
(* ===================================================================== *)

Section name_facts.
Import Py OsPath Re StitchBrushed ImageSlicer.

Lemma digits_only_string_of_uint d :
  digits_only (NilEmpty.string_of_uint d) = true.
Proof. induction d; simpl; auto. Qed.

Lemma int_digits_string_of_uint d : forall acc : nat,
  int_digits (Z.of_nat acc) (NilEmpty.string_of_uint d)
  = Z.of_nat (Nat.of_uint_acc d acc).
Proof.
  induction d; intros acc;
    cbn [NilEmpty.string_of_uint int_digits Nat.of_uint_acc];
    [reflexivity| | | | | | | | | |];
    rewrite <- IHd, Nat.tail_mul_spec; f_equal; unfold digit_val;
    match goal with
    | |- context [nat_of_ascii ?c] =>
        let v := eval vm_compute in (nat_of_ascii c) in
        change (nat_of_ascii c) with v
    end; lia.
Qed.

Lemma to_lu_nonnil n : Unsigned.to_lu n <> Decimal.Nil.
Proof.
  destruct n as [|n]; simpl; [discriminate|].
  destruct (Unsigned.to_lu n); discriminate.
Qed.

Lemma str_nonempty n : exists c r, str n = String c r /\ is_digit c = true.
Proof.
  unfold str. pose proof (digits_only_string_of_uint (Nat.to_uint n)) as Hd.
  destruct (Nat.to_uint n) eqn:E;
    try (simpl in *; eexists _, _; split; [reflexivity|reflexivity]).
  exfalso. rewrite Unsigned.to_uint_alt in E.
  apply DecimalFacts.rev_nil_inv in E. now apply to_lu_nonnil in E.
Qed.

Lemma digits_only_str n : digits_only (str n) = true.
Proof. apply digits_only_string_of_uint. Qed.

Lemma int_digits_str n : int_digits 0 (str n) = Z.of_nat n.
Proof.
  unfold str. change 0 with (Z.of_nat 0).
  rewrite int_digits_string_of_uint.
  change (Nat.of_uint_acc ?d 0) with (Nat.of_uint d).
  now rewrite Unsigned.of_to.
Qed.

Lemma str_int_nonneg z : 0 <= z -> str_int z = str (Z.to_nat z).
Proof. destruct z; [reflexivity|reflexivity|lia]. Qed.

(** Strings without a given character. *)
Lemma contains_app sep (a b : string) :
  contains sep (a +:+ b) = contains sep a || contains sep b.
Proof.
  induction a as [|c a IH]; [reflexivity|].
  rewrite append_cons. simpl. rewrite IH. now rewrite orb_assoc.
Qed.

Lemma contains_digits sep (d : string) :
  is_digit sep = false -> digits_only d = true -> contains sep d = false.
Proof.
  intros Hsep. induction d as [|c d IH]; simpl; [reflexivity|].
  intros H. apply andb_prop in H as [Hc Hd]. rewrite IH by assumption.
  destruct (Ascii.eqb_spec c sep) as [->|]; [congruence|reflexivity].
Qed.

Lemma rsplit_None sep s : contains sep s = false -> rsplit sep s = None.
Proof.
  induction s as [|c s IH]; simpl; [reflexivity|].
  intros H. apply orb_false_elim in H as [Hc Hs].
  now rewrite IH, Hc.
Qed.

Lemma rsplit_last sep (a b : string) :
  contains sep b = false -> rsplit sep (a +:+ String sep b) = Some (a, b).
Proof.
  intros Hb. induction a as [|c a IH].
  - simpl. rewrite rsplit_None by assumption. now rewrite Ascii.eqb_refl.
  - rewrite append_cons. simpl. now rewrite IH.
Qed.

Lemma ends_with_slash_inv a :
  ends_with_slash a = true -> exists a', a = a' +:+ String "/"%char EmptyString.
Proof.
  induction a as [|c a IH]; simpl; [discriminate|].
  destruct a as [|c' a].
  - intros H. apply Ascii.eqb_eq in H as ->. now exists EmptyString.
  - intros H. destruct (IH H) as (a' & ->). now exists (String c a').
Qed.

(** The base name of a joined path is the file name. *)
Lemma basename_join dir fn c r :
  fn = String c r -> c <> "/"%char -> contains "/"%char fn = false ->
  basename (join dir fn) = fn.
Proof.
  intros Hfn Hc Hno. unfold join. rewrite Hfn.
  assert (Hm : forall (A : Type) (x y : A),
             match c with "/"%char => x | _ => y end = y).
  { intros A x y.
    destruct c as [[|] [|] [|] [|] [|] [|] [|] [|]]; try reflexivity.
    congruence. }
  rewrite Hm. rewrite <- Hfn.
  destruct dir as [|d dir].
  - unfold basename. now rewrite rsplit_None.
  - destruct (ends_with_slash (String d dir)) eqn:He.
    + destruct (ends_with_slash_inv _ He) as (a' & ->).
      rewrite append_assoc. rewrite append_cons, append_nil_l.
      unfold basename. now rewrite rsplit_last.
    + unfold basename. now rewrite rsplit_last.
Qed.

(** The scanner on a run of digits followed by something else. *)
Lemma findall_go_digits (d : string) : forall t s,
  digits_only d = true ->
  findall_go (InNum t) (d +:+ s) = findall_go (InNum (t +:+ d)) s.
Proof.
  induction d as [|c d IH]; intros t s Hd.
  - rewrite append_nil_l. f_equal. f_equal.
    clear. induction t as [|a t IH]; [reflexivity|].
    now rewrite append_cons, <- IH.
  - simpl in Hd. apply andb_prop in Hd as [Hc Hd].
    rewrite append_cons. simpl. rewrite Hc. simpl.
    rewrite IH by assumption. now rewrite append_snoc.
Qed.

Lemma findall_int_digits (c : ascii) (d : string) s :
  is_digit c = true -> digits_only d = true ->
  findall_int (String c d +:+ s) = findall_go (InNum (String c d)) s.
Proof.
  intros Hc Hd. unfold findall_int. rewrite append_cons. simpl.
  rewrite Hc. simpl. now rewrite findall_go_digits.
Qed.

Lemma append_nil_r (s : string) : s +:+ EmptyString = s.
Proof.
  induction s as [|a s IH]; [reflexivity|]. now rewrite append_cons, IH.
Qed.

(** The locator reads back the coordinates the slicer wrote. *)
Lemma parse_tile_path output_dir row col :
  0 <= row -> 0 <= col ->
  parse_coords_from_name (tile_path output_dir row col) = Some (row, col).
Proof.
  intros Hrow Hcol. unfold tile_path, chunk_filename.
  rewrite !str_int_nonneg by assumption.
  destruct (str_nonempty (Z.to_nat row)) as (c1 & r1 & E1 & Hc1).
  destruct (str_nonempty (Z.to_nat col)) as (c2 & r2 & E2 & Hc2).
  pose proof (digits_only_str (Z.to_nat row)) as D1.
  pose proof (digits_only_str (Z.to_nat col)) as D2.
  pose proof (int_digits_str (Z.to_nat row)) as I1.
  pose proof (int_digits_str (Z.to_nat col)) as I2.
  set (R := str (Z.to_nat row)) in *. set (C := str (Z.to_nat col)) in *.
  set (stem := R +:+ String "_"%char C).
  assert (Hfn : R +:+ "_" +:+ C +:+ ".png" = stem +:+ String "."%char "png").
  { unfold stem. now rewrite append_assoc. }
  rewrite Hfn. clear Hfn.
  assert (Hstem : stem = String c1 (r1 +:+ String "_"%char C)).
  { unfold stem. now rewrite E1. }
  assert (Hstem_slash : contains "/"%char stem = false).
  { unfold stem. rewrite contains_app. simpl.
    rewrite (contains_digits _ R), (contains_digits _ C)
      by (assumption || reflexivity).
    reflexivity. }
  assert (Hstem_dot : contains "."%char stem = false).
  { unfold stem. rewrite contains_app. simpl.
    rewrite (contains_digits _ R), (contains_digits _ C)
      by (assumption || reflexivity).
    reflexivity. }
  unfold parse_coords_from_name.
  assert (Hbase : basename (join output_dir (stem +:+ String "."%char "png"))
                  = stem +:+ String "."%char "png").
  { eapply (basename_join _ _ c1).
    - rewrite Hstem at 1. rewrite append_cons. reflexivity.
    - intros ->. discriminate.
    - rewrite contains_app, Hstem_slash. reflexivity. }
  rewrite Hbase.
  assert (Hext : splitext (stem +:+ String "."%char "png") = (stem, ".png")).
  { unfold splitext. rewrite rsplit_last by reflexivity.
    change (contains "/"%char "png") with false. cbv iota.
    unfold basename. rewrite rsplit_None by assumption.
    rewrite Hstem at 1. simpl.
    destruct (Ascii.eqb_spec c1 "."%char) as [->|]; [discriminate|].
    reflexivity. }
  rewrite Hext. simpl fst.
  assert (Hnums : findall_int stem = [R; C]).
  { unfold stem. rewrite E1 at 1.
    rewrite E1 in D1. simpl in D1. apply andb_prop in D1 as [_ D1].
    rewrite findall_int_digits by assumption.
    simpl. rewrite <- E1. f_equal.
    rewrite E2. simpl. rewrite Hc2. simpl.
    rewrite E2 in D2. simpl in D2. apply andb_prop in D2 as [_ D2].
    rewrite <- (append_nil_r r2) at 1.
    rewrite findall_go_digits by assumption. reflexivity. }
  rewrite Hnums. simpl.
  assert (HR : int R = row).
  { unfold int. rewrite E1.
    assert (Hm : forall (A : Type) (x y : A),
               match c1 with "-"%char => x | _ => y end = y).
    { intros A x y.
      destruct c1 as [[|] [|] [|] [|] [|] [|] [|] [|]]; try reflexivity.
      discriminate. }
    rewrite Hm, <- E1, I1. lia. }
  assert (HC : int C = col).
  { unfold int. rewrite E2.
    assert (Hm : forall (A : Type) (x y : A),
               match c2 with "-"%char => x | _ => y end = y).
    { intros A x y.
      destruct c2 as [[|] [|] [|] [|] [|] [|] [|] [|]]; try reflexivity.
      discriminate. }
    rewrite Hm, <- E2, I2. lia. }
  now rewrite HR, HC.
Qed.

Lemma key_of_tile_path output_dir row col :
  0 <= row -> 0 <= col -> key_of (tile_path output_dir row col) = (col, row).
Proof. intros. unfold key_of. now rewrite parse_tile_path. Qed.

Lemma tile_path_inj output_dir row col row' col' :
  0 <= row -> 0 <= col -> 0 <= row' -> 0 <= col' ->
  tile_path output_dir row col = tile_path output_dir row' col' ->
  row = row' /\ col = col'.
Proof.
  intros Hr Hc Hr' Hc' Heq.
  pose proof (parse_tile_path output_dir row col Hr Hc) as H1.
  pose proof (parse_tile_path output_dir row' col' Hr' Hc') as H2.
  rewrite Heq, H2 in H1. injection H1 as -> ->. tauto.
Qed.

End name_facts.

(* ===================================================================== *)
(** * Tiler *)
(* ===================================================================== *)

Section slicer_facts.
Import Py Pil ImageSlicer.

Lemma ceil_div_spec a c :
  0 < c -> (ceil_div a c - 1) * c < a <= ceil_div a c * c.
Proof.
  intros Hc. unfold ceil_div.
  pose proof (Z.div_mod (- a) c ltac:(lia)).
  pose proof (Z.mod_pos_bound (- a) c Hc). nia.
Qed.

Lemma ceil_div_nonneg a c : 0 < c -> 0 <= a -> 0 <= ceil_div a c.
Proof. intros Hc Ha. pose proof (ceil_div_spec a c Hc). nia. Qed.

Lemma ceil_div_pos a c : 0 < c -> 0 < a -> 0 < ceil_div a c.
Proof. intros Hc Ha. pose proof (ceil_div_spec a c Hc). nia. Qed.

Lemma saved_app t1 t2 : saved (t1 ++ t2) = saved t1 ++ saved t2.
Proof.
  induction t1 as [|[l|p im] t1 IH]; simpl; [reflexivity|assumption|].
  now rewrite IH.
Qed.

Lemma printed_app t1 t2 : printed (t1 ++ t2) = printed t1 ++ printed t2.
Proof.
  induction t1 as [|[l|p im] t1 IH]; simpl; [reflexivity| |assumption].
  now rewrite IH.
Qed.

Lemma fold_left_nested {S A B : Type} (f : A -> B -> S -> S)
    (bs : list B) (l : list A) : forall st,
  fold_left (fun st a => fold_left (fun st b => f a b st) bs st) l st
  = fold_left (fun st ab => f (fst ab) (snd ab) st)
              (flat_map (fun a => map (fun b => (a, b)) bs) l) st.
Proof.
  induction l as [|a l IH]; intros st; simpl; [reflexivity|].
  rewrite fold_left_app, <- IH. f_equal.
  clear. revert st. induction bs as [|b bs IH]; intros st; simpl; auto.
Qed.

(** One pass of the loop body writes one tile. *)
Lemma slice_chunk_effect img output_dir chunk_size rows cols row col w cnt :
  let st := slice_chunk img output_dir chunk_size
              (im_width img) (im_height img) rows cols row col (w, cnt) in
  fs (fst st)
  = write_file (fs w) (tile_entry img output_dir chunk_size (row, col))
  /\ saved (trace (fst st))
     = saved (trace w) ++ [tile_entry img output_dir chunk_size (row, col)]
  /\ snd st = cnt + 1.
Proof.
  unfold slice_chunk, tile_entry, write_file, chunk_of, tile_path. simpl.
  destruct ((cnt + 1) mod 10 =? 0); simpl;
    rewrite ?saved_app; simpl; rewrite ?app_nil_r; auto.
Qed.

Lemma slice_loop_effect img output_dir chunk_size rows cols l : forall w cnt,
  let st := fold_left
              (fun st rc =>
                 slice_chunk img output_dir chunk_size
                   (im_width img) (im_height img) rows cols
                   (fst rc) (snd rc) st) l (w, cnt) in
  fs (fst st)
  = fold_left write_file (map (tile_entry img output_dir chunk_size) l) (fs w)
  /\ saved (trace (fst st))
     = saved (trace w) ++ map (tile_entry img output_dir chunk_size) l
  /\ snd st = cnt + Z.of_nat (length l).
Proof.
  induction l as [|[r c] l IH]; intros w cnt.
  - simpl. rewrite app_nil_r. repeat split; lia.
  - cbn zeta. cbn [fold_left map length fst snd].
    pose proof (slice_chunk_effect img output_dir chunk_size rows cols r c w cnt)
      as (Hfs & Hsaved & Hcnt).
    destruct (slice_chunk img output_dir chunk_size (im_width img)
                (im_height img) rows cols r c (w, cnt)) as [w1 cnt1].
    cbn [fst snd] in Hfs, Hsaved, Hcnt.
    destruct (IH w1 cnt1) as (IHfs & IHsaved & IHcnt).
    rewrite IHfs, IHsaved, IHcnt, Hfs, Hsaved, Hcnt.
    rewrite <- app_assoc. simpl. repeat split. lia.
Qed.

(** What a successful run of [slice_image] leaves behind. *)
Lemma slice_image_effect w input_path output_dir chunk_size img :
  open w input_path = Ok img -> chunk_size <> 0 ->
  exists w',
    slice_image w input_path output_dir chunk_size = Ok w'
    /\ fs w'
       = fold_left write_file
           (map (tile_entry img output_dir chunk_size)
                (cells (ceil_div (im_height img) chunk_size)
                       (ceil_div (im_width img) chunk_size)))
           (fs w)
    /\ saved (trace w')
       = saved (trace w)
         ++ map (tile_entry img output_dir chunk_size)
                (cells (ceil_div (im_height img) chunk_size)
                       (ceil_div (im_width img) chunk_size)).
Proof.
  intros Hopen Hc. unfold slice_image.
  assert (Hopen' : open (print w ("Opening image: " +:+ input_path)) input_path
                   = Ok img) by exact Hopen.
  rewrite Hopen'. unfold size.
  replace (chunk_size =? 0) with false by (symmetry; now apply Z.eqb_neq).
  rewrite fold_left_nested.
  match goal with
  | |- context [fold_left _ _ (?w0, 0)] =>
      pose proof (slice_loop_effect img output_dir chunk_size
                    (ceil_div (im_height img) chunk_size)
                    (ceil_div (im_width img) chunk_size)
                    (cells (ceil_div (im_height img) chunk_size)
                           (ceil_div (im_width img) chunk_size)) w0 0)
        as (Hfs & Hsaved & _)
  end.
  unfold cells in *.
  match goal with
  | |- context [fold_left ?f ?l ?s] => destruct (fold_left f l s) as [w1 cnt1]
  end.
  simpl in Hfs, Hsaved. eexists. split; [reflexivity|].
  simpl. rewrite saved_app. simpl. rewrite app_nil_r.
  rewrite Hfs, Hsaved. rewrite !saved_app. simpl. rewrite !app_nil_r.
  split; reflexivity.
Qed.

Lemma In_cells rows cols r c :
  In (r, c) (cells rows cols) <-> 0 <= r < rows /\ 0 <= c < cols.
Proof.
  unfold cells. rewrite in_flat_map. split.
  - intros (r' & Hr & Hin). apply in_map_iff in Hin as (c' & [= -> ->] & Hc).
    apply In_range in Hr, Hc. lia.
  - intros [Hr Hc]. exists r. split; [apply In_range; lia|].
    apply in_map_iff. exists c. split; [reflexivity|apply In_range; lia].
Qed.

Lemma length_rows {A : Type} (f : Z -> Z -> A) cols (k : nat) : forall rows,
  Z.of_nat k = rows -> 0 <= cols ->
  Z.of_nat (length
    (flat_map (fun r => map (f r) (range 0 cols)) (range 0 rows)))
  = rows * cols.
Proof.
  induction k as [|k IH]; intros rows Hk Hcols.
  - subst rows. reflexivity.
  - replace rows with ((rows - 1) + 1) at 1 by lia.
    rewrite range_snoc by lia. rewrite flat_map_app, length_app.
    rewrite Nat2Z.inj_add, (IH (rows - 1)) by lia.
    simpl. rewrite app_nil_r, length_map, range_length. lia.
Qed.

Lemma lookup_rows {A : Type} (f : Z -> Z -> A) cols (k : nat) : forall rows i,
  Z.of_nat k = rows -> 0 < cols -> 0 <= i < rows * cols ->
  flat_map (fun r => map (f r) (range 0 cols)) (range 0 rows) !! Z.to_nat i
  = Some (f (i / cols) (i mod cols)).
Proof.
  induction k as [|k IH]; intros rows i Hk Hcols Hi; [nia|].
  replace rows with ((rows - 1) + 1) by lia.
  rewrite range_snoc by lia. rewrite flat_map_app. simpl.
  rewrite app_nil_r.
  pose proof (length_rows f cols k (rows - 1) ltac:(lia) ltac:(lia)) as Hlen.
  destruct (Z_lt_ge_dec i ((rows - 1) * cols)) as [Hlt|Hge].
  - rewrite lookup_app_l by lia. apply (IH (rows - 1)); lia.
  - rewrite lookup_app_r by lia.
    assert (Hq : i / cols = rows - 1).
    { symmetry. apply (Z.div_unique i cols (rows - 1) (i - cols * (rows - 1))); lia. }
    assert (Hr : i mod cols = i - cols * (rows - 1)).
    { symmetry. apply (Z.mod_unique i cols (rows - 1) (i - cols * (rows - 1))); lia. }
    change (map ?g ?l) with (g <$> l) in *.
    rewrite list_lookup_fmap.
    match goal with
    | |- context [range 0 cols !! ?j] =>
        replace j with (Z.to_nat (i mod cols)) by lia
    end.
    rewrite range_lookup by lia. simpl. rewrite Hq. do 2 f_equal. lia.
Qed.

Lemma length_cells rows cols :
  0 <= rows -> 0 <= cols -> Z.of_nat (length (cells rows cols)) = rows * cols.
Proof.
  intros Hr Hc. apply (length_rows _ cols (Z.to_nat rows)); lia.
Qed.

Lemma lookup_cells rows cols row col :
  0 <= row < rows -> 0 <= col < cols ->
  cells rows cols !! Z.to_nat (row * cols + col) = Some (row, col).
Proof.
  intros Hr Hc. unfold cells.
  rewrite (lookup_rows _ cols (Z.to_nat rows) rows) by (lia || nia).
  do 2 f_equal.
  - symmetry. apply (Z.div_unique _ cols row col); lia.
  - symmetry. apply (Z.mod_unique _ cols row col); lia.
Qed.

Lemma fs_after_writes img output_dir chunk_size l : forall m r c,
  (forall rc, In rc l -> 0 <= fst rc /\ 0 <= snd rc) ->
  In (r, c) l ->
  fold_left write_file (map (tile_entry img output_dir chunk_size) l) m
  !! tile_path output_dir r c
  = Some (Decodable (chunk_of img chunk_size r c)).
Proof.
  induction l as [|[r0 c0] l IH] using rev_ind; intros m r c Hpos Hin;
    [destruct Hin|].
  rewrite map_app, fold_left_app. simpl. unfold write_file at 1.
  unfold tile_entry at 1 2. simpl.
  assert (Hpos0 : 0 <= r0 /\ 0 <= c0).
  { apply (Hpos (r0, c0)), in_or_app. right. now left. }
  assert (Hposl : forall rc, In rc l -> 0 <= fst rc /\ 0 <= snd rc).
  { intros rc Hrc. apply Hpos, in_or_app. now left. }
  destruct (decide (tile_path output_dir r0 c0 = tile_path output_dir r c))
    as [Heq|Hne].
  - assert (Hrc : 0 <= r /\ 0 <= c) by (apply (Hpos (r, c)), Hin).
    apply tile_path_inj in Heq as [-> ->]; try lia.
    apply lookup_insert_eq.
  - rewrite lookup_insert_ne by assumption.
    apply in_app_or in Hin as [Hin|[[= -> ->]|[]]]; [|congruence].
    now apply IH.
Qed.

(** Pixels of a tile: the crop at the origin, transparent padding around
    it; a full tile is the crop itself. *)
Lemma chunk_of_geometry img C row col :
  0 < C -> 0 <= row -> 0 <= col ->
  col * C < im_width img -> row * C < im_height img ->
  let cw := Z.min (col * C + C) (im_width img) - col * C in
  let ch := Z.min (row * C + C) (im_height img) - row * C in
  size (chunk_of img C row col) = (C, C)
  /\ (forall x y, 0 <= x < C -> 0 <= y < C ->
        convert_px RGBA (px_at (chunk_of img C row col) x y)
        = if (x <? cw) && (y <? ch)
          then convert_px RGBA (px_at img (col * C + x) (row * C + y))
          else Px4 0 0 0 0)
  /\ ((cw, ch) <> (C, C) ->
      im_mode (chunk_of img C row col) = RGBA
      /\ forall x y, 0 <= x < C -> 0 <= y < C ->
           px_at (chunk_of img C row col) x y
           = if (x <? cw) && (y <? ch)
             then convert_px RGBA (px_at img (col * C + x) (row * C + y))
             else Px4 0 0 0 0).
Proof.
  intros HC Hrow Hcol Hw Hh cw ch. unfold chunk_of.
  set (box := (col * C, row * C, Z.min (col * C + C) (im_width img),
               Z.min (row * C + C) (im_height img))).
  assert (Hsz : size (crop img box) = (cw, ch)) by reflexivity.
  assert (Hcw : 0 < cw <= C) by (unfold cw; lia).
  assert (Hch : 0 < ch <= C) by (unfold ch; lia).
  assert (Hpad : forall x y, 0 <= x < C -> 0 <= y < C ->
            px_at (paste (new RGBA (C, C) (Px4 0 0 0 0)) (crop img box) (0, 0))
                  x y
            = if (x <? cw) && (y <? ch)
              then convert_px RGBA (px_at img (col * C + x) (row * C + y))
              else Px4 0 0 0 0).
  { intros x y Hx Hy.
    rewrite px_at_paste by (apply in_bounds_true; simpl; lia).
    rewrite !Z.sub_0_r.
    destruct (in_bounds (crop img box) x y) eqn:Hin.
    - apply in_bounds_true in Hin. simpl in Hin. fold cw ch in Hin.
      replace (x <? cw) with true by (symmetry; apply Z.ltb_lt; lia).
      replace (y <? ch) with true by (symmetry; apply Z.ltb_lt; lia).
      simpl andb. cbv iota. unfold box.
      rewrite px_at_crop by (fold cw ch; lia).
      do 2 f_equal; lia.
    - apply in_bounds_false in Hin. simpl in Hin. fold cw ch in Hin.
      rewrite px_at_new by lia. simpl.
      destruct (x <? cw) eqn:Hxc; [|reflexivity].
      destruct (y <? ch) eqn:Hyc; [|reflexivity].
      apply Z.ltb_lt in Hxc, Hyc. lia. }
  destruct (decide (size (crop img box) <> (C, C))) as [Hne|Heq].
  - split; [reflexivity|]. split.
    + intros x y Hx Hy. rewrite Hpad by assumption.
      destruct ((x <? cw) && (y <? ch)); [apply convert_px_idem|reflexivity].
    + intros _. split; [reflexivity|exact Hpad].
  - assert (Heq' : (cw, ch) = (C, C)).
    { rewrite <- Hsz. destruct (decide (size (crop img box) = (C, C)));
        [assumption|contradiction]. }
    injection Heq' as Hcw' Hch'.
    split; [rewrite Hsz; congruence|]. split.
    + intros x y Hx Hy.
      replace (x <? cw) with true by (symmetry; apply Z.ltb_lt; lia).
      replace (y <? ch) with true by (symmetry; apply Z.ltb_lt; lia).
      simpl andb. cbv iota. unfold box.
      rewrite px_at_crop by (fold cw ch; lia).
      do 2 f_equal; lia.
    + intros Hne. congruence.
Qed.

End slicer_facts.

Section slicer_claims.
Import Py Pil ImageSlicer.

(** C2.  For a source image of width [W] and height [H] and a positive
    chunk size [C] the Tiler writes exactly [ceil(W/C) * ceil(H/C)] tiles
    in row-major order; the tile of grid position [(row, col)] is the crop
    of the source from [(col*C, row*C)] to
    [(min((col+1)*C, W), min((row+1)*C, H))]; when that crop is smaller
    than [C] x [C] the tile is a [C] x [C] fully transparent canvas with
    the crop pasted at the origin, pixel for pixel. *)
Theorem slicer_tiles_row_major (w : world) (input_path output_dir : string)
    (C : Z) (img : image) :
  open w input_path = Ok img -> 0 < C ->
  0 <= im_width img -> 0 <= im_height img ->
  exists w' tiles,
    slice_image w input_path output_dir C = Ok w'
    /\ saved (trace w') = saved (trace w) ++ tiles
    /\ Z.of_nat (length tiles)
       = ceil_div (im_width img) C * ceil_div (im_height img) C
    /\ forall row col,
         0 <= row < ceil_div (im_height img) C ->
         0 <= col < ceil_div (im_width img) C ->
         exists tile,
           tiles !! Z.to_nat (row * ceil_div (im_width img) C + col)
           = Some (OsPath.join output_dir (chunk_filename row col), tile)
           /\ fs w' !! OsPath.join output_dir (chunk_filename row col)
              = Some (Decodable tile)
           /\ forall cropped,
                cropped = crop img (col * C, row * C,
                                    Z.min ((col + 1) * C) (im_width img),
                                    Z.min ((row + 1) * C) (im_height img)) ->
                (size cropped = (C, C) -> tile = cropped)
                /\ (size cropped <> (C, C) ->
                    tile = paste (new RGBA (C, C) transparent) cropped (0, 0)
                    /\ size tile = (C, C) /\ im_mode tile = RGBA
                    /\ forall x y, 0 <= x < C -> 0 <= y < C ->
                         px_at tile x y
                         = if (x <? im_width cropped) && (y <? im_height cropped)
                           then convert_px RGBA
                                  (px_at img (col * C + x) (row * C + y))
                           else transparent).
Proof.
  intros Hopen HC HW HH.
  destruct (slice_image_effect w input_path output_dir C img Hopen ltac:(lia))
    as (w' & Hrun & Hfs & Hsaved).
  set (cols := ceil_div (im_width img) C) in *.
  set (rows := ceil_div (im_height img) C) in *.
  assert (Hcols : 0 <= cols) by (apply ceil_div_nonneg; lia).
  assert (Hrows : 0 <= rows) by (apply ceil_div_nonneg; lia).
  exists w', (map (tile_entry img output_dir C) (cells rows cols)).
  split; [exact Hrun|]. split; [exact Hsaved|]. split.
  { rewrite length_map, length_cells by assumption. lia. }
  intros row col Hrow Hcol.
  exists (chunk_of img C row col).
  split.
  { change (map ?g ?l) with (g <$> l).
    rewrite list_lookup_fmap, lookup_cells by assumption. reflexivity. }
  split.
  { rewrite Hfs. apply fs_after_writes.
    - intros [r c] Hin. apply In_cells in Hin. simpl. lia.
    - apply In_cells. lia. }
  intros cropped ->.
  replace ((col + 1) * C) with (col * C + C) by lia.
  replace ((row + 1) * C) with (row * C + C) by lia.
  pose proof (ceil_div_spec (im_width img) C HC) as Hcw.
  pose proof (ceil_div_spec (im_height img) C HC) as Hch.
  fold cols in Hcw. fold rows in Hch.
  assert (Hw : col * C < im_width img) by nia.
  assert (Hh : row * C < im_height img) by nia.
  destruct (chunk_of_geometry img C row col HC ltac:(lia) ltac:(lia) Hw Hh)
    as (Hsize & _ & Hedge).
  split.
  - intros Hfull. unfold chunk_of.
    destruct (decide _) as [Hne|_]; [contradiction|reflexivity].
  - intros Hne. split.
    + unfold chunk_of. destruct (decide _) as [_|Heq]; [reflexivity|].
      contradiction.
    + split; [exact Hsize|]. apply Hedge. exact Hne.
Qed.

Lemma slicer_tiles_row_major_witness :
  exists w' tiles,
    slice_image demo_world "in.bmp" "out" 2 = Ok w'
    /\ saved (trace w') = tiles
    /\ Z.of_nat (length tiles) = 2 * 1.
Proof.
  destruct (slicer_tiles_row_major demo_world "in.bmp" "out" 2 demo_source
              eq_refl ltac:(lia) ltac:(simpl; lia) ltac:(simpl; lia))
    as (w' & tiles & Hrun & Hsaved & Hlen & _).
  exists w', tiles. split; [exact Hrun|]. split; [exact Hsaved|exact Hlen].
Defined.




End slicer_claims.

(* ===================================================================== *)
(** * Stitcher *)
(* ===================================================================== *)

Section stitch_facts.
Import Py Pil StitchBrushed.

Lemma size_paste_one mode min_x min_y tw th m canvas item :
  size (paste_one mode min_x min_y tw th m canvas item) = size canvas.
Proof.
  unfold paste_one. destruct (m !! snd item) as [[tile|]|]; reflexivity.
Qed.

Lemma mode_paste_one mode min_x min_y tw th m canvas item :
  im_mode (paste_one mode min_x min_y tw th m canvas item) = im_mode canvas.
Proof.
  unfold paste_one. destruct (m !! snd item) as [[tile|]|]; reflexivity.
Qed.

Lemma size_paste_all mode min_x min_y tw th m items : forall canvas,
  size (paste_all mode min_x min_y tw th m items canvas) = size canvas.
Proof.
  induction items as [|item items IH]; intros canvas; simpl; [reflexivity|].
  unfold paste_all in *. simpl. now rewrite IH, size_paste_one.
Qed.

Lemma mode_paste_all mode min_x min_y tw th m items : forall canvas,
  im_mode (paste_all mode min_x min_y tw th m items canvas) = im_mode canvas.
Proof.
  induction items as [|item items IH]; intros canvas; simpl; [reflexivity|].
  unfold paste_all in *. simpl. now rewrite IH, mode_paste_one.
Qed.

(** The loop only reads the file system; it prints one warning per tile
    that fails to open. *)
Lemma fold_paste_tile mode min_x min_y tw th items : forall w canvas,
  fold_left (paste_tile mode min_x min_y tw th) items (w, canvas)
  = (World (fs w) (trace w ++ warnings (fs w) items),
     paste_all mode min_x min_y tw th (fs w) items canvas).
Proof.
  induction items as [|[[x y] path] items IH]; intros w canvas.
  - simpl. rewrite app_nil_r. now destruct w.
  - cbn [fold_left]. unfold paste_tile at 2. unfold open.
    unfold paste_all, warnings. cbn [fold_left flat_map].
    unfold paste_one at 2. cbn [fst snd].
    destruct (fs w !! path) as [[tile|]|] eqn:E.
    + rewrite IH. reflexivity.
    + rewrite IH. simpl. now rewrite <- app_assoc.
    + rewrite IH. simpl. now rewrite <- app_assoc.
Qed.

(** The position a canvas pixel belongs to, when all tiles have the
    per-tile size. *)
Lemma box_iff tw th min_x min_y c r x y :
  0 < tw -> 0 < th -> 0 <= x -> 0 <= y ->
  (0 <= x - (c - min_x) * tw < tw /\ 0 <= y - (r - min_y) * th < th)
  <-> (c, r) = (min_x + x / tw, min_y + y / th).
Proof.
  intros Htw Hth Hx Hy. split.
  - intros [Hbx Hby]. f_equal.
    + rewrite <- (Z.div_unique x tw (c - min_x) (x - (c - min_x) * tw)); lia.
    + rewrite <- (Z.div_unique y th (r - min_y) (y - (r - min_y) * th)); lia.
  - intros [= -> ->].
    pose proof (Z.div_mod x tw ltac:(lia)).
    pose proof (Z.mod_pos_bound x tw Htw).
    pose proof (Z.div_mod y th ltac:(lia)).
    pose proof (Z.mod_pos_bound y th Hth).
    split; nia.
Qed.

Lemma px_at_paste_all m min_x min_y tw th items : forall canvas x y,
  0 < tw -> 0 < th ->
  NoDup (PyDict.keys items) -> uniform_tiles m items tw th ->
  in_bounds canvas x y = true ->
  px_at (paste_all (im_mode canvas) min_x min_y tw th m items canvas) x y
  = match PyDict.get items (min_x + x / tw, min_y + y / th) with
    | Some path =>
        match m !! path with
        | Some (Decodable tile) =>
            convert_px (im_mode canvas) (px_at tile (x mod tw) (y mod th))
        | _ => px_at canvas x y
        end
    | None => px_at canvas x y
    end.
Proof.
  induction items as [|[[c r] path] items IH];
    intros canvas x y Htw Hth Hnd Huni Hin; [reflexivity|].
  pose proof Hin as Hxy. apply in_bounds_true in Hxy as [Hx Hy].
  unfold paste_all. cbn [fold_left].
  set (canvas' := paste_one (im_mode canvas) min_x min_y tw th m canvas
                    (c, r, path)).
  assert (Hmode : im_mode canvas' = im_mode canvas)
    by apply mode_paste_one.
  assert (Hin' : in_bounds canvas' x y = true).
  { rewrite (in_bounds_size canvas' canvas); [assumption|].
    apply size_paste_one. }
  cbn [PyDict.keys map fst] in Hnd.
  apply NoDup_cons in Hnd as [Hfresh Hnd'].
  assert (Huni' : uniform_tiles m items tw th).
  { intros k p t Hk. apply (Huni k p t). now right. }
  pose proof (IH canvas' x y Htw Hth Hnd' Huni' Hin') as HIH.
  rewrite Hmode in HIH. unfold paste_all in HIH. rewrite HIH. clear HIH.
  simpl PyDict.get.
  destruct (decide ((c, r) = (min_x + x / tw, min_y + y / th))) as [Hk|Hk].
  - (* the pixel lies in the box of this item *)
    assert (Hnone : PyDict.get items (min_x + x / tw, min_y + y / th) = None).
    { apply get_None_keys. rewrite <- Hk. intros Hc.
      apply Hfresh, list_elem_of_In, Hc. }
    rewrite Hnone. unfold canvas', paste_one. cbn [fst snd].
    destruct (m !! path) as [[tile|]|] eqn:E; try reflexivity.
    assert (Hsz : size tile = (tw, th)).
    { apply (Huni (c, r) path tile); [now left|assumption]. }
    injection Hsz as Hw Hh.
    apply (box_iff tw th min_x min_y c r x y Htw Hth) in Hk as [Hbx Hby];
      try lia.
    rewrite px_at_paste by assumption.
    assert (Hinb : in_bounds (convert tile (im_mode canvas))
                     (x - (c - min_x) * tw) (y - (r - min_y) * th) = true).
    { apply in_bounds_true. simpl. lia. }
    rewrite Hinb.
    rewrite px_at_convert by (apply in_bounds_true; lia).
    rewrite convert_px_idem. do 2 f_equal.
    + apply (Z.mod_unique x tw (c - min_x)); lia.
    + apply (Z.mod_unique y th (r - min_y)); lia.
  - (* the pixel lies outside the box of this item *)
    assert (Hsame : px_at canvas' x y = px_at canvas x y).
    { unfold canvas', paste_one. cbn [fst snd].
      destruct (m !! path) as [[tile|]|] eqn:E; try reflexivity.
      assert (Hsz : size tile = (tw, th)).
      { apply (Huni (c, r) path tile); [now left|assumption]. }
      injection Hsz as Hw Hh.
      rewrite px_at_paste by assumption.
      destruct (in_bounds (convert tile (im_mode canvas)) _ _) eqn:Hinb;
        [|reflexivity].
      exfalso. apply Hk. apply in_bounds_true in Hinb. simpl in Hinb.
      apply (box_iff tw th min_x min_y c r x y); lia. }
    rewrite Hsame. reflexivity.
Qed.

(** [compose] with a known per-tile size. *)
Lemma compose_eq w mapping min_x min_y max_x max_y fill_color tile_size tw th :
  (tile_size = Some tw /\ th = tw)
  \/ (tile_size = None /\
      exists first rest im,
        PyDict.values mapping = first :: rest
        /\ open w first = Ok im /\ size im = (tw, th)) ->
  0 <= (max_x - min_x + 1) * tw -> 0 <= (max_y - min_y + 1) * th ->
  compose w mapping min_x min_y max_x max_y fill_color tile_size
  = Ok (World (fs w) (trace w ++ warnings (fs w) mapping),
        paste_all (canvas_mode fill_color) min_x min_y tw th (fs w) mapping
          (new (canvas_mode fill_color)
               ((max_x - min_x + 1) * tw, (max_y - min_y + 1) * th)
               fill_color)).
Proof.
  intros Hsize Hw Hh. unfold compose.
  assert (Hdims :
    match tile_size with
    | Some t => Ok (t, t)
    | None =>
        match PyDict.values mapping with
        | [] => Raise StopIteration
        | first_tile_path :: _ =>
            bind (open w first_tile_path) (fun im => Ok (size im))
        end
    end = Ok (tw, th)).
  { destruct Hsize as [[-> ->]|(-> & first & rest & im & -> & -> & <-)];
      reflexivity. }
  rewrite Hdims. cbn [bind].
  replace ((max_x - min_x + 1) * tw <? 0) with false
    by (symmetry; apply Z.ltb_ge; lia).
  replace ((max_y - min_y + 1) * th <? 0) with false
    by (symmetry; apply Z.ltb_ge; lia).
  cbn [orb]. unfold PyDict.items.
  change (match fill_color with Px4 _ _ _ _ => RGBA | _ => RGB end)
    with (canvas_mode fill_color).
  rewrite fold_paste_tile. reflexivity.
Qed.

(** Pixels of the composited canvas when all tiles have the per-tile
    size: the tile of the position the pixel belongs to, or the background
    where that tile is missing or fails to open. *)
Lemma px_at_stitched m mapping min_x min_y max_x max_y mode fill_color
    tw th x y :
  0 < tw -> 0 < th ->
  NoDup (PyDict.keys mapping) -> uniform_tiles m mapping tw th ->
  0 <= x < (max_x - min_x + 1) * tw -> 0 <= y < (max_y - min_y + 1) * th ->
  px_at (paste_all mode min_x min_y tw th m mapping
           (new mode ((max_x - min_x + 1) * tw, (max_y - min_y + 1) * th)
                fill_color)) x y
  = match PyDict.get mapping (min_x + x / tw, min_y + y / th) with
    | Some path =>
        match m !! path with
        | Some (Decodable tile) =>
            convert_px mode (px_at tile (x mod tw) (y mod th))
        | _ => convert_px mode fill_color
        end
    | None => convert_px mode fill_color
    end.
Proof.
  intros Htw Hth Hnd Huni Hx Hy.
  set (bg := new mode ((max_x - min_x + 1) * tw, (max_y - min_y + 1) * th)
               fill_color).
  assert (Hbgmode : im_mode bg = mode) by reflexivity.
  rewrite <- Hbgmode at 1.
  rewrite px_at_paste_all
    by (try assumption; apply in_bounds_true; simpl; lia).
  assert (Hbg : px_at bg x y = convert_px mode fill_color).
  { unfold bg. now rewrite px_at_new by lia. }
  rewrite Hbg, Hbgmode. reflexivity.
Qed.

End stitch_facts.

Section stitch_claims.
Import Py Pil StitchBrushed.

(** With an explicit tile size [stitch] never raises: tiles that fail to
    open only add a warning. *)
Lemma stitch_explicit_size_total w mapping min_x min_y max_x max_y out_path
    fill_color t :
  0 <= (max_x - min_x + 1) * t -> 0 <= (max_y - min_y + 1) * t ->
  exists w' saved_image,
    stitch w mapping min_x min_y max_x max_y out_path fill_color (Some t)
    = Ok w'
    /\ fs w' = <[out_path := Decodable saved_image]> (fs w)
    /\ printed (trace w')
       = printed (trace w) ++ printed (warnings (fs w) mapping)
         ++ ["Saved stitched image to: " +:+ out_path].
Proof.
  intros Hw Hh. unfold stitch.
  rewrite (compose_eq w mapping min_x min_y max_x max_y fill_color (Some t) t t)
    by (auto || lia).
  cbn [bind]. eexists _, _. split; [reflexivity|]. split; [reflexivity|].
  simpl. rewrite !printed_app. simpl.
  rewrite app_nil_r, <- app_assoc. reflexivity.
Qed.

(** C8.  Given a layout with extents [(min_x, min_y, max_x, max_y)] and a
    per-tile size [(tile_w, tile_h)], explicit or read from the first tile
    when unspecified, the Stitcher allocates a canvas of exactly
    [(max_x - min_x + 1) * tile_w] by [(max_y - min_y + 1) * tile_h] pixels
    filled with the background colour (fully transparent by default) and
    pastes every tile [(col, row)] at pixel offset
    [((col - min_x) * tile_w, (row - min_y) * tile_h)].  Two opaque red
    4 x 4 tiles in a 1 x 2 layout over black give an 8 x 4 canvas that is
    red everywhere. *)
Theorem stitch_canvas_layout (w : world) (mapping : PyDict.dict (Z * Z) string)
    (min_x min_y max_x max_y : Z) (fill_color : pixel) (tile_size : option Z)
    (tile_w tile_h : Z) :
  (tile_size = Some tile_w /\ tile_h = tile_w)
  \/ (tile_size = None /\
      exists first rest im,
        PyDict.values mapping = first :: rest
        /\ open w first = Ok im /\ size im = (tile_w, tile_h)) ->
  0 <= (max_x - min_x + 1) * tile_w -> 0 <= (max_y - min_y + 1) * tile_h ->
  px_mode fill_color = RGB \/ px_mode fill_color = RGBA ->
  (exists w' canvas,
     compose w mapping min_x min_y max_x max_y fill_color tile_size
     = Ok (w', canvas)
     /\ size canvas
        = ((max_x - min_x + 1) * tile_w, (max_y - min_y + 1) * tile_h)
     /\ im_mode canvas = px_mode fill_color
     /\ canvas
        = fold_left
            (fun acc item =>
               match fs w !! snd item with
               | Some (Decodable tile) =>
                   paste acc (convert tile (px_mode fill_color))
                     ((fst (fst item) - min_x) * tile_w,
                      (snd (fst item) - min_y) * tile_h)
               | _ => acc
               end)
            (PyDict.items mapping)
            (new (px_mode fill_color)
                 ((max_x - min_x + 1) * tile_w, (max_y - min_y + 1) * tile_h)
                 fill_color)
     /\ (0 < tile_w -> 0 < tile_h ->
         NoDup (PyDict.keys mapping) ->
         uniform_tiles (fs w) mapping tile_w tile_h ->
         (forall col row path tile i j,
            In ((col, row), path) (PyDict.items mapping) ->
            fs w !! path = Some (Decodable tile) ->
            min_x <= col <= max_x -> min_y <= row <= max_y ->
            0 <= i < tile_w -> 0 <= j < tile_h ->
            px_at canvas ((col - min_x) * tile_w + i) ((row - min_y) * tile_h + j)
            = convert_px (px_mode fill_color) (px_at tile i j))
         /\ (forall x y,
               in_bounds canvas x y = true ->
               (forall path tile,
                  PyDict.get mapping (min_x + x / tile_w, min_y + y / tile_h)
                  = Some path ->
                  fs w !! path <> Some (Decodable tile)) ->
               px_at canvas x y = fill_color)))
  /\ px_mode default_fill_color = RGBA /\ default_fill_color = transparent
  /\ (exists w',
        compose red_world red_layout 0 0 1 0 (Px3 0 0 0) (Some 4)
        = Ok (w', new RGB (8, 4) (Px3 255 0 0)))
  /\ (exists w',
        compose red_world red_layout 0 0 1 0 (Px3 0 0 0) None
        = Ok (w', new RGB (8, 4) (Px3 255 0 0))).
Proof.
  intros Hsize Hw Hh Hfill.
  split; [|split; [reflexivity|split; [reflexivity|split; eexists; vm_compute; reflexivity]]].
  rewrite (compose_eq w mapping min_x min_y max_x max_y fill_color tile_size
             tile_w tile_h Hsize Hw Hh).
  rewrite (canvas_mode_tuple fill_color Hfill).
  eexists _, _. split; [reflexivity|].
  set (bg := new (px_mode fill_color)
               ((max_x - min_x + 1) * tile_w, (max_y - min_y + 1) * tile_h)
               fill_color).
  assert (Hbgmode : im_mode bg = px_mode fill_color) by reflexivity.
  split; [now rewrite size_paste_all|].
  split; [now rewrite mode_paste_all|].
  split; [reflexivity|].
  intros Htw Hth Hnd Huni.
  assert (Hpx : forall x y,
            0 <= x < (max_x - min_x + 1) * tile_w ->
            0 <= y < (max_y - min_y + 1) * tile_h ->
            px_at (paste_all (px_mode fill_color) min_x min_y tile_w tile_h
                     (fs w) mapping bg) x y
            = match PyDict.get mapping (min_x + x / tile_w, min_y + y / tile_h) with
              | Some path =>
                  match fs w !! path with
                  | Some (Decodable tile) =>
                      convert_px (px_mode fill_color)
                        (px_at tile (x mod tile_w) (y mod tile_h))
                  | _ => fill_color
                  end
              | None => fill_color
              end).
  { intros x y Hx Hy. unfold bg. rewrite px_at_stitched by assumption.
    now rewrite convert_px_same. }
  split.
  - intros col row path tile i j Hin Hfile Hcol Hrow Hi Hj.
    rewrite Hpx by nia.
    replace (((col - min_x) * tile_w + i) / tile_w) with (col - min_x)
      by (apply (Z.div_unique _ tile_w (col - min_x) i); lia).
    replace (((row - min_y) * tile_h + j) / tile_h) with (row - min_y)
      by (apply (Z.div_unique _ tile_h (row - min_y) j); lia).
    replace (min_x + (col - min_x)) with col by lia.
    replace (min_y + (row - min_y)) with row by lia.
    assert (Hget : PyDict.get mapping (col, row) = Some path)
      by (now apply get_Some_In).
    rewrite Hget, Hfile.
    do 2 f_equal.
    + symmetry. apply (Z.mod_unique _ tile_w (col - min_x) i); lia.
    + symmetry. apply (Z.mod_unique _ tile_h (row - min_y) j); lia.
  - intros x y Hin Hnone.
    assert (Hxy : in_bounds bg x y = true).
    { rewrite <- Hin. apply in_bounds_size. symmetry. apply size_paste_all. }
    apply in_bounds_true in Hxy. simpl in Hxy.
    rewrite Hpx by lia.
    destruct (PyDict.get mapping _) as [path|] eqn:Hget; [|reflexivity].
    destruct (fs w !! path) as [[tile|]|] eqn:Hfile; try reflexivity.
    exfalso. exact (Hnone path tile eq_refl Hfile).
Qed.

Lemma stitch_canvas_layout_witness :
  exists w' canvas,
    compose red_world red_layout 0 0 1 0 default_fill_color (Some 4)
    = Ok (w', canvas)
    /\ size canvas = ((1 - 0 + 1) * 4, (0 - 0 + 1) * 4).
Proof.
  destruct (stitch_canvas_layout red_world red_layout 0 0 1 0
              default_fill_color (Some 4) 4 4
              (or_introl (conj eq_refl eq_refl)) ltac:(lia) ltac:(lia)
              (or_intror eq_refl))
    as [(w' & canvas & Hrun & Hsize & _) _].
  exists w', canvas. split; assumption.
Defined.

(** C9.  The claim that a tile which fails to decode never aborts the
    stitch does not hold for the code: with the tile size left
    unspecified the first tile is opened outside the [try] block, and when
    that tile is the corrupt one [stitch] raises instead of producing the
    composite.  With an explicit tile size the same layout is stitched and
    the corrupt tile only yields a warning. *)
Theorem stitch_aborts_on_corrupt_first_tile :
  stitch broken_world red_layout 0 0 1 0 "out.png"
         default_fill_color default_tile_size
  = Raise (OSError "t_0_0.png")
  /\ exists w',
       stitch broken_world red_layout 0 0 1 0 "out.png"
              default_fill_color (Some 4) = Ok w'
       /\ printed (trace w')
          = ["Warning: failed to open/paste t_0_0.png";
             "Saved stitched image to: out.png"].
Proof.
  split; [reflexivity|]. eexists. split; reflexivity.
Qed.

End stitch_claims.

(* ===================================================================== *)
(** * Slicing, then stitching *)
(* ===================================================================== *)

Section roundtrip_facts.
Import Py Pil ImageSlicer StitchBrushed.

Lemma NoDup_cells rows cols : 0 <= rows -> 0 < cols -> NoDup (cells rows cols).
Proof.
  intros Hrows Hcols. apply NoDup_alt. intros i j rc Hi Hj.
  pose proof (length_cells rows cols Hrows ltac:(lia)) as Hlen.
  apply lookup_lt_Some in Hi as Hi', Hj as Hj'.
  unfold cells in Hi, Hj.
  rewrite <- (Nat2Z.id i) in Hi. rewrite <- (Nat2Z.id j) in Hj.
  rewrite (lookup_rows _ cols (Z.to_nat rows) rows) in Hi by lia.
  rewrite (lookup_rows _ cols (Z.to_nat rows) rows) in Hj by lia.
  rewrite <- Hj in Hi. injection Hi as Hd Hm.
  pose proof (Z.div_mod (Z.of_nat i) cols ltac:(lia)).
  pose proof (Z.div_mod (Z.of_nat j) cols ltac:(lia)).
  assert (Z.of_nat i = Z.of_nat j) by congruence. lia.
Qed.

Lemma In_tile_paths output_dir rows cols f :
  In f (tile_paths output_dir rows cols) <->
  exists r c, 0 <= r < rows /\ 0 <= c < cols /\ f = tile_path output_dir r c.
Proof.
  unfold tile_paths. rewrite in_map_iff. split.
  - intros ([r c] & <- & Hin). apply In_cells in Hin. exists r, c. tauto.
  - intros (r & c & Hr & Hc & ->). exists (r, c). split; [reflexivity|].
    apply In_cells. tauto.
Qed.

Lemma keys_tile_paths output_dir rows cols :
  map key_of (tile_paths output_dir rows cols)
  = map (fun rc => (snd rc, fst rc)) (cells rows cols).
Proof.
  unfold tile_paths. rewrite map_map. apply map_ext_in.
  intros [r c] Hin. apply In_cells in Hin. simpl.
  apply key_of_tile_path; lia.
Qed.

Lemma NoDup_keys_tile_paths output_dir rows cols :
  0 <= rows -> 0 < cols ->
  NoDup (map key_of (tile_paths output_dir rows cols)).
Proof.
  intros Hrows Hcols. rewrite keys_tile_paths.
  apply NoDup_fmap_2; [|now apply NoDup_cells].
  intros [r c] [r' c'] [= -> ->]. reflexivity.
Qed.

(** The locator finds every tile of a slicing at its true position,
    whatever the order of the file list. *)
Lemma arrange_tile_paths output_dir rows cols files :
  1 <= rows -> 1 <= cols ->
  Permutation files (tile_paths output_dir rows cols) ->
  arrange_by_coords files = Some (keyed files, 0, 0, cols - 1, rows - 1)
  /\ NoDup (PyDict.keys (keyed files)).
Proof.
  intros Hrows Hcols Hperm.
  assert (Hin : forall f, In f files <->
            exists r c, 0 <= r < rows /\ 0 <= c < cols
                        /\ f = tile_path output_dir r c).
  { intros f. rewrite <- In_tile_paths. split; apply Permutation_in;
      [assumption|now symmetry]. }
  assert (Hnd : NoDup (map key_of files)).
  { rewrite (Permutation_map key_of Hperm).
    apply NoDup_keys_tile_paths; lia. }
  assert (Hkeys : PyDict.keys (keyed files) = map key_of files).
  { unfold PyDict.keys, keyed. rewrite map_map. reflexivity. }
  split; [|now rewrite Hkeys].
  assert (Hparse : forall f, In f files -> parse_coords_from_name f <> None).
  { intros f Hf. apply Hin in Hf as (r & c & Hr & Hc & ->).
    rewrite parse_tile_path by lia. discriminate. }
  unfold arrange_by_coords. rewrite arrange_loop_Some by assumption.
  rewrite fold_set_file_fresh by exact Hnd. simpl app at 1.
  fold (keyed files). rewrite !app_nil_r.
  assert (H00 : In (tile_path output_dir 0 0) files)
    by (apply Hin; exists 0, 0; repeat split; lia).
  assert (Hne : keyed files <> []).
  { destruct files; [destruct H00|discriminate]. }
  assert (Hmatch : forall (B : Type) (x y : B),
            match keyed files with [] => x | _ :: _ => y end = y).
  { intros B x y. destruct (keyed files); [congruence|reflexivity]. }
  rewrite Hmatch. clear Hmatch.
  assert (Hxs : forall x, In x (rev (map (fun f => fst (key_of f)) files)) <->
                          exists f, In f files /\ x = fst (key_of f)).
  { intros x. rewrite <- in_rev, in_map_iff. split;
      intros (f & H1 & H2); exists f; auto. }
  assert (Hys : forall y, In y (rev (map (fun f => snd (key_of f)) files)) <->
                          exists f, In f files /\ y = snd (key_of f)).
  { intros y. rewrite <- in_rev, in_map_iff. split;
      intros (f & H1 & H2); exists f; auto. }
  assert (Hxs0 : rev (map (fun f => fst (key_of f)) files) <> []).
  { intros E. assert (H : In 0 (rev (map (fun f => fst (key_of f)) files))).
    { apply Hxs. exists (tile_path output_dir 0 0). split; [assumption|].
      now rewrite key_of_tile_path by lia. }
    rewrite E in H. destruct H. }
  assert (Hys0 : rev (map (fun f => snd (key_of f)) files) <> []).
  { intros E. assert (H : In 0 (rev (map (fun f => snd (key_of f)) files))).
    { apply Hys. exists (tile_path output_dir 0 0). split; [assumption|].
      now rewrite key_of_tile_path by lia. }
    rewrite E in H. destruct H. }
  assert (Hbx : forall x, In x (rev (map (fun f => fst (key_of f)) files)) ->
                          0 <= x <= cols - 1).
  { intros x Hx. apply Hxs in Hx as (f & Hf & ->).
    apply Hin in Hf as (r & c & Hr & Hc & ->).
    rewrite key_of_tile_path by lia. simpl. lia. }
  assert (Hby : forall y, In y (rev (map (fun f => snd (key_of f)) files)) ->
                          0 <= y <= rows - 1).
  { intros y Hy. apply Hys in Hy as (f & Hf & ->).
    apply Hin in Hf as (r & c & Hr & Hc & ->).
    rewrite key_of_tile_path by lia. simpl. lia. }
  assert (Hcorner : forall r c, 0 <= r < rows -> 0 <= c < cols ->
            In c (rev (map (fun f => fst (key_of f)) files))
            /\ In r (rev (map (fun f => snd (key_of f)) files))).
  { intros r c Hr Hc. split; [apply Hxs|apply Hys];
      exists (tile_path output_dir r c);
      (split; [apply Hin; exists r, c; auto
              |now rewrite key_of_tile_path by lia]). }
  destruct (min_of_spec _ Hxs0) as [Hminx Hminx'].
  destruct (max_of_spec _ Hxs0) as [Hmaxx Hmaxx'].
  destruct (min_of_spec _ Hys0) as [Hminy Hminy'].
  destruct (max_of_spec _ Hys0) as [Hmaxy Hmaxy'].
  apply Hbx in Hminx, Hmaxx. apply Hby in Hminy, Hmaxy.
  destruct (Hcorner 0 0 ltac:(lia) ltac:(lia)) as [Hc0 Hr0].
  destruct (Hcorner (rows - 1) (cols - 1) ltac:(lia) ltac:(lia)) as [Hc1 Hr1].
  apply Hminx' in Hc0. apply Hmaxx' in Hc1.
  apply Hminy' in Hr0. apply Hmaxy' in Hr1.
  repeat f_equal; lia.
Qed.

Lemma well_formed_px_mode img x y :
  well_formed img = true -> in_bounds img x y = true ->
  px_mode (px_at img x y) = im_mode img.
Proof.
  intros Hwf Hin. unfold px_at. rewrite Hin.
  apply in_bounds_true in Hin as [Hx Hy].
  unfold well_formed in Hwf.
  apply andb_prop in Hwf as [Hwf Hrows].
  apply andb_prop in Hwf as [_ Hlen]. apply Z.eqb_eq in Hlen.
  rewrite forallb_forall in Hrows.
  assert (Hrow : In (nth (Z.to_nat y) (im_data img) []) (im_data img))
    by (apply nth_In; lia).
  apply Hrows in Hrow. apply andb_prop in Hrow as [Hw Hpx].
  apply Z.eqb_eq in Hw. rewrite forallb_forall in Hpx.
  assert (Hp : In (nth (Z.to_nat x) (nth (Z.to_nat y) (im_data img) [])
                       (zero_px (im_mode img)))
                  (nth (Z.to_nat y) (im_data img) []))
    by (apply nth_In; lia).
  apply Hpx in Hp. now apply bool_decide_eq_true in Hp.
Qed.

(** Pixels of the canvas stitched from the tiles of a slicing. *)
Lemma px_at_restitched img output_dir C m files fill_color x y :
  0 < C -> 0 < im_width img -> 0 < im_height img ->
  px_mode fill_color = RGBA ->
  (forall r c, 0 <= r < ceil_div (im_height img) C ->
               0 <= c < ceil_div (im_width img) C ->
               m !! tile_path output_dir r c
               = Some (Decodable (chunk_of img C r c))) ->
  Permutation files
    (tile_paths output_dir (ceil_div (im_height img) C)
                (ceil_div (im_width img) C)) ->
  0 <= x < ceil_div (im_width img) C * C ->
  0 <= y < ceil_div (im_height img) C * C ->
  px_at (paste_all (canvas_mode fill_color) 0 0 C C m (keyed files)
           (new (canvas_mode fill_color)
                ((ceil_div (im_width img) C - 1 - 0 + 1) * C,
                 (ceil_div (im_height img) C - 1 - 0 + 1) * C)
                fill_color)) x y
  = if (x <? im_width img) && (y <? im_height img)
    then convert_px RGBA (px_at img x y)
    else transparent.
Proof.
  intros HC HW HH Hfill Hfs Hperm Hx Hy.
  set (cols := ceil_div (im_width img) C) in *.
  set (rows := ceil_div (im_height img) C) in *.
  pose proof (ceil_div_spec (im_width img) C HC) as Hcw. fold cols in Hcw.
  pose proof (ceil_div_spec (im_height img) C HC) as Hch. fold rows in Hch.
  assert (Hcols : 1 <= cols) by nia.
  assert (Hrows : 1 <= rows) by nia.
  destruct (arrange_tile_paths output_dir rows cols files Hrows Hcols Hperm)
    as [_ Hnd].
  assert (Hin : forall f, In f files <->
            exists r c, 0 <= r < rows /\ 0 <= c < cols
                        /\ f = tile_path output_dir r c).
  { intros f. rewrite <- In_tile_paths. split; apply Permutation_in;
      [assumption|now symmetry]. }
  assert (Huni : uniform_tiles m (keyed files) C C).
  { intros k path tile Hk Hfile. unfold keyed in Hk.
    apply in_map_iff in Hk as (f & [= <- <-] & Hf).
    apply Hin in Hf as (r & c & Hr & Hc & ->).
    rewrite Hfs in Hfile by assumption. injection Hfile as <-.
    apply chunk_of_geometry; nia. }
  rewrite px_at_stitched by (try assumption; lia).
  rewrite !Z.add_0_l.
  pose proof (Z.div_mod x C ltac:(lia)) as Hdx.
  pose proof (Z.mod_pos_bound x C HC) as Hmx.
  pose proof (Z.div_mod y C ltac:(lia)) as Hdy.
  pose proof (Z.mod_pos_bound y C HC) as Hmy.
  set (c := x / C) in *. set (r := y / C) in *.
  assert (Hc : 0 <= c < cols) by nia.
  assert (Hr : 0 <= r < rows) by nia.
  assert (Hget : PyDict.get (keyed files) (c, r)
                 = Some (tile_path output_dir r c)).
  { apply get_Some_In; [assumption|]. unfold PyDict.items, keyed.
    apply in_map_iff. exists (tile_path output_dir r c).
    split; [now rewrite key_of_tile_path by lia|].
    apply Hin. exists r, c. auto. }
  rewrite Hget, Hfs by assumption.
  rewrite (canvas_mode_tuple fill_color (or_intror Hfill)), Hfill.
  destruct (chunk_of_geometry img C r c HC ltac:(lia) ltac:(lia)
              ltac:(nia) ltac:(nia)) as (_ & Hpx & _).
  rewrite Hpx by assumption.
  replace (c * C + x mod C) with x by lia.
  replace (r * C + y mod C) with y by lia.
  replace (x mod C <? Z.min (c * C + C) (im_width img) - c * C)
    with (x <? im_width img)
    by (destruct (Z.ltb_spec x (im_width img));
        symmetry; [apply Z.ltb_lt|apply Z.ltb_ge]; lia).
  replace (y mod C <? Z.min (r * C + C) (im_height img) - r * C)
    with (y <? im_height img)
    by (destruct (Z.ltb_spec y (im_height img));
        symmetry; [apply Z.ltb_lt|apply Z.ltb_ge]; lia).
  reflexivity.
Qed.

(** C1.  For a source image of width [W] and height [H] and a positive
    chunk size [C], slicing the image and stitching the tiles written,
    located by the (row, col) their file names carry, gives a canvas of
    [ceil(W/C) * C] by [ceil(H/C) * C] pixels whose top-left [W] x [H]
    region is the source, pixel for pixel, and which is fully transparent
    outside that region. *)
Theorem slice_then_stitch_roundtrip (w : world)
    (input_path output_dir : string) (C : Z) (img : image)
    (files : list string) (fill_color : pixel) (tile_size : option Z) :
  open w input_path = Ok img -> 0 < C ->
  0 < im_width img -> 0 < im_height img ->
  px_mode fill_color = RGBA ->
  tile_size = Some C \/ tile_size = None ->
  exists w1 tiles,
    slice_image w input_path output_dir C = Ok w1
    /\ saved (trace w1) = saved (trace w) ++ tiles
    /\ (Permutation files (map fst tiles) ->
        exists mapping w2 canvas,
          arrange_by_coords files
          = Some (mapping, 0, 0, ceil_div (im_width img) C - 1,
                  ceil_div (im_height img) C - 1)
          /\ compose w1 mapping 0 0 (ceil_div (im_width img) C - 1)
                     (ceil_div (im_height img) C - 1) fill_color tile_size
             = Ok (w2, canvas)
          /\ size canvas
             = (ceil_div (im_width img) C * C, ceil_div (im_height img) C * C)
          /\ im_mode canvas = RGBA
          /\ (forall x y,
                0 <= x < ceil_div (im_width img) C * C ->
                0 <= y < ceil_div (im_height img) C * C ->
                px_at canvas x y
                = if (x <? im_width img) && (y <? im_height img)
                  then convert_px RGBA (px_at img x y)
                  else transparent)
          /\ (well_formed img = true -> im_mode img = RGBA ->
              forall x y, 0 <= x < im_width img -> 0 <= y < im_height img ->
                px_at canvas x y = px_at img x y)).
Proof.
  intros Hopen HC HW HH Hfill Hts.
  destruct (slice_image_effect w input_path output_dir C img Hopen ltac:(lia))
    as (w1 & Hrun & Hfs & Hsaved).
  set (cols := ceil_div (im_width img) C) in *.
  set (rows := ceil_div (im_height img) C) in *.
  pose proof (ceil_div_spec (im_width img) C HC) as Hcw. fold cols in Hcw.
  pose proof (ceil_div_spec (im_height img) C HC) as Hch. fold rows in Hch.
  assert (Hcols : 1 <= cols) by nia.
  assert (Hrows : 1 <= rows) by nia.
  exists w1, (map (tile_entry img output_dir C) (cells rows cols)).
  split; [exact Hrun|]. split; [exact Hsaved|].
  intros Hperm.
  assert (Hperm' : Permutation files (tile_paths output_dir rows cols)).
  { unfold tile_paths. rewrite map_map in Hperm. exact Hperm. }
  destruct (arrange_tile_paths output_dir rows cols files Hrows Hcols Hperm')
    as [Harr Hnd].
  assert (Hin : forall f, In f files <->
            exists r c, 0 <= r < rows /\ 0 <= c < cols
                        /\ f = tile_path output_dir r c).
  { intros f. rewrite <- In_tile_paths. split; apply Permutation_in;
      [assumption|now symmetry]. }
  assert (Hfile : forall r c, 0 <= r < rows -> 0 <= c < cols ->
            fs w1 !! tile_path output_dir r c
            = Some (Decodable (chunk_of img C r c))).
  { intros r c Hr Hc. rewrite Hfs. apply fs_after_writes.
    - intros [r' c'] Hrc. apply In_cells in Hrc. simpl. lia.
    - apply In_cells. lia. }
  assert (Hdims : (tile_size = Some C /\ C = C)
            \/ (tile_size = None /\
                exists first rest im,
                  PyDict.values (keyed files) = first :: rest
                  /\ open w1 first = Ok im /\ size im = (C, C))).
  { destruct Hts as [->| ->]; [left; auto|right]. split; [reflexivity|].
    destruct files as [|f0 files'] eqn:Ef.
    { apply Permutation_nil in Hperm'.
      assert (H0 : In (tile_path output_dir 0 0) (tile_paths output_dir rows cols)).
      { apply In_tile_paths. exists 0, 0. repeat split; lia. }
      rewrite Hperm' in H0. destruct H0. }
    destruct (proj1 (Hin f0) (or_introl eq_refl)) as (r & c & Hr & Hc & Hf0).
    exists f0, (PyDict.values (keyed files')), (chunk_of img C r c).
    split; [reflexivity|]. split.
    - unfold open. rewrite Hf0, Hfile by assumption. reflexivity.
    - apply chunk_of_geometry; nia. }
  exists (keyed files).
  rewrite (compose_eq w1 (keyed files) 0 0 (cols - 1) (rows - 1) fill_color
             tile_size C C Hdims ltac:(nia) ltac:(nia)).
  eexists _, _. split; [exact Harr|]. split; [reflexivity|].
  split.
  { rewrite size_paste_all.
    change (size (new ?m (?a, ?b) ?c)) with (a, b). f_equal; lia. }
  split.
  { rewrite mode_paste_all.
    change (im_mode (new ?m _ _)) with m.
    now rewrite (canvas_mode_tuple fill_color (or_intror Hfill)). }
  assert (Hpx : forall x y,
            0 <= x < cols * C -> 0 <= y < rows * C ->
            px_at (paste_all (canvas_mode fill_color) 0 0 C C (fs w1)
                     (keyed files)
                     (new (canvas_mode fill_color)
                          ((cols - 1 - 0 + 1) * C, (rows - 1 - 0 + 1) * C)
                          fill_color)) x y
            = if (x <? im_width img) && (y <? im_height img)
              then convert_px RGBA (px_at img x y)
              else transparent).
  { intros x y Hx Hy.
    apply (px_at_restitched img output_dir C (fs w1) files); assumption. }
  split; [exact Hpx|].
  intros Hwf Hmode x y Hx Hy.
  rewrite Hpx by nia.
  replace (x <? im_width img) with true by (symmetry; apply Z.ltb_lt; lia).
  replace (y <? im_height img) with true by (symmetry; apply Z.ltb_lt; lia).
  simpl andb. cbv iota. rewrite <- Hmode.
  rewrite <- (well_formed_px_mode img x y Hwf)
    by (apply in_bounds_true; lia).
  apply convert_px_same.
Qed.

Lemma slice_then_stitch_roundtrip_witness :
  exists mapping w2 canvas,
    arrange_by_coords ["out/0_1.png"; "out/0_0.png"]
    = Some (mapping, 0, 0, 1, 0)
    /\ compose demo_sliced mapping 0 0 1 0 default_fill_color None
       = Ok (w2, canvas)
    /\ size canvas = (4, 2)
    /\ px_at canvas 2 1 = Px4 71 81 91 255
    /\ px_at canvas 3 1 = transparent.
Proof.
  destruct (slice_then_stitch_roundtrip demo_world "in.bmp" "out" 2
              demo_source ["out/0_1.png"; "out/0_0.png"]
              default_fill_color None
              eq_refl ltac:(lia) ltac:(simpl; lia) ltac:(simpl; lia)
              eq_refl (or_intror eq_refl))
    as (w1 & tiles & Hrun & Hsaved & Hinner).
  assert (Hw1 : w1 = demo_sliced).
  { unfold demo_sliced. now rewrite Hrun. }
  subst w1.
  assert (Htiles : tiles = saved (trace demo_sliced)) by (symmetry; exact Hsaved).
  subst tiles.
  destruct Hinner as (mapping & w2 & canvas & Harr & Hcomp & Hsize & _ & Hpx & _).
  { vm_compute. apply perm_swap. }
  exists mapping, w2, canvas.
  split; [exact Harr|]. split; [exact Hcomp|]. split; [exact Hsize|].
  split.
  - rewrite (Hpx 2 1) by (vm_compute; split; congruence). reflexivity.
  - rewrite (Hpx 3 1) by (vm_compute; split; congruence). reflexivity.
Defined.

End roundtrip_facts.

(* ===================================================================== *)
(** * RegionClassifier and ContentFiller *)
(* ===================================================================== *)

Section airbrush_facts.
Import Py Cv2 AutoAirbrush ClassifierSpec.
Context `{Extern}.

Lemma zip_with_map_same {A B C D : Type} (f : B -> C -> D)
    (g : A -> B) (h : A -> C) (l : list A) :
  zip_with f (map g l) (map h l) = map (fun x => f (g x) (h x)) l.
Proof. induction l as [|x l IH]; simpl; [reflexivity|now rewrite IH]. Qed.

Lemma amap2_amap_same {A B C D : Type} (f : B -> C -> D)
    (g : A -> B) (h : A -> C) (a : array A) :
  amap2 f (amap g a) (amap h a) = amap (fun x => f (g x) (h x)) a.
Proof.
  unfold amap2, amap. rewrite zip_with_map_same.
  apply map_ext. intros row. apply zip_with_map_same.
Qed.

Lemma amap_amap {A B C : Type} (f : B -> C) (g : A -> B) (a : array A) :
  amap f (amap g a) = amap (fun x => f (g x)) a.
Proof.
  unfold amap. rewrite map_map. apply map_ext. intros row. apply map_map.
Qed.

Lemma amap_ext {A B : Type} (f g : A -> B) (a : array A) :
  (forall x, f x = g x) -> amap f a = amap g a.
Proof.
  intros Hfg. unfold amap. apply map_ext. intros row. now apply map_ext.
Qed.

Lemma amap_uniform {A B : Type} (f : A -> B) rows cols (p : A) :
  amap f (uniform rows cols p) = uniform rows cols (f p).
Proof. unfold amap, uniform. now rewrite !map_repeat. Qed.

(** The mask is computed pixel by pixel. *)
Lemma is_grayish_mask_bgr_pointwise (img : array bgr) :
  is_grayish_mask_bgr img = amap classify img.
Proof.
  unfold is_grayish_mask_bgr, cvtColor_BGR2HSV, split, absdiff.
  cbv zeta. rewrite !amap_amap. cbn [fst snd].
  rewrite !amap2_amap_same. rewrite !amap_amap.
  rewrite !amap2_amap_same. rewrite !amap_amap.
  apply amap_ext. intros p. unfold classify.
  unfold SAT_THRESHOLD, VAL_THRESHOLD, RGB_DIFF_THRESHOLD, blue, green, red.
  destruct (_ && _); reflexivity.
Qed.

Lemma classify_flagged p :
  (classify p = 255 <-> flagged p) /\ (classify p = 0 <-> ~ flagged p).
Proof.
  unfold classify, flagged.
  destruct (saturation_of p <=? 40) eqn:E1;
    destruct (120 <=? value_of p) eqn:E2;
    destruct (Z.abs (blue p - green p) <=? 20) eqn:E3;
    destruct (Z.abs (blue p - red p) <=? 20) eqn:E4;
    destruct (Z.abs (green p - red p) <=? 20) eqn:E5;
    cbn [andb];
    rewrite ?Z.leb_le, ?Z.leb_gt in *; split; split; intros; lia.
Qed.






(** C4.  For every pixel of a tile the RegionClassifier flags the pixel in
    the raw mask exactly when, under the default thresholds, saturation
    is at most 40 and value at least 120 in HSV and the three pairwise
    absolute channel differences are at most 20.  A tile that is
    uniformly mid-gray (R = G = B = 150) has a fully true raw mask, a
    tile that is uniformly pure green a fully false one. *)
Theorem classifier_raw_mask (img : array bgr) :
  (forall (y x : nat) row p,
     img !! y = Some row -> row !! x = Some p ->
     exists mrow v,
       is_grayish_mask_bgr img !! y = Some mrow /\ mrow !! x = Some v
       /\ (v = 255 <-> flagged p) /\ (v = 0 <-> ~ flagged p)
       /\ (v = 255 \/ v = 0))
  /\ length (is_grayish_mask_bgr img) = length img
  /\ (forall rows cols,
        is_grayish_mask_bgr (uniform rows cols mid_gray)
        = uniform rows cols 255)
  /\ (forall rows cols,
        is_grayish_mask_bgr (uniform rows cols pure_green)
        = uniform rows cols 0).
Proof.
  rewrite !is_grayish_mask_bgr_pointwise. split; [|split; [|split]].
  - intros y x row p Hrow Hp. exists (map classify row), (classify p).
    unfold amap, array in *. split.
    { change (map (map classify) img) with (map classify <$> img).
      rewrite list_lookup_fmap, Hrow. reflexivity. }
    split.
    { change (map classify row) with (classify <$> row).
      rewrite list_lookup_fmap, Hp. reflexivity. }
    destruct (classify_flagged p) as [H255 H0].
    split; [exact H255|]. split; [exact H0|].
    unfold classify. destruct (_ && _); auto.
  - unfold amap. apply length_map.
  - intros rows cols. rewrite is_grayish_mask_bgr_pointwise.
    now rewrite amap_uniform.
  - intros rows cols. rewrite is_grayish_mask_bgr_pointwise.
    now rewrite amap_uniform.
Qed.


End airbrush_facts.

Section airbrush_examples.
Import Py Cv2 AutoAirbrush ClassifierSpec.

Lemma classifier_raw_mask_witness :
  exists mrow v,
    @is_grayish_mask_bgr plain_opencv [[(200, 190, 185); (0, 255, 0)]] !! 0%nat
    = Some mrow
    /\ mrow !! 0%nat = Some v /\ (v = 255 <-> flagged (200, 190, 185)).
Proof.
  destruct (@classifier_raw_mask plain_opencv [[(200, 190, 185); (0, 255, 0)]])
    as [Hpx _].
  destruct (Hpx 0%nat 0%nat [(200, 190, 185); (0, 255, 0)] (200, 190, 185)
              eq_refl eq_refl)
    as (mrow & v & Hrow & Hv & H255 & _).
  exists mrow, v. split; [exact Hrow|]. split; [exact Hv|exact H255].
Defined.


End airbrush_examples.

(* ===================================================================== *)
(** * Further properties: file names across the three scripts *)
(* ===================================================================== *)

Section names_extra.
Import Py OsPath Re StitchBrushed ImageSlicer.

Lemma contains_basename p : contains "/"%char (basename p) = false.
Proof.
  unfold basename.
  assert (Hgen : forall s b a, rsplit "/"%char s = Some (b, a) ->
                               contains "/"%char a = false).
  { induction s as [|c s IH]; intros b a; simpl; [discriminate|].
    destruct (rsplit "/"%char s) as [[b0 a0]|] eqn:E.
    - intros [= <- <-]. eapply IH. reflexivity.
    - destruct (Ascii.eqb c "/"%char); [|discriminate].
      intros [= <- <-].
      clear IH. induction s as [|d s IH]; [reflexivity|].
      simpl in E |- *.
      destruct (rsplit "/"%char s) as [[b1 a1]|]; [discriminate|].
      destruct (Ascii.eqb d "/"%char); [discriminate|]. simpl. now apply IH. }
  destruct (rsplit "/"%char p) as [[b a]|] eqn:E.
  - eapply Hgen. exact E.
  - clear Hgen. induction p as [|d p IH]; [reflexivity|].
    simpl in E |- *.
    destruct (rsplit "/"%char p) as [[b1 a1]|]; [discriminate|].
    destruct (Ascii.eqb d "/"%char); [discriminate|]. simpl. now apply IH.
Qed.

Lemma all_dots_app_false (a : string) c (b : string) :
  c <> "."%char -> all_dots (a +:+ String c b) = false.
Proof.
  intros Hc. induction a as [|d a IH].
  - simpl. destruct (Ascii.eqb_spec c "."%char); [contradiction|reflexivity].
  - rewrite append_cons. simpl. rewrite IH. apply andb_false_r.
Qed.

(** Base name of a file [stem.ext] in any directory. *)
Lemma base_name_join dir (stem ext : string) c (rest : string) :
  stem +:+ String "."%char ext = String c rest -> c <> "/"%char ->
  contains "/"%char stem = false -> all_dots stem = false ->
  contains "/"%char ext = false -> contains "."%char ext = false ->
  fst (splitext (basename (join dir (stem +:+ String "."%char ext)))) = stem.
Proof.
  intros Hhead Hc Hstem Hdots Hext Hextdot.
  rewrite (basename_join dir _ c rest Hhead Hc).
  - unfold splitext. rewrite rsplit_last by assumption.
    rewrite Hext. unfold basename. rewrite rsplit_None by assumption.
    now rewrite Hdots.
  - rewrite contains_app. simpl. now rewrite Hstem, Hext.
Qed.

Lemma int_str_int z : 0 <= z -> int (str_int z) = z.
Proof.
  intros Hz. rewrite str_int_nonneg by assumption.
  destruct (str_nonempty (Z.to_nat z)) as (c & r & E & Hc).
  pose proof (int_digits_str (Z.to_nat z)) as Hi.
  unfold int. rewrite E in *.
  assert (Hm : forall (A : Type) (x y : A),
             match c with "-"%char => x | _ => y end = y).
  { intros A x y.
    destruct c as [[|] [|] [|] [|] [|] [|] [|] [|]]; try reflexivity.
    discriminate. }
  rewrite Hm, Hi. lia.
Qed.

(** The scanner on [R_C] followed by anything: the two numbers, then
    whatever the rest yields after [C]. *)
Lemma findall_int_pair (R C s : string) :
  digits_only R = true -> R <> EmptyString ->
  digits_only C = true -> C <> EmptyString ->
  findall_int (R +:+ String "_"%char (C +:+ s))
  = R :: findall_go (InNum C) s.
Proof.
  intros DR HR DC HC.
  destruct R as [|c1 r1]; [congruence|].
  destruct C as [|c2 r2]; [congruence|].
  simpl in DR, DC.
  apply andb_prop in DR as [Hc1 Dr1]. apply andb_prop in DC as [Hc2 Dr2].
  rewrite findall_int_digits by assumption.
  simpl. f_equal. rewrite Hc2. simpl.
  now rewrite findall_go_digits.
Qed.

Lemma str_int_digits z :
  0 <= z -> digits_only (str_int z) = true /\ str_int z <> EmptyString.
Proof.
  intros Hz. rewrite str_int_nonneg by assumption.
  split; [apply digits_only_str|].
  destruct (str_nonempty (Z.to_nat z)) as (c & r & E & _).
  rewrite E. discriminate.
Qed.

Lemma stem_facts (R C s : string) :
  digits_only R = true -> R <> EmptyString -> digits_only C = true ->
  contains "/"%char s = false ->
  contains "/"%char (R +:+ String "_"%char (C +:+ s)) = false
  /\ all_dots (R +:+ String "_"%char (C +:+ s)) = false.
Proof.
  intros DR HR DC Hs. split.
  - rewrite contains_app. simpl. rewrite contains_app.
    rewrite (contains_digits _ R), (contains_digits _ C), Hs
      by (assumption || reflexivity).
    reflexivity.
  - apply all_dots_app_false. discriminate.
Qed.

(** X1.  The name the slicer gives the tile of grid position (row, col),
    in any output directory, is read back by the locator as (row, col). *)
Theorem tile_name_roundtrip (output_dir : string) (row col : Z) :
  0 <= row -> 0 <= col ->
  parse_coords_from_name (join output_dir (chunk_filename row col))
  = Some (row, col).
Proof. intros Hrow Hcol. now apply parse_tile_path. Qed.

Lemma tile_name_roundtrip_witness :
  parse_coords_from_name (join "out/run_7" (chunk_filename 12 305))
  = Some (12, 305).
Proof. apply tile_name_roundtrip; lia. Defined.

Lemma rsplit_Some sep s b a :
  rsplit sep s = Some (b, a) -> s = b +:+ String sep a.
Proof.
  revert b a. induction s as [|c s IH]; intros b a; simpl; [discriminate|].
  destruct (rsplit sep s) as [[b0 a0]|] eqn:E.
  - intros [= <- <-]. rewrite append_cons. f_equal. now apply IH.
  - destruct (Ascii.eqb_spec c sep) as [->|]; [|discriminate].
    now intros [= <- <-].
Qed.

Lemma contains_splitext_root sep p :
  contains sep p = false -> contains sep (fst (splitext p)) = false.
Proof.
  intros Hp. unfold splitext.
  destruct (rsplit "."%char p) as [[root ext]|] eqn:E; [|assumption].
  destruct (contains "/"%char ext); [assumption|].
  destruct (all_dots (basename root)); [assumption|]. simpl.
  apply rsplit_Some in E. rewrite E, contains_app in Hp.
  now apply orb_false_elim in Hp as [Hroot _].
Qed.


Lemma endswith_spec (s suffix : string) :
  endswith s suffix = true <-> exists a, s = a +:+ suffix.
Proof.
  induction s as [|c s IH].
  - change (endswith EmptyString suffix)
      with (String.eqb EmptyString suffix || false).
    rewrite orb_false_r. split.
    + intros Heq. apply String.eqb_eq in Heq. subst. now exists EmptyString.
    + intros (a & Ha). destruct a; [|discriminate].
      rewrite append_nil_l in Ha. subst. reflexivity.
  - change (endswith (String c s) suffix)
      with (String.eqb (String c s) suffix || endswith s suffix).
    rewrite orb_true_iff, IH. split.
    + intros [Heq|(a & ->)].
      * apply String.eqb_eq in Heq. rewrite Heq. now exists EmptyString.
      * now exists (String c a).
    + intros (a & Ha). destruct a as [|d a].
      * left. rewrite append_nil_l in Ha. rewrite Ha. apply String.eqb_refl.
      * right. rewrite append_cons in Ha. injection Ha as _ ->. now exists a.
Qed.

Lemma last_char_app (a : string) c (b : string) :
  last_char (a +:+ String c b) = last_char (String c b).
Proof.
  induction a as [|d a IH]; [reflexivity|].
  rewrite append_cons.
  change (last_char (String d (a +:+ String c b)))
    with (match a +:+ String c b with
          | EmptyString => Some d
          | String _ _ => last_char (a +:+ String c b)
          end).
  destruct (a +:+ String c b) eqn:E; [|now rewrite <- IH].
  destruct a; discriminate.
Qed.

Lemma length_append (a b : string) :
  String.length (a +:+ b) = (String.length a + String.length b)%nat.
Proof.
  induction a as [|c a IH]; [reflexivity|].
  rewrite append_cons. simpl. now rewrite IH.
Qed.

Lemma append_same_length_suffix (a b x y : string) :
  a +:+ x = b +:+ y -> String.length x = String.length y -> x = y.
Proof.
  revert b. induction a as [|c a IH]; intros b Heq Hlen.
  - destruct b as [|d b]; [exact Heq|].
    rewrite append_nil_l in Heq. rewrite Heq in Hlen.
    rewrite append_cons in Hlen. simpl in Hlen.
    rewrite length_append in Hlen. lia.
  - destruct b as [|d b].
    + rewrite append_nil_l in Heq. rewrite <- Heq in Hlen.
      rewrite append_cons in Hlen. simpl in Hlen.
      rewrite length_append in Hlen. lia.
    + rewrite !append_cons in Heq. injection Heq as _ Heq. eauto.
Qed.

Lemma last_char_digits (d : string) c :
  digits_only d = true -> last_char d = Some c -> is_digit c = true.
Proof.
  induction d as [|a d IH]; [discriminate|].
  simpl digits_only. intros Hd. apply andb_prop in Hd as [Ha Hd].
  destruct d as [|b d]; [now intros [= <-]|].
  intros Hl. apply IH; assumption.
Qed.

(** The base name of the files of one tile. *)
Lemma base_name_output dir (stem suffix : string) :
  contains "/"%char stem = false -> contains "/"%char suffix = false ->
  fst (splitext (basename
         (join dir (stem +:+ String "_"%char (suffix +:+ ".png")))))
  = stem +:+ String "_"%char suffix.
Proof.
  intros Hstem Hsuffix.
  assert (Hname : stem +:+ String "_"%char (suffix +:+ ".png")
                  = (stem +:+ String "_"%char suffix) +:+ String "."%char "png").
  { rewrite append_assoc, append_cons. reflexivity. }
  rewrite Hname.
  assert (Hhead : exists c rest,
            (stem +:+ String "_"%char suffix) +:+ String "."%char "png"
            = String c rest /\ c <> "/"%char).
  { destruct stem as [|c stem].
    - rewrite append_nil_l, append_cons. eexists _, _. split; [reflexivity|].
      discriminate.
    - rewrite !append_cons. eexists _, _. split; [reflexivity|].
      simpl in Hstem. apply orb_false_elim in Hstem as [Hc _].
      intros ->. discriminate. }
  destruct Hhead as (c & rest & Hhead & Hc).
  apply (base_name_join dir _ _ c rest); try assumption; try reflexivity.
  - rewrite contains_app. simpl. now rewrite Hstem, Hsuffix.
  - apply all_dots_app_false. discriminate.
Qed.

Lemma base_name_brushed input_path output_dir :
  fst (splitext (basename (brushed_path input_path output_dir)))
  = fst (splitext (basename input_path)) +:+ "_brushed".
Proof.
  unfold brushed_path.
  apply (base_name_output _ _ "brushed"); [|reflexivity].
  apply contains_splitext_root, contains_basename.
Qed.

Lemma base_name_mask input_path output_dir :
  fst (splitext (basename (mask_path input_path output_dir)))
  = fst (splitext (basename input_path)) +:+ "_mask".
Proof.
  unfold mask_path.
  apply (base_name_output _ _ "mask"); [|reflexivity].
  apply contains_splitext_root, contains_basename.
Qed.

Lemma base_name_inpainted input_path output_dir :
  fst (splitext (basename (inpainted_path input_path output_dir)))
  = fst (splitext (basename input_path)) +:+ "_inpainted".
Proof.
  unfold inpainted_path.
  apply (base_name_output _ _ "inpainted"); [|reflexivity].
  apply contains_splitext_root, contains_basename.
Qed.

Lemma base_name_tile output_dir row col :
  0 <= row -> 0 <= col ->
  fst (splitext (basename (join output_dir (chunk_filename row col))))
  = str_int row +:+ String "_"%char (str_int col).
Proof.
  intros Hrow Hcol. unfold chunk_filename.
  destruct (str_int_digits row Hrow) as [DR HR].
  destruct (str_int_digits col Hcol) as [DC HC].
  set (R := str_int row) in *. set (C := str_int col) in *.
  assert (Hfn : R +:+ "_" +:+ C +:+ ".png"
                = (R +:+ String "_"%char C) +:+ String "."%char "png").
  { now rewrite append_assoc. }
  rewrite Hfn.
  destruct (stem_facts R C EmptyString DR HR DC eq_refl) as [Hslash Hdots].
  rewrite append_nil_r in Hslash, Hdots.
  destruct R as [|c1 r1]; [congruence|].
  apply (base_name_join output_dir _ _ c1
           ((r1 +:+ String "_"%char C) +:+ String "."%char "png"));
    try assumption; try reflexivity.
  simpl in DR. apply andb_prop in DR as [Hc1 _]. intros ->. discriminate.
Qed.

Lemma is_brushed_brushed_path input_path output_dir :
  is_brushed (brushed_path input_path output_dir) = true.
Proof.
  unfold is_brushed. rewrite base_name_brushed. apply endswith_spec. eauto.
Qed.

Lemma parse_brushed_tile_path tile_dir output_dir row col :
  0 <= row -> 0 <= col ->
  parse_coords_from_name
    (brushed_path (join tile_dir (chunk_filename row col)) output_dir)
  = Some (row, col).
Proof.
  intros Hrow Hcol.
  destruct (str_int_digits row Hrow) as [DR HR].
  destruct (str_int_digits col Hcol) as [DC HC].
  unfold parse_coords_from_name.
  rewrite base_name_brushed, base_name_tile by assumption.
  rewrite append_assoc, append_cons.
  rewrite findall_int_pair by assumption.
  simpl. now rewrite !int_str_int.
Qed.

(** X2.  The brushed file that [process_image_file] writes for the tile of
    grid position (row, col) passes the filter of [find_images] and is
    read back by the locator as (row, col), whatever the directories. *)
Theorem brushed_tile_name_roundtrip (tile_dir : string)
    (output_dir : option string) (row col : Z) :
  0 <= row -> 0 <= col ->
  is_brushed
    (brushed_path (join tile_dir (chunk_filename row col)) output_dir) = true
  /\ parse_coords_from_name
       (brushed_path (join tile_dir (chunk_filename row col)) output_dir)
     = Some (row, col).
Proof.
  intros Hrow Hcol. split.
  - apply is_brushed_brushed_path.
  - now apply parse_brushed_tile_path.
Qed.

Lemma brushed_tile_name_roundtrip_witness :
  parse_coords_from_name
    (brushed_path (join "output" (chunk_filename 7 7)) (Some "output"))
  = Some (7, 7).
Proof.
  apply (brushed_tile_name_roundtrip "output" (Some "output") 7 7); lia.
Defined.

(** X3.  Of the files written for a tile only the brushed result passes
    the filter of [find_images]: the mask, the inpainting debug image and
    the tiles as the slicer names them are rejected. *)
Theorem is_brushed_selects_results (input_path tile_dir : string)
    (output_dir : option string) (row col : Z) :
  0 <= row -> 0 <= col ->
  is_brushed (brushed_path input_path output_dir) = true
  /\ is_brushed (mask_path input_path output_dir) = false
  /\ is_brushed (inpainted_path input_path output_dir) = false
  /\ is_brushed (join tile_dir (chunk_filename row col)) = false.
Proof.
  intros Hrow Hcol. unfold is_brushed.
  rewrite base_name_brushed, base_name_mask, base_name_inpainted,
    base_name_tile by assumption.
  split; [apply endswith_spec; eauto|].
  split; [|split].
  - apply not_true_is_false. intros He.
    apply endswith_spec in He as (a & Ha).
    apply (f_equal last_char) in Ha.
    change "_mask" with (String "_"%char "mask") in Ha.
    change "_brushed" with (String "_"%char "brushed") in Ha.
    rewrite !last_char_app in Ha. discriminate.
  - apply not_true_is_false. intros He.
    apply endswith_spec in He as (a & Ha).
    change "_inpainted" with ("_i" +:+ "npainted") in Ha.
    rewrite <- append_assoc in Ha.
    apply append_same_length_suffix in Ha; [discriminate|reflexivity].
  - apply not_true_is_false. intros He.
    apply endswith_spec in He as (a & Ha).
    apply (f_equal last_char) in Ha.
    destruct (str_int_digits col Hcol) as [DC HC].
    destruct (str_int col) as [|c2 r2] eqn:EC; [congruence|].
    rewrite (last_char_app a "_"%char "brushed") in Ha.
    rewrite (last_char_app (str_int row) "_"%char (String c2 r2)) in Ha.
    change (last_char (String "_"%char (String c2 r2)))
      with (last_char (String c2 r2)) in Ha.
    change (last_char (String "_"%char "brushed")) with (Some "d"%char) in Ha.
    pose proof (last_char_digits (String c2 r2) "d"%char DC Ha) as Hd.
    discriminate.
Qed.

Lemma is_brushed_selects_results_witness :
  is_brushed (mask_path "output/3_4.png" None) = false.
Proof.
  apply (is_brushed_selects_results "output/3_4.png" "output" None 3 4); lia.
Defined.

End names_extra.

(* ===================================================================== *)
(** * Further properties: locating tiles *)
(* ===================================================================== *)

Section locator_extra.
Import Py LocatorSpec StitchBrushed.

Lemma fold_set_file_get_other files : forall m k,
  (forall g, In g files -> key_of g <> k) ->
  PyDict.get (fold_left set_file files m) k = PyDict.get m k.
Proof.
  induction files as [|f files IH]; intros m k Hk; [reflexivity|].
  simpl. rewrite IH by (intros g Hg; apply Hk; now right).
  change (set_file m f) with (PyDict.setitem m (key_of f) f).
  apply get_setitem_ne. apply Hk. now left.
Qed.

Lemma length_setitem {K V : Type} `{EqDecision K}
    (d : PyDict.dict K V) k v :
  (length (PyDict.setitem d k v) <= S (length d))%nat.
Proof.
  induction d as [|[k0 v0] d IH]; simpl; [lia|].
  destruct (decide (k0 = k)); simpl; lia.
Qed.

Lemma length_fold_set_file files : forall m,
  (length (fold_left set_file files m) <= length m + length files)%nat.
Proof.
  induction files as [|f files IH]; intros m; simpl; [lia|].
  specialize (IH (set_file m f)).
  pose proof (length_setitem m (key_of f) f).
  change (set_file m f) with (PyDict.setitem m (key_of f) f) in *. lia.
Qed.

Lemma key_of_parse f row col :
  parse_coords_from_name f = Some (row, col) -> key_of f = (col, row).
Proof. intros Hf. unfold key_of. now rewrite Hf. Qed.

(** What [arrange_by_coords] returns on a non-empty list of files that
    all carry coordinates. *)
Lemma arrange_by_coords_Some files :
  files <> [] ->
  (forall f, In f files -> parse_coords_from_name f <> None) ->
  arrange_by_coords files
  = Some (fold_left set_file files PyDict.empty,
          min_of (rev (map (fun f => fst (key_of f)) files)),
          min_of (rev (map (fun f => snd (key_of f)) files)),
          max_of (rev (map (fun f => fst (key_of f)) files)),
          max_of (rev (map (fun f => snd (key_of f)) files))).
Proof.
  intros Hne Hparse. unfold arrange_by_coords.
  rewrite arrange_loop_Some by assumption. rewrite !app_nil_r.
  destruct (fold_left set_file files PyDict.empty) as [|e m] eqn:Hm;
    [|reflexivity].
  exfalso. destruct files as [|f files]; [congruence|].
  destruct (fold_set_file_get (f :: files) PyDict.empty f (or_introl eq_refl))
    as (g & Hg & _). rewrite Hm in Hg. discriminate.
Qed.

(** X4.  When several files carry the same coordinates, the primary
    strategy keeps one entry for the position and it holds the file that
    comes last in the list; the mapping never has more entries than there
    are files and no position occurs twice. *)
Theorem arrange_last_file_wins (files : list string) :
  files <> [] ->
  (forall f, In f files -> parse_coords_from_name f <> None) ->
  exists mapping min_x min_y max_x max_y,
    arrange_by_coords files = Some (mapping, min_x, min_y, max_x, max_y)
    /\ NoDup (PyDict.keys mapping)
    /\ (length mapping <= length files)%nat
    /\ (forall before f after row col,
          files = before ++ f :: after ->
          parse_coords_from_name f = Some (row, col) ->
          (forall g, In g after ->
                     parse_coords_from_name g <> Some (row, col)) ->
          PyDict.get mapping (col, row) = Some f)
    /\ (forall x y,
          In (x, y) (PyDict.keys mapping) <->
          exists f, In f files /\ parse_coords_from_name f = Some (y, x)).
Proof.
  intros Hne Hparse. rewrite arrange_by_coords_Some by assumption.
  do 5 eexists. split; [reflexivity|].
  split; [apply fold_set_file_NoDup; constructor|].
  split; [apply (length_fold_set_file files PyDict.empty)|].
  split.
  - intros before f after row col -> Hf Hafter.
    rewrite fold_left_app. cbn [fold_left].
    rewrite fold_set_file_get_other.
    + change (set_file ?m f) with (PyDict.setitem m (key_of f) f).
      rewrite (key_of_parse f row col Hf). apply get_setitem_eq.
    + intros g Hg Hk.
      assert (Hgin : In g (before ++ f :: after))
        by (apply in_or_app; right; now right).
      specialize (Hparse g Hgin). specialize (Hafter g Hg).
      unfold key_of in Hk.
      destruct (parse_coords_from_name g) as [[r c]|]; [|congruence].
      injection Hk as -> ->. congruence.
  - intros x y. rewrite fold_set_file_keys. simpl. split.
    + intros [[]|Hin]. apply in_map_iff in Hin as (f & Hk & Hf).
      exists f. split; [assumption|].
      specialize (Hparse f Hf). unfold key_of in Hk.
      destruct (parse_coords_from_name f) as [[r c]|]; [|congruence].
      now injection Hk as -> ->.
    + intros (f & Hf & Hp). right. apply in_map_iff. exists f.
      split; [now apply key_of_parse|assumption].
Qed.

Lemma arrange_last_file_wins_witness :
  exists mapping min_x min_y max_x max_y,
    arrange_by_coords ["a_0_1.png"; "b_2_3.png"; "c_0_1.png"]
    = Some (mapping, min_x, min_y, max_x, max_y)
    /\ PyDict.get mapping (1, 0) = Some "c_0_1.png"
    /\ (length mapping <= 3)%nat.
Proof.
  destruct (arrange_last_file_wins ["a_0_1.png"; "b_2_3.png"; "c_0_1.png"])
    as (mapping & a & b & c & d & Harr & _ & Hlen & Hlast & _).
  - discriminate.
  - intros f [<-|[<-|[<-|[]]]]; vm_compute; discriminate.
  - exists mapping, a, b, c, d. split; [exact Harr|]. split; [|exact Hlen].
    apply (Hlast ["a_0_1.png"; "b_2_3.png"] "c_0_1.png" [] 0 1);
      [reflexivity|reflexivity|intros g []].
Defined.

(** X5.  Locating never raises, and every position of the layout it
    returns lies within the extents returned with it: no tile is pasted
    at a negative offset or beyond the canvas. *)
Theorem locate_keys_within_extents (files : list string) :
  exists mapping min_x min_y max_x max_y,
    locate files = Ok (mapping, min_x, min_y, max_x, max_y)
    /\ forall x y, In (x, y) (PyDict.keys mapping) ->
         min_x <= x <= max_x /\ min_y <= y <= max_y.
Proof.
  unfold locate.
  destruct (arrange_by_coords files) as [[[[[m a] b] c] d]|] eqn:Harr.
  - exists m, a, b, c, d. split; [reflexivity|].
    assert (Hne : files <> []).
    { intros ->. discriminate. }
    assert (Hparse : forall f, In f files -> parse_coords_from_name f <> None).
    { intros f Hf Hnone. unfold arrange_by_coords in Harr.
      rewrite arrange_loop_None in Harr; [discriminate|eauto]. }
    rewrite arrange_by_coords_Some in Harr by assumption.
    injection Harr as <- <- <- <- <-.
    intros x y Hin. apply fold_set_file_keys in Hin as [[]|Hin].
    apply in_map_iff in Hin as (f & Hk & Hf).
    assert (Hxs : rev (map (fun f => fst (key_of f)) files) <> []).
    { destruct files; [congruence|]. simpl. intros H.
      apply app_eq_nil in H as [_ H]. discriminate. }
    assert (Hys : rev (map (fun f => snd (key_of f)) files) <> []).
    { destruct files; [congruence|]. simpl. intros H.
      apply app_eq_nil in H as [_ H]. discriminate. }
    assert (Hx : In x (rev (map (fun f => fst (key_of f)) files))).
    { apply in_rev. rewrite rev_involutive. apply in_map_iff. exists f.
      now rewrite Hk. }
    assert (Hy : In y (rev (map (fun f => snd (key_of f)) files))).
    { apply in_rev. rewrite rev_involutive. apply in_map_iff. exists f.
      now rewrite Hk. }
    pose proof (proj2 (min_of_spec _ Hxs) x Hx).
    pose proof (proj2 (max_of_spec _ Hxs) x Hx).
    pose proof (proj2 (min_of_spec _ Hys) y Hy).
    pose proof (proj2 (max_of_spec _ Hys) y Hy).
    lia.
  - destruct (fallback_grid_eq files)
      as (rows & cols & _ & Heq & _).
    do 5 eexists. split; [exact Heq|].
    intros x y Hin. apply In_grid_cells_keys in Hin. lia.
Qed.

(** X6.  The fallback grid of a non-empty list of [n] files has at most
    as many rows as columns, except when [n = k * (k + 1)]: then it has
    [k + 1] rows and [k] columns. *)
Theorem fallback_grid_orientation (files : list string) :
  files <> [] ->
  exists rows cols mapping,
    fallback_grid files = Ok (mapping, 0, 0, cols - 1, rows - 1)
    /\ rows * cols = Z.of_nat (length files)
    /\ (rows <= cols \/ rows = cols + 1)
    /\ (rows = cols + 1 <->
        exists k, 1 <= k /\ Z.of_nat (length files) = k * (k + 1)).
Proof.
  intros Hne.
  assert (Hn : 1 <= Z.of_nat (length files)).
  { destruct files; [congruence|simpl length; lia]. }
  destruct (fallback_grid_eq files)
    as (rows & cols & _ & Heq & Hrows & Hmul & Hmax).
  set (n := Z.of_nat (length files)) in *.
  pose proof (Z.sqrt_spec n ltac:(lia)) as Hs.
  pose proof (Z.sqrt_nonneg n) as Hs0.
  set (s := Z.sqrt n) in *. unfold Z.succ in Hs.
  assert (Hcols : 1 <= cols) by nia.
  exists rows, cols, (grid_cells files cols 0 rows).
  split; [exact Heq|]. split; [exact Hmul|].
  assert (Hshape : rows <= cols \/ (rows = s + 1 /\ cols = s)).
  { destruct (Z_le_gt_dec rows cols) as [|Hgt]; [now left|right].
    assert (Hr : rows = s + 1) by nia.
    split; [assumption|].
    assert (cols <= s - 1 \/ cols = s \/ s + 1 <= cols) as [Hc|[Hc|Hc]]
      by lia; [nia|assumption|nia]. }
  split; [lia|]. split.
  - intros Hrc. exists cols. split; [lia|]. rewrite <- Hmul, Hrc. lia.
  - intros (k & Hk & Hnk).
    assert (Hsk : s = k) by nia.
    assert (Hdiv : n mod (k + 1) = 0).
    { rewrite Hnk. apply Z.mod_mul. lia. }
    assert (Hle : k + 1 <= rows) by (apply Hmax; [lia|assumption]).
    assert (Hrk : rows = k + 1) by lia.
    assert (cols = k) by nia. lia.
Qed.

Lemma fallback_grid_orientation_witness :
  exists rows cols mapping,
    fallback_grid ["a.png"; "b.png"] = Ok (mapping, 0, 0, cols - 1, rows - 1)
    /\ rows * cols = 2
    /\ (rows <= cols \/ rows = cols + 1).
Proof.
  destruct (fallback_grid_orientation ["a.png"; "b.png"] ltac:(discriminate))
    as (rows & cols & mapping & Heq & Hmul & Hor & _).
  exists rows, cols, mapping. repeat split; assumption.
Defined.

End locator_extra.

(* ===================================================================== *)
(** * Further properties: from the brushed tiles to the layout *)
(* ===================================================================== *)

Section pipeline_extra.
Import Py Pil ImageSlicer StitchBrushed.

(** The locator on the files of a full grid, for any naming of the tiles
    that it reads back. *)
Lemma arrange_grid_names (name : Z -> Z -> string) rows cols files :
  (forall r c, 0 <= r -> 0 <= c ->
     parse_coords_from_name (name r c) = Some (r, c)) ->
  1 <= rows -> 1 <= cols ->
  Permutation files (map (fun rc => name (fst rc) (snd rc)) (cells rows cols)) ->
  arrange_by_coords files = Some (keyed files, 0, 0, cols - 1, rows - 1)
  /\ NoDup (PyDict.keys (keyed files))
  /\ forall r c, 0 <= r < rows -> 0 <= c < cols ->
       PyDict.get (keyed files) (c, r) = Some (name r c).
Proof.
  intros Hname Hrows Hcols Hperm.
  assert (Hkey : forall r c, 0 <= r -> 0 <= c -> key_of (name r c) = (c, r)).
  { intros r c Hr Hc. unfold key_of. now rewrite Hname. }
  assert (Hin : forall f, In f files <->
            exists r c, 0 <= r < rows /\ 0 <= c < cols /\ f = name r c).
  { intros f. split.
    - intros Hf. apply (Permutation_in _ Hperm) in Hf.
      apply in_map_iff in Hf as ([r c] & <- & Hrc).
      apply In_cells in Hrc. exists r, c. tauto.
    - intros (r & c & Hr & Hc & ->).
      apply (Permutation_in _ (Permutation_sym Hperm)).
      apply in_map_iff. exists (r, c). split; [reflexivity|].
      apply In_cells. tauto. }
  assert (Hnd : NoDup (map key_of files)).
  { rewrite (Permutation_map key_of Hperm). rewrite map_map.
    rewrite (map_ext_in _ (fun rc => (snd rc, fst rc))).
    - apply NoDup_fmap_2; [|apply NoDup_cells; lia].
      intros [r c] [r' c'] [= -> ->]. reflexivity.
    - intros [r c] Hrc. apply In_cells in Hrc. simpl. apply Hkey; lia. }
  assert (Hkeys : PyDict.keys (keyed files) = map key_of files).
  { unfold PyDict.keys, keyed. rewrite map_map. reflexivity. }
  assert (Hparse : forall f, In f files -> parse_coords_from_name f <> None).
  { intros f Hf. apply Hin in Hf as (r & c & Hr & Hc & ->).
    rewrite Hname by lia. discriminate. }
  assert (H00 : In (name 0 0) files)
    by (apply Hin; exists 0, 0; repeat split; lia).
  assert (Hne : files <> []).
  { destruct files; [destruct H00|discriminate]. }
  split; [|split; [now rewrite Hkeys|]].
  - rewrite arrange_by_coords_Some by assumption.
    rewrite fold_set_file_fresh by exact Hnd. simpl app at 1.
    fold (keyed files).
    assert (Hxs : forall x, In x (rev (map (fun f => fst (key_of f)) files)) <->
                            exists f, In f files /\ x = fst (key_of f)).
    { intros x. rewrite <- in_rev, in_map_iff. split;
        intros (f & H1 & H2); exists f; auto. }
    assert (Hys : forall y, In y (rev (map (fun f => snd (key_of f)) files)) <->
                            exists f, In f files /\ y = snd (key_of f)).
    { intros y. rewrite <- in_rev, in_map_iff. split;
        intros (f & H1 & H2); exists f; auto. }
    assert (Hxs0 : rev (map (fun f => fst (key_of f)) files) <> []).
    { intros E. assert (H : In 0 (rev (map (fun f => fst (key_of f)) files))).
      { apply Hxs. exists (name 0 0). split; [assumption|].
        now rewrite Hkey by lia. }
      rewrite E in H. destruct H. }
    assert (Hys0 : rev (map (fun f => snd (key_of f)) files) <> []).
    { intros E. assert (H : In 0 (rev (map (fun f => snd (key_of f)) files))).
      { apply Hys. exists (name 0 0). split; [assumption|].
        now rewrite Hkey by lia. }
      rewrite E in H. destruct H. }
    assert (Hbx : forall x, In x (rev (map (fun f => fst (key_of f)) files)) ->
                            0 <= x <= cols - 1).
    { intros x Hx. apply Hxs in Hx as (f & Hf & ->).
      apply Hin in Hf as (r & c & Hr & Hc & ->).
      rewrite Hkey by lia. simpl. lia. }
    assert (Hby : forall y, In y (rev (map (fun f => snd (key_of f)) files)) ->
                            0 <= y <= rows - 1).
    { intros y Hy. apply Hys in Hy as (f & Hf & ->).
      apply Hin in Hf as (r & c & Hr & Hc & ->).
      rewrite Hkey by lia. simpl. lia. }
    assert (Hcorner : forall r c, 0 <= r < rows -> 0 <= c < cols ->
              In c (rev (map (fun f => fst (key_of f)) files))
              /\ In r (rev (map (fun f => snd (key_of f)) files))).
    { intros r c Hr Hc. split; [apply Hxs|apply Hys];
        exists (name r c);
        (split; [apply Hin; exists r, c; auto
                |now rewrite Hkey by lia]). }
    destruct (min_of_spec _ Hxs0) as [Hminx Hminx'].
    destruct (max_of_spec _ Hxs0) as [Hmaxx Hmaxx'].
    destruct (min_of_spec _ Hys0) as [Hminy Hminy'].
    destruct (max_of_spec _ Hys0) as [Hmaxy Hmaxy'].
    apply Hbx in Hminx, Hmaxx. apply Hby in Hminy, Hmaxy.
    destruct (Hcorner 0 0 ltac:(lia) ltac:(lia)) as [Hc0 Hr0].
    destruct (Hcorner (rows - 1) (cols - 1) ltac:(lia) ltac:(lia))
      as [Hc1 Hr1].
    apply Hminx' in Hc0. apply Hmaxx' in Hc1.
    apply Hminy' in Hr0. apply Hmaxy' in Hr1.
    repeat f_equal; lia.
  - intros r c Hr Hc. apply get_Some_In; [now rewrite Hkeys|].
    unfold PyDict.items, keyed. apply in_map_iff. exists (name r c).
    split; [now rewrite Hkey by lia|].
    apply Hin. exists r, c. auto.
Qed.

(** X7.  Given, in any order, the brushed files of all tiles of a
    [rows] x [cols] slicing, the locator returns the slicing grid: extents
    (0, 0) to (cols - 1, rows - 1), and at every position the brushed file
    of the tile cut there. *)
Theorem brushed_grid_located (tile_dir : string) (output_dir : option string)
    (rows cols : Z) (files : list string) :
  1 <= rows -> 1 <= cols ->
  Permutation files
    (map (fun rc => brushed_path
                      (OsPath.join tile_dir (chunk_filename (fst rc) (snd rc)))
                      output_dir)
         (cells rows cols)) ->
  exists mapping,
    locate files = Ok (mapping, 0, 0, cols - 1, rows - 1)
    /\ NoDup (PyDict.keys mapping)
    /\ Forall (fun f => is_brushed f = true) (PyDict.values mapping)
    /\ forall row col, 0 <= row < rows -> 0 <= col < cols ->
         PyDict.get mapping (col, row)
         = Some (brushed_path
                   (OsPath.join tile_dir (chunk_filename row col)) output_dir).
Proof.
  intros Hrows Hcols Hperm.
  destruct (arrange_grid_names
              (fun r c => brushed_path
                            (OsPath.join tile_dir (chunk_filename r c))
                            output_dir)
              rows cols files) as (Harr & Hnd & Hget); try assumption.
  { intros r c Hr Hc. now apply parse_brushed_tile_path. }
  exists (keyed files). unfold locate. rewrite Harr.
  split; [reflexivity|]. split; [assumption|]. split; [|exact Hget].
  apply Forall_forall. intros f Hf. apply list_elem_of_In in Hf.
  unfold PyDict.values, keyed in Hf. rewrite map_map in Hf. simpl in Hf.
  rewrite map_id in Hf. apply (Permutation_in _ Hperm) in Hf.
  apply in_map_iff in Hf as (rc & <- & _). apply is_brushed_brushed_path.
Qed.

Lemma brushed_grid_located_witness :
  exists mapping,
    locate ["t/1_0_brushed.png"; "t/0_1_brushed.png";
            "t/0_0_brushed.png"; "t/1_1_brushed.png"]
    = Ok (mapping, 0, 0, 1, 1)
    /\ PyDict.get mapping (1, 0) = Some "t/0_1_brushed.png".
Proof.
  destruct (brushed_grid_located "t" None 2 2
              ["t/1_0_brushed.png"; "t/0_1_brushed.png";
               "t/0_0_brushed.png"; "t/1_1_brushed.png"])
    as (mapping & Hloc & _ & _ & Hget); [lia|lia| |].
  - vm_compute.
    apply (perm_trans (l' := ["t/0_1_brushed.png"; "t/1_0_brushed.png";
                              "t/0_0_brushed.png"; "t/1_1_brushed.png"]));
      [apply perm_swap|].
    apply (perm_trans (l' := ["t/0_1_brushed.png"; "t/0_0_brushed.png";
                              "t/1_0_brushed.png"; "t/1_1_brushed.png"]));
      [apply perm_skip, perm_swap|].
    apply (perm_trans (l' := ["t/0_0_brushed.png"; "t/0_1_brushed.png";
                              "t/1_0_brushed.png"; "t/1_1_brushed.png"]));
      [apply perm_swap|apply Permutation_refl].
  - exists mapping. split; [exact Hloc|].
    apply (Hget 0 1); lia.
Defined.

End pipeline_extra.

(* ===================================================================== *)
(** * Further properties: stitching *)
(* ===================================================================== *)

Section stitch_extra.
Import Py Pil StitchBrushed.





(** X9.  Stitching over a four-channel background into a [.bmp] file
    saves an RGB image: the alpha channel is dropped after compositing, so
    a position without readable tile holds the background's colour
    channels and a tile pixel its colour made opaque and stripped again. *)
Theorem stitch_bmp_drops_alpha (w : world)
    (mapping : PyDict.dict (Z * Z) string) (min_x min_y max_x max_y : Z)
    (out_path : string) (r g b a : Z) (t : Z) :
  endswith (lower out_path) ".bmp" = true ->
  0 < t -> min_x <= max_x + 1 -> min_y <= max_y + 1 ->
  NoDup (PyDict.keys mapping) ->
  uniform_tiles (fs w) mapping t t ->
  exists w' saved_image,
    stitch w mapping min_x min_y max_x max_y out_path (Px4 r g b a) (Some t)
    = Ok w'
    /\ fs w' !! out_path = Some (Decodable saved_image)
    /\ im_mode saved_image = RGB
    /\ forall x y,
         0 <= x < (max_x - min_x + 1) * t ->
         0 <= y < (max_y - min_y + 1) * t ->
         px_at saved_image x y
         = match PyDict.get mapping (min_x + x / t, min_y + y / t) with
           | Some path =>
               match fs w !! path with
               | Some (Decodable tile) =>
                   convert_px RGB
                     (convert_px RGBA (px_at tile (x mod t) (y mod t)))
               | _ => Px3 r g b
               end
           | None => Px3 r g b
           end.
Proof.
  intros Hbmp Ht Hx Hy Hnd Huni. unfold stitch.
  rewrite (compose_eq w mapping min_x min_y max_x max_y (Px4 r g b a)
             (Some t) t t) by (auto || nia).
  cbn [bind]. change (canvas_mode (Px4 r g b a)) with RGBA.
  set (bg := new RGBA ((max_x - min_x + 1) * t, (max_y - min_y + 1) * t)
               (Px4 r g b a)).
  set (canvas := paste_all RGBA min_x min_y t t (fs w) mapping bg).
  assert (Hmode : im_mode canvas = RGBA) by apply mode_paste_all.
  assert (Hsize : size canvas
                  = ((max_x - min_x + 1) * t, (max_y - min_y + 1) * t))
    by apply size_paste_all.
  rewrite Hbmp, Hmode. rewrite bool_decide_false by discriminate.
  cbn [negb andb].
  eexists _, _. split; [reflexivity|].
  split; [apply lookup_insert_eq|]. split; [reflexivity|].
  intros x y Hxb Hyb.
  rewrite px_at_convert.
  - unfold canvas, bg. rewrite px_at_stitched by assumption.
    destruct (PyDict.get mapping (min_x + x / t, min_y + y / t)) as [path|];
      [|reflexivity].
    destruct (fs w !! path) as [[tile|]|]; reflexivity.
  - apply in_bounds_true. unfold size in Hsize. injection Hsize as -> ->. lia.
Qed.

Lemma stitch_bmp_drops_alpha_witness :
  exists w' saved_image,
    stitch red_world red_layout 0 0 1 0 "out.BMP" (Px4 0 0 0 0) (Some 4)
    = Ok w'
    /\ fs w' !! "out.BMP" = Some (Decodable saved_image)
    /\ im_mode saved_image = RGB.
Proof.
  destruct (stitch_bmp_drops_alpha red_world red_layout 0 0 1 0 "out.BMP"
              0 0 0 0 4) as (w' & img & Hs & Hfs & Hmode & _).
  - reflexivity.
  - lia.
  - lia.
  - lia.
  - vm_compute. apply NoDup_cons. split.
    + intros Hin. apply list_elem_of_In in Hin. destruct Hin as [H|[]].
      discriminate.
    + apply NoDup_singleton.
  - intros k path tile Hin Hfs.
    destruct Hin as [[= <- <-]|[[= <- <-]|[]]];
      vm_compute in Hfs; injection Hfs as <-; reflexivity.
  - exists w', img. repeat split; assumption.
Defined.


End stitch_extra.

(* ===================================================================== *)
(** * Further properties: slicing *)
(* ===================================================================== *)

Section slicer_extra.
Import Py Pil ImageSlicer.

Lemma slice_chunk_printed img output_dir chunk_size rows cols row col w cnt :
  printed (trace (fst (slice_chunk img output_dir chunk_size
                         (im_width img) (im_height img) rows cols row col
                         (w, cnt))))
  = printed (trace w)
    ++ (if (cnt + 1) mod 10 =? 0
        then [progress_line (rows * cols) (cnt + 1)] else []).
Proof.
  unfold slice_chunk, progress_line. simpl.
  destruct ((cnt + 1) mod 10 =? 0); simpl;
    rewrite ?printed_app; simpl; rewrite ?app_nil_r; reflexivity.
Qed.

Lemma slice_loop_printed img output_dir chunk_size rows cols l : forall w cnt,
  printed (trace (fst (fold_left
              (fun st rc =>
                 slice_chunk img output_dir chunk_size
                   (im_width img) (im_height img) rows cols
                   (fst rc) (snd rc) st) l (w, cnt))))
  = printed (trace w)
    ++ progress_lines (rows * cols) cnt (Z.of_nat (length l)).
Proof.
  unfold progress_lines.
  induction l as [|[r c] l IH]; intros w cnt.
  - simpl. rewrite range_nil by lia. simpl. now rewrite app_nil_r.
  - cbn [fold_left fst snd].
    pose proof (slice_chunk_printed img output_dir chunk_size rows cols
                  r c w cnt) as Hp.
    pose proof (slice_chunk_effect img output_dir chunk_size rows cols
                  r c w cnt) as (_ & _ & Hcnt).
    destruct (slice_chunk img output_dir chunk_size (im_width img)
                (im_height img) rows cols r c (w, cnt)) as [w1 cnt1].
    cbn [fst snd] in Hp, Hcnt. subst cnt1.
    rewrite IH, Hp, <- app_assoc. f_equal.
    rewrite (range_cons (cnt + 1)) by (cbn [length]; lia).
    cbn [List.filter].
    replace (cnt + 1 + Z.of_nat (length l) + 1)
      with (cnt + Z.of_nat (length ((r, c) :: l)) + 1)
      by (cbn [length]; lia).
    destruct ((cnt + 1) mod 10 =? 0); reflexivity.
Qed.

(** Everything [slice_image] does on a source that opens. *)
Lemma slice_image_run w input_path output_dir chunk_size img :
  open w input_path = Ok img -> chunk_size <> 0 ->
  let rows := ceil_div (im_height img) chunk_size in
  let cols := ceil_div (im_width img) chunk_size in
  let tiles := map (tile_entry img output_dir chunk_size) (cells rows cols) in
  exists w',
    slice_image w input_path output_dir chunk_size = Ok w'
    /\ fs w' = fold_left write_file tiles (fs w)
    /\ saved (trace w') = saved (trace w) ++ tiles
    /\ printed (trace w')
       = printed (trace w)
         ++ ["Opening image: " +:+ input_path;
             "Image dimensions: " +:+ str_int (im_width img) +:+ " x "
               +:+ str_int (im_height img) +:+ " pixels";
             "Will create " +:+ str_int rows +:+ " rows and "
               +:+ str_int cols +:+ " columns of chunks";
             "Total chunks: " +:+ str_int (rows * cols)]
         ++ progress_lines (rows * cols) 0 (Z.of_nat (length tiles))
         ++ [String "010"%char "Completed! Created "
               +:+ str_int (Z.of_nat (length tiles))
               +:+ " image chunks in " +:+ output_dir].
Proof.
  intros Hopen Hc rows cols tiles. unfold slice_image.
  assert (Hopen' : open (print w ("Opening image: " +:+ input_path)) input_path
                   = Ok img) by exact Hopen.
  rewrite Hopen'. unfold size.
  replace (chunk_size =? 0) with false by (symmetry; now apply Z.eqb_neq).
  rewrite fold_left_nested.
  fold rows cols.
  match goal with
  | |- context [fold_left _ _ (?w0, 0)] =>
      pose proof (slice_loop_effect img output_dir chunk_size rows cols
                    (cells rows cols) w0 0) as (Hfs & Hsaved & Hcnt);
      pose proof (slice_loop_printed img output_dir chunk_size rows cols
                    (cells rows cols) w0 0) as Hprinted
  end.
  unfold cells in Hfs, Hsaved, Hcnt, Hprinted.
  match goal with
  | |- context [fold_left ?f ?l ?s] => destruct (fold_left f l s) as [w1 cnt1]
  end.
  cbn [fst snd] in Hfs, Hsaved, Hcnt, Hprinted.
  eexists. split; [reflexivity|].
  cbn [print fs trace]. rewrite saved_app, printed_app.
  rewrite Hfs, Hsaved, Hprinted, Hcnt. cbn [print fs trace].
  rewrite !saved_app, !printed_app. cbn [saved printed].
  rewrite !app_nil_r. unfold tiles. rewrite length_map. unfold cells.
  split; [reflexivity|]. split; [reflexivity|].
  rewrite <- !app_assoc. reflexivity.
Qed.

Lemma fold_write_file_other (l : list (string * image)) : forall m p,
  (forall e, In e l -> fst e <> p) ->
  fold_left write_file l m !! p = m !! p.
Proof.
  induction l as [|e l IH]; intros m p Hp; [reflexivity|].
  cbn [fold_left]. rewrite IH by (intros e' He'; apply Hp; now right).
  unfold write_file. apply lookup_insert_ne. apply Hp. now left.
Qed.

Lemma fold_write_file_written (l : list (string * image)) : forall m e,
  In e l ->
  exists e', In e' l /\ fst e' = fst e
             /\ fold_left write_file l m !! fst e = Some (Decodable (snd e')).
Proof.
  induction l as [|e0 l IH] using rev_ind; intros m e Hin; [destruct Hin|].
  rewrite fold_left_app. cbn [fold_left]. unfold write_file at 1.
  destruct (decide (fst e0 = fst e)) as [Heq|Hne].
  - exists e0. split; [apply in_or_app; right; now left|].
    split; [assumption|]. rewrite Heq. apply lookup_insert_eq.
  - apply in_app_or in Hin as [Hin|[->|[]]]; [|congruence].
    destruct (IH m e Hin) as (e' & He' & Hfst & Hlook).
    exists e'. split; [apply in_or_app; now left|]. split; [assumption|].
    now rewrite lookup_insert_ne.
Qed.

Lemma size_chunk_of img C row col : size (chunk_of img C row col) = (C, C).
Proof.
  unfold chunk_of. destruct (decide _) as [Hne|Heq]; [reflexivity|].
  destruct (decide (size (crop img (col * C, row * C,
                                    Z.min (col * C + C) (im_width img),
                                    Z.min (row * C + C) (im_height img)))
                    = (C, C))); [assumption|contradiction].
Qed.

Lemma mode_chunk_of img C row col :
  im_mode (chunk_of img C row col) = im_mode img
  \/ im_mode (chunk_of img C row col) = RGBA.
Proof.
  unfold chunk_of. destruct (decide _); [right|left]; reflexivity.
Qed.



(** X12.  Whatever the source and the non-zero chunk size, every tile
    [slice_image] writes is exactly [C] x [C], in the mode of the source
    or RGBA, and named [row_col.png] inside the output directory; after
    the run each such path holds a [C] x [C] image and every other path
    holds what it held before. *)
Theorem slice_image_frame (w : world) (input_path output_dir : string)
    (C : Z) (img : image) :
  open w input_path = Ok img -> C <> 0 ->
  exists w' tiles,
    slice_image w input_path output_dir C = Ok w'
    /\ saved (trace w') = saved (trace w) ++ tiles
    /\ (forall path tile, In (path, tile) tiles ->
          size tile = (C, C)
          /\ (im_mode tile = im_mode img \/ im_mode tile = RGBA)
          /\ (exists row col, 0 <= row /\ 0 <= col
                /\ path = OsPath.join output_dir (chunk_filename row col))
          /\ exists on_disk,
               fs w' !! path = Some (Decodable on_disk)
               /\ size on_disk = (C, C))
    /\ (forall path, (forall tile, ~ In (path, tile) tiles) ->
          fs w' !! path = fs w !! path).
Proof.
  intros Hopen HC.
  destruct (slice_image_run w input_path output_dir C img Hopen HC)
    as (w' & Hrun & Hfs & Hsaved & _).
  set (rows := ceil_div (im_height img) C) in *.
  set (cols := ceil_div (im_width img) C) in *.
  set (tiles := map (tile_entry img output_dir C) (cells rows cols)) in *.
  assert (Htile : forall e, In e tiles ->
            exists row col, 0 <= row /\ 0 <= col
              /\ e = (tile_path output_dir row col, chunk_of img C row col)).
  { intros e He. apply in_map_iff in He as ([row col] & <- & Hrc).
    apply In_cells in Hrc. exists row, col. repeat split; lia. }
  exists w', tiles. split; [exact Hrun|]. split; [exact Hsaved|]. split.
  - intros path tile Hin.
    destruct (Htile _ Hin) as (row & col & Hrow & Hcol & [= -> ->]).
    split; [apply size_chunk_of|]. split; [apply mode_chunk_of|].
    split; [exists row, col; repeat split; assumption|].
    destruct (fold_write_file_written tiles (fs w) _ Hin)
      as (e' & He' & Hfst & Hlook).
    destruct (Htile _ He') as (row' & col' & _ & _ & ->).
    cbn [fst snd] in Hlook. rewrite Hfs.
    eexists. split; [exact Hlook|apply size_chunk_of].
  - intros path Hnot. rewrite Hfs. apply fold_write_file_other.
    intros [p tile] He Hp. cbn [fst] in Hp. subst p. exact (Hnot tile He).
Qed.

Lemma slice_image_frame_witness :
  exists w' tiles,
    slice_image demo_world "in.bmp" "out" 2 = Ok w'
    /\ saved (trace w') = tiles
    /\ forall path tile, In (path, tile) tiles -> size tile = (2, 2).
Proof.
  destruct (slice_image_frame demo_world "in.bmp" "out" 2 demo_source
              eq_refl ltac:(lia))
    as (w' & tiles & Hrun & Hsaved & Hall & _).
  exists w', tiles. split; [exact Hrun|]. split; [exact Hsaved|].
  intros path tile Hin. now destruct (Hall _ _ Hin) as (Hsize & _).
Defined.

(** X13.  What [slice_image] prints for a positive chunk size: the four
    opening lines with the image size and the grid, one progress line
    after every tenth tile, and a closing line whose count is the number
    of tiles written, [rows * cols]. *)
Theorem slice_image_stdout (w : world) (input_path output_dir : string)
    (C : Z) (img : image) :
  open w input_path = Ok img -> 0 < C ->
  0 <= im_width img -> 0 <= im_height img ->
  let rows := ceil_div (im_height img) C in
  let cols := ceil_div (im_width img) C in
  exists w',
    slice_image w input_path output_dir C = Ok w'
    /\ printed (trace w')
       = printed (trace w)
         ++ ["Opening image: " +:+ input_path;
             "Image dimensions: " +:+ str_int (im_width img) +:+ " x "
               +:+ str_int (im_height img) +:+ " pixels";
             "Will create " +:+ str_int rows +:+ " rows and "
               +:+ str_int cols +:+ " columns of chunks";
             "Total chunks: " +:+ str_int (rows * cols)]
         ++ map (fun k => "Processed " +:+ str_int k +:+ "/"
                          +:+ str_int (rows * cols) +:+ " chunks...")
                (List.filter (fun k => k mod 10 =? 0)
                             (range 1 (rows * cols + 1)))
         ++ [String "010"%char "Completed! Created "
               +:+ str_int (rows * cols)
               +:+ " image chunks in " +:+ output_dir].
Proof.
  intros Hopen HC HW HH rows cols.
  destruct (slice_image_run w input_path output_dir C img Hopen ltac:(lia))
    as (w' & Hrun & _ & _ & Hprinted).
  fold rows cols in Hprinted.
  assert (Hrows : 0 <= rows) by (apply ceil_div_nonneg; lia).
  assert (Hcols : 0 <= cols) by (apply ceil_div_nonneg; lia).
  rewrite length_map, (length_cells rows cols Hrows Hcols) in Hprinted.
  exists w'. split; [exact Hrun|]. exact Hprinted.
Qed.

Lemma slice_image_stdout_witness :
  exists w',
    slice_image demo_world "in.bmp" "out" 2 = Ok w'
    /\ last (printed (trace w'))
       = Some (String "010"%char "Completed! Created 2 image chunks in out").
Proof.
  destruct (slice_image_stdout demo_world "in.bmp" "out" 2 demo_source
              eq_refl ltac:(lia) ltac:(simpl; lia) ltac:(simpl; lia))
    as (w' & Hrun & Hprinted).
  exists w'. split; [exact Hrun|].
  rewrite Hprinted, !app_assoc. rewrite last_snoc. reflexivity.
Defined.

End slicer_extra.

(* ===================================================================== *)
(** * Further properties: the mask *)
(* ===================================================================== *)

Section mask_extra.
Import Py Cv2 AutoAirbrush ClassifierSpec.
Context `{Extern}.

Lemma saturation_gray v : saturation_of (v, v, v) = 0.
Proof.
  unfold saturation_of, value_of, blue, green, red. cbn [fst snd].
  rewrite !Z.max_id, !Z.min_id, Z.sub_diag. reflexivity.
Qed.

(** X14.  A neutral pixel, its three channels equal to [v], is flagged
    exactly when [v] is at least 120, and a tile of that one colour gets a
    raw mask that is 255 everywhere or 0 everywhere accordingly. *)
Theorem gray_tile_mask (rows cols : nat) (v : Z) :
  (flagged (v, v, v) <-> 120 <= v)
  /\ is_grayish_mask_bgr (uniform rows cols (v, v, v))
     = uniform rows cols (if 120 <=? v then 255 else 0).
Proof.
  assert (Hc : classify (v, v, v) = if 120 <=? v then 255 else 0).
  { unfold classify. rewrite saturation_gray.
    unfold value_of, blue, green, red. cbn [fst snd].
    rewrite !Z.max_id, Z.sub_diag. cbn [Z.abs Z.leb Z.compare andb].
    destruct (120 <=? v); reflexivity. }
  split.
  - destruct (classify_flagged (v, v, v)) as [H255 H0].
    rewrite Hc in H255, H0.
    destruct (Z.leb_spec 120 v) as [Hv|Hv].
    + split; [intros _; exact Hv|intros _; now apply H255].
    + split; [intros Hf; exfalso; now apply H0|lia].
  - rewrite is_grayish_mask_bgr_pointwise, amap_uniform. now rewrite Hc.
Qed.

Lemma shiftr_le_mono a b n : 0 <= n -> a <= b -> Z.shiftr a n <= Z.shiftr b n.
Proof.
  intros Hn Hab. rewrite !Z.shiftr_div_pow2 by assumption.
  apply Z.div_le_mono; [apply Z.pow_pos_nonneg; lia|assumption].
Qed.

Lemma sdiv_table_bright v :
  126 <= v <= 255 ->
  0 <= sdiv_table v /\ Z.shiftr (20 * sdiv_table v + 2048) 12 <= 40.
Proof.
  intros Hv.
  assert (Hall : forallb (fun v => (0 <=? sdiv_table v)
                            && (Z.shiftr (20 * sdiv_table v + 2048) 12 <=? 40))
                         (range 126 256) = true) by (vm_compute; reflexivity).
  rewrite forallb_forall in Hall.
  specialize (Hall v ltac:(apply In_range; lia)).
  apply andb_prop in Hall as [H0 H40].
  apply Z.leb_le in H0, H40. auto.
Qed.

(** X15.  For a pixel whose brightest channel is at least 126 the
    saturation test is implied by the channel test: the pixel is flagged
    exactly when its three channels lie within 20 of each other.  Below
    126 this fails: (100, 100, 120) passes the channel test and the value
    test and is not flagged. *)
Theorem bright_pixel_flagged_by_channels (p : bgr) :
  126 <= value_of p <= 255 ->
  (flagged p <->
   Z.abs (blue p - green p) <= 20 /\ Z.abs (blue p - red p) <= 20
   /\ Z.abs (green p - red p) <= 20)
  /\ ~ flagged (100, 100, 120).
Proof.
  intros Hv. split.
  - split; [intros [_ Hd]; exact Hd|].
    intros Hd. split; [|exact Hd]. split; [|lia].
    destruct (sdiv_table_bright (value_of p) Hv) as [Ht H40].
    unfold saturation_of.
    set (d := value_of p - Z.min (Z.min (blue p) (green p)) (red p)).
    assert (Hdle : d <= 20) by (unfold d, value_of; lia).
    etransitivity; [|exact H40].
    apply shiftr_le_mono; [lia|]. nia.
  - apply (proj2 (classify_flagged (100, 100, 120))). reflexivity.
Qed.

Lemma bright_pixel_flagged_by_channels_witness :
  flagged (200, 215, 205).
Proof.
  apply (bright_pixel_flagged_by_channels (200, 215, 205)).
  - unfold value_of, blue, green, red. simpl. lia.
  - unfold blue, green, red. simpl. lia.
Defined.

(** ** Morphology *)

Lemma imap_fixed {A : Type} (f : nat -> A -> A) (l : list A) :
  (forall i x, l !! i = Some x -> f i x = x) -> imap f l = l.
Proof.
  intros Hf. rewrite (imap_ext f (const id) l) by exact Hf.
  rewrite imap_const. apply list_fmap_id.
Qed.

Lemma at_Some a y x v :
  at_ a y x = Some v ->
  exists row, a !! Z.to_nat y = Some row /\ row !! Z.to_nat x = Some v.
Proof.
  unfold at_. destruct ((0 <=? y) && (0 <=? x)); [|discriminate].
  destruct (a !! Z.to_nat y) as [row|]; [|discriminate]. eauto.
Qed.

Lemma at_of_nat a (y x : nat) row v :
  a !! y = Some row -> row !! x = Some v ->
  at_ a (Z.of_nat y) (Z.of_nat x) = Some v.
Proof.
  intros Hrow Hv. unfold at_.
  replace (0 <=? Z.of_nat y) with true by (symmetry; apply Z.leb_le; lia).
  replace (0 <=? Z.of_nat x) with true by (symmetry; apply Z.leb_le; lia).
  cbn [andb]. now rewrite !Nat2Z.id, Hrow.
Qed.

(** Every value the kernel reads is an entry of the array. *)
Lemma neighbours_entries (P : Z -> Prop) k a y x :
  Forall (Forall P) a -> Forall P (neighbours k a y x).
Proof.
  intros Ha. unfold neighbours.
  induction k as [|d k IH]; [constructor|].
  cbn [omap list_omap].
  destruct (at_ a (y + fst d) (x + snd d)) as [v|] eqn:E; [|exact IH].
  constructor; [|exact IH].
  apply at_Some in E as (row & Hrow & Hv).
  rewrite Forall_lookup in Ha. specialize (Ha _ _ Hrow).
  rewrite Forall_lookup in Ha. exact (Ha _ _ Hv).
Qed.

(** The centre of the cross is read first. *)
Lemma neighbours_centre a (y x : nat) row v :
  a !! y = Some row -> row !! x = Some v ->
  exists rest,
    neighbours ellipse_3x3 a (Z.of_nat y) (Z.of_nat x) = v :: rest.
Proof.
  intros Hrow Hv. unfold neighbours, ellipse_3x3.
  cbn [omap list_omap fst snd]. rewrite !Z.add_0_r.
  rewrite (at_of_nat a y x row v Hrow Hv). eauto.
Qed.

Lemma fold_max_const v l :
  0 <= v -> Forall (fun u => u = v) l -> fold_right Z.max 0 (v :: l) = v.
Proof.
  intros Hv Hl. induction Hl as [|u l -> _ IH]; simpl in *; lia.
Qed.

Lemma fold_min_const v l :
  v <= 255 -> Forall (fun u => u = v) l -> fold_right Z.min 255 (v :: l) = v.
Proof.
  intros Hv Hl. induction Hl as [|u l -> _ IH]; simpl in *; lia.
Qed.

Lemma fold_max_binary l :
  Forall (fun v => v = 0 \/ v = 255) l ->
  fold_right Z.max 0 l = 0 \/ fold_right Z.max 0 l = 255.
Proof. intros Hl. induction Hl as [|u l Hu _ IH]; simpl; lia. Qed.

Lemma fold_min_binary l :
  Forall (fun v => v = 0 \/ v = 255) l ->
  fold_right Z.min 255 l = 0 \/ fold_right Z.min 255 l = 255.
Proof. intros Hl. induction Hl as [|u l Hu _ IH]; simpl; lia. Qed.

Lemma constant_entries {A : Type} (v : Z) (a : array A) :
  Forall (Forall (fun u => u = v)) (amap (fun _ => v) a).
Proof.
  unfold amap. apply Forall_forall. intros row Hrow.
  apply list_elem_of_In, in_map_iff in Hrow as (r & <- & _).
  apply Forall_forall. intros u Hu.
  apply list_elem_of_In, in_map_iff in Hu as (q & <- & _). reflexivity.
Qed.

Lemma constant_lookup {A : Type} (v : Z) (a : array A) y row x u :
  amap (fun _ => v) a !! y = Some row -> row !! x = Some u -> u = v.
Proof.
  intros Hrow Hu. pose proof (constant_entries v a) as Hall.
  rewrite Forall_lookup in Hall. specialize (Hall _ _ Hrow).
  rewrite Forall_lookup in Hall. exact (Hall _ _ Hu).
Qed.

Lemma dilate1_constant {A : Type} (v : Z) (a : array A) :
  0 <= v ->
  dilate1 ellipse_3x3 (amap (fun _ => v) a) = amap (fun _ => v) a.
Proof.
  intros Hv. unfold dilate1. apply imap_fixed. intros y row Hrow.
  apply imap_fixed. intros x u Hu.
  pose proof (constant_lookup v a y row x u Hrow Hu) as ->.
  destruct (neighbours_centre _ y x row v Hrow Hu) as (rest & Hn).
  pose proof (neighbours_entries (fun u => u = v) ellipse_3x3 _
                (Z.of_nat y) (Z.of_nat x) (constant_entries v a)) as Hall.
  rewrite Hn in Hall |- *. apply Forall_cons in Hall as [_ Hall].
  now apply fold_max_const.
Qed.

Lemma erode1_constant {A : Type} (v : Z) (a : array A) :
  v <= 255 ->
  erode1 ellipse_3x3 (amap (fun _ => v) a) = amap (fun _ => v) a.
Proof.
  intros Hv. unfold erode1. apply imap_fixed. intros y row Hrow.
  apply imap_fixed. intros x u Hu.
  pose proof (constant_lookup v a y row x u Hrow Hu) as ->.
  destruct (neighbours_centre _ y x row v Hrow Hu) as (rest & Hn).
  pose proof (neighbours_entries (fun u => u = v) ellipse_3x3 _
                (Z.of_nat y) (Z.of_nat x) (constant_entries v a)) as Hall.
  rewrite Hn in Hall |- *. apply Forall_cons in Hall as [_ Hall].
  now apply fold_min_const.
Qed.

Lemma refine_mask_amap_constant {A : Type} (v : Z) (a : array A) :
  0 <= v <= 255 ->
  refine_mask (amap (fun _ => v) a) = amap (fun _ => v) a.
Proof.
  intros Hv. unfold refine_mask, morphologyEx, dilate, erode, DILATE_ITER.
  cbn [Nat.iter nat_rect].
  now rewrite !dilate1_constant, !erode1_constant, !dilate1_constant by lia.
Qed.

(** X16.  Cleaning leaves a mask with one value everywhere as it is,
    whatever its shape: in particular the empty mask stays empty and the
    full mask stays full. *)
Theorem refine_mask_constant (rows cols : nat) (v : Z) :
  0 <= v <= 255 ->
  refine_mask (uniform rows cols v) = uniform rows cols v.
Proof.
  intros Hv.
  assert (Hu : uniform rows cols v = amap (fun _ => v) (uniform rows cols v))
    by now rewrite amap_uniform.
  rewrite Hu at 1. rewrite refine_mask_amap_constant by assumption.
  now rewrite <- Hu.
Qed.

Lemma refine_mask_constant_witness :
  refine_mask (uniform 3 4 255) = uniform 3 4 255.
Proof. apply refine_mask_constant. lia. Defined.

Lemma shape_imap2 {A B : Type} (f : nat -> nat -> A -> B) (a : array A) :
  map length (imap (fun y row => imap (f y) row) a) = map length a.
Proof.
  unfold array in *. apply list_eq. intros y.
  change (map length ?l) with (length <$> l).
  rewrite !list_lookup_fmap, list_lookup_imap.
  destruct (a !! y) as [row|]; [|reflexivity].
  cbn. now rewrite length_imap.
Qed.

Lemma shape_dilate1 k a : map length (dilate1 k a) = map length a.
Proof. unfold dilate1. apply shape_imap2. Qed.

Lemma shape_erode1 k a : map length (erode1 k a) = map length a.
Proof. unfold erode1. apply shape_imap2. Qed.

Lemma Forall_imap2 {A B : Type} (P : B -> Prop)
    (f : nat -> nat -> A -> B) (a : array A) :
  (forall y x v, P (f y x v)) ->
  Forall (Forall P) (imap (fun y row => imap (f y) row) a).
Proof.
  intros Hf. unfold array in *. apply Forall_lookup. intros y row Hrow.
  rewrite list_lookup_imap in Hrow.
  destruct (a !! y) as [r|]; [|discriminate]. injection Hrow as <-.
  apply Forall_lookup. intros x v Hv.
  rewrite list_lookup_imap in Hv.
  destruct (r !! x) as [u|]; [|discriminate]. injection Hv as <-. apply Hf.
Qed.

Lemma binary_dilate1 k a : binary a -> binary (dilate1 k a).
Proof.
  intros Ha. unfold binary, dilate1.
  apply (Forall_imap2 _ (fun y x _ => fold_right Z.max 0
            (neighbours k a (Z.of_nat y) (Z.of_nat x)))).
  intros y x _. apply fold_max_binary. now apply neighbours_entries.
Qed.

Lemma binary_erode1 k a : binary a -> binary (erode1 k a).
Proof.
  intros Ha. unfold binary, erode1.
  apply (Forall_imap2 _ (fun y x _ => fold_right Z.min 255
            (neighbours k a (Z.of_nat y) (Z.of_nat x)))).
  intros y x _. apply fold_min_binary. now apply neighbours_entries.
Qed.

Lemma shape_refine_mask m : map length (refine_mask m) = map length m.
Proof.
  unfold refine_mask, morphologyEx, dilate, erode, DILATE_ITER.
  cbn [Nat.iter nat_rect].
  now rewrite !shape_dilate1, !shape_erode1, !shape_dilate1.
Qed.

Lemma binary_refine_mask m : binary m -> binary (refine_mask m).
Proof.
  intros Hm. unfold refine_mask, morphologyEx, dilate, erode, DILATE_ITER.
  cbn [Nat.iter nat_rect].
  repeat (apply binary_dilate1 || apply binary_erode1). exact Hm.
Qed.

Lemma binary_is_grayish img : binary (is_grayish_mask_bgr img).
Proof.
  rewrite is_grayish_mask_bgr_pointwise. unfold binary, amap.
  apply Forall_forall. intros row Hrow.
  apply list_elem_of_In, in_map_iff in Hrow as (r & <- & _).
  apply Forall_forall. intros u Hu.
  apply list_elem_of_In, in_map_iff in Hu as (p & <- & _).
  unfold classify. destruct (_ && _); auto.
Qed.

Lemma shape_is_grayish img :
  map length (is_grayish_mask_bgr img) = map length img.
Proof.
  rewrite is_grayish_mask_bgr_pointwise. unfold amap.
  rewrite map_map. apply map_ext. intros row. apply length_map.
Qed.

(** X17.  The mask computed for a tile, classification followed by
    cleaning, has the tile's shape row for row, and each of its entries is
    0 or 255. *)
Theorem refined_mask_binary_same_shape (img : array bgr) :
  map length (refine_mask (is_grayish_mask_bgr img)) = map length img
  /\ length (refine_mask (is_grayish_mask_bgr img)) = length img
  /\ forall (y x : nat) row v,
       refine_mask (is_grayish_mask_bgr img) !! y = Some row ->
       row !! x = Some v -> v = 0 \/ v = 255.
Proof.
  assert (Hshape : map length (refine_mask (is_grayish_mask_bgr img))
                   = map length img)
    by now rewrite shape_refine_mask, shape_is_grayish.
  split; [exact Hshape|]. split.
  - apply (f_equal (@length nat)) in Hshape. now rewrite !length_map in Hshape.
  - intros y x row v Hrow Hv.
    pose proof (binary_refine_mask _ (binary_is_grayish img)) as Hb.
    unfold binary in Hb. rewrite Forall_lookup in Hb.
    specialize (Hb _ _ Hrow). rewrite Forall_lookup in Hb.
    exact (Hb _ _ Hv).
Qed.

End mask_extra.

(* ===================================================================== *)
(** * Further properties: processing one tile *)
(* ===================================================================== *)

Section filler_extra.
Import Py Cv2 AutoAirbrush ClassifierSpec.
Context `{Extern}.










End filler_extra.

Section filler_extra_examples.
Import Py Cv2 AutoAirbrush ClassifierSpec.


End filler_extra_examples.

(* ===================================================================== *)
(** * Further properties: the tint colour *)
(* ===================================================================== *)

Section green_extra.
Import Py Cv2 AutoAirbrush ClassifierSpec.
Context `{Extern}.

Lemma concat_uniform {A : Type} rows cols (x : A) :
  concat (uniform rows cols x) = repeat x (rows * cols).
Proof.
  unfold uniform. induction rows as [|rows IH]; [reflexivity|].
  cbn [repeat concat Nat.mul]. now rewrite IH, repeat_app.
Qed.

Lemma sum_repeat x n : fold_right Z.add 0 (repeat x n) = Z.of_nat n * x.
Proof.
  induction n as [|n IH]; [reflexivity|].
  cbn [repeat fold_right]. lia.
Qed.

Lemma int_mean_repeat x n : (0 < n)%nat -> int_mean (repeat x n) = x.
Proof.
  intros Hn. unfold int_mean. rewrite sum_repeat, repeat_length.
  rewrite Z.mul_comm. apply Z.div_mul. lia.
Qed.

Lemma select_repeat x n :
  omap (fun xb : Z * bool => if snd xb then Some (fst xb) else None)
       (zip (repeat x n) (repeat true n))
  = repeat x n.
Proof.
  induction n as [|n IH]; [reflexivity|].
  cbn [repeat zip zip_with omap list_omap snd fst]. now rewrite IH.
Qed.

Lemma existsb_repeat (b : bool) n :
  (0 < n)%nat -> existsb (fun c : bool => c) (repeat b n) = b.
Proof.
  intros Hn. destruct n as [|n]; [lia|]. clear Hn. simpl.
  destruct b; [reflexivity|]. induction n as [|n IH]; [reflexivity|exact IH].
Qed.

(** X20.  On a tile of one colour [compute_mean_green] returns that
    colour, whether or not the colour counts as green. *)
Theorem compute_mean_green_uniform (rows cols : nat) (p : bgr) :
  (0 < rows)%nat -> (0 < cols)%nat ->
  compute_mean_green (uniform rows cols p) None = p.
Proof.
  intros Hrows Hcols.
  assert (Hn : (0 < rows * cols)%nat) by nia.
  unfold compute_mean_green, cvtColor_BGR2HSV, split. cbv zeta.
  rewrite !amap_amap. cbn [fst snd].
  rewrite !amap2_amap_same. rewrite !amap_uniform, !concat_uniform.
  rewrite existsb_repeat by exact Hn.
  unfold select. rewrite !concat_uniform.
  destruct p as [[b g] r]. cbn [fst snd].
  match goal with
  | |- (if ?c then _ else _) = _ => destruct c
  end.
  - rewrite !select_repeat, !int_mean_repeat by exact Hn. reflexivity.
  - rewrite !int_mean_repeat by exact Hn. reflexivity.
Qed.

End green_extra.

Section green_extra_examples.
Import Py Cv2 AutoAirbrush ClassifierSpec.

Lemma compute_mean_green_uniform_witness :
  @compute_mean_green plain_opencv (uniform 2 3 (40, 180, 60)) None
  = (40, 180, 60).
Proof.
  apply (@compute_mean_green_uniform plain_opencv 2 3 (40, 180, 60)); lia.
Defined.

End green_extra_examples.

(* ===================================================================== *)
(** * Further properties: file names after a second pass *)
(* ===================================================================== *)

Section rerun_extra.
Import Py OsPath Re StitchBrushed ImageSlicer.

Lemma parse_stem_suffix (row col : Z) (s : string) :
  0 <= row -> 0 <= col ->
  findall_go (InNum (str_int col)) s = [str_int col] ->
  (let nums := findall_int
                 (str_int row +:+ String "_"%char (str_int col +:+ s)) in
   if (2 <=? length nums)%nat
   then Some (int (nth (length nums - 2) nums EmptyString),
              int (nth (length nums - 1) nums EmptyString))
   else None)
  = Some (row, col).
Proof.
  intros Hrow Hcol Hs.
  destruct (str_int_digits row Hrow) as [DR HR].
  destruct (str_int_digits col Hcol) as [DC HC].
  cbv zeta. rewrite findall_int_pair, Hs by assumption.
  simpl. now rewrite !int_str_int.
Qed.

(** X21.  Fed the mask or the brushed file of an earlier pass over the
    tile of grid position (row, col), [process_image_file] names its
    result so that it passes the filter of [find_images] and the locator
    reads it as (row, col), the position of the tile's own brushed file. *)
Theorem second_pass_outputs_collide (tile_dir : string)
    (output_dir output_dir' : option string) (row col : Z) :
  0 <= row -> 0 <= col ->
  let tile := join tile_dir (chunk_filename row col) in
  (is_brushed (brushed_path (mask_path tile output_dir) output_dir') = true
   /\ parse_coords_from_name
        (brushed_path (mask_path tile output_dir) output_dir')
      = Some (row, col))
  /\ (is_brushed (brushed_path (brushed_path tile output_dir) output_dir')
      = true
      /\ parse_coords_from_name
           (brushed_path (brushed_path tile output_dir) output_dir')
         = Some (row, col)).
Proof.
  intros Hrow Hcol tile.
  split; (split; [apply is_brushed_brushed_path|]);
    unfold parse_coords_from_name, tile;
    rewrite base_name_brushed;
    rewrite ?base_name_mask, ?base_name_brushed;
    rewrite base_name_tile by assumption;
    rewrite !append_assoc, !append_cons, append_nil_l;
    apply (parse_stem_suffix row col _ Hrow Hcol); reflexivity.
Qed.

Lemma second_pass_outputs_collide_witness :
  parse_coords_from_name
    (brushed_path (mask_path (join "output" (chunk_filename 7 7))
                             (Some "output")) (Some "output"))
  = Some (7, 7).
Proof.
  apply (second_pass_outputs_collide "output" (Some "output") (Some "output")
           7 7); lia.
Defined.

(** X22.  The locator reads coordinates from the file name alone:
    numbers in the directory part of a path never count. *)
Theorem parse_coords_ignores_directory (dir fn : string) :
  fn <> EmptyString -> contains "/"%char fn = false ->
  parse_coords_from_name (join dir fn) = parse_coords_from_name fn.
Proof.
  intros Hne Hno. destruct fn as [|c r] eqn:Hfn; [congruence|].
  assert (Hc : c <> "/"%char).
  { intros ->. discriminate. }
  unfold parse_coords_from_name.
  rewrite (basename_join dir (String c r) c r eq_refl Hc Hno).
  replace (basename (String c r)) with (String c r); [reflexivity|].
  unfold basename. now rewrite rsplit_None.
Qed.

Lemma parse_coords_ignores_directory_witness :
  parse_coords_from_name (join "run_7/pass_2" "tile_3_5_brushed.png")
  = parse_coords_from_name "tile_3_5_brushed.png".
Proof.
  apply parse_coords_ignores_directory; [discriminate|reflexivity].
Defined.

End rerun_extra.
